(** * Structurizr DSL error sidecar: extraction, suggestion, diagnostic log

    A shallow embedding of the DSL error tools of the MCP server
    (processDslError, getSuggestionForError and the getDslErrors,
    clearDslErrors and fixDslError tool handlers), with the properties
    of the specification proved about it. *)

From Stdlib Require Import String Ascii List ZArith NArith Bool Lia.
From Stdlib Require Decimal DecimalString DecimalPos.
Import ListNotations.

Set Implicit Arguments.

(** ** JavaScript strings

    A JavaScript string is a sequence of 16-bit code units.  The code
    only ever builds strings from ASCII literals, from the input text
    and from slices of it, so a code unit is kept as its number. *)

Definition code_unit := N.
Definition js_string := list code_unit.

(** An ASCII literal of the source as a [js_string]. *)
Definition lit (s : string) : js_string :=
  map N_of_ascii (list_ascii_of_string s).

Definition QUOTE : code_unit := 34%N.   (* the double quote *)
Definition NEWLINE : code_unit := 10%N. (* \n *)
Definition COLON : code_unit := 58%N.   (* : *)

(** LineTerminator of ECMAScript: LF, CR, LS, PS. *)
Definition isLineTerminator (c : code_unit) : bool :=
  ((c =? 10) || (c =? 13) || (c =? 8232) || (c =? 8233))%N.

(** WhiteSpace and LineTerminator of ECMAScript, the set that
    [String.prototype.trim] strips: TAB, VT, FF, SP, NBSP, ZWNBSP, the
    Unicode space separators, and the line terminators. *)
Definition isWhiteSpace (c : code_unit) : bool :=
  ((c =? 9) || (c =? 11) || (c =? 12) || (c =? 32) || (c =? 160)
   || (c =? 5760) || ((8192 <=? c) && (c <=? 8202)) || (c =? 8239)
   || (c =? 8287) || (c =? 12288) || (c =? 65279)
   || isLineTerminator c)%N.

(** The decimal digits 0 to 9, the class [\d] without the unicode flag. *)
Definition isDigit (c : code_unit) : bool :=
  ((48 <=? c) && (c <=? 57))%N.

(** [s.startsWith(p)] at position 0. *)
Fixpoint startsWith (p s : js_string) : bool :=
  match p, s with
  | [], _ => true
  | _ :: _, [] => false
  | a :: p', b :: s' => (a =? b)%N && startsWith p' s'
  end.

(** [s.includes(p)]: [p] occurs in [s] at some index. *)
Fixpoint includes (s p : js_string) : bool :=
  startsWith p s ||
  match s with
  | [] => false
  | _ :: s' => includes s' p
  end.

Fixpoint trimStart (s : js_string) : js_string :=
  match s with
  | [] => []
  | c :: s' => if isWhiteSpace c then trimStart s' else s
  end.

Definition trimEnd (s : js_string) : js_string :=
  rev (trimStart (rev s)).

(** [s.trim()]. *)
Definition trim (s : js_string) : js_string :=
  trimEnd (trimStart s).

(** [a === b] on two strings. *)
Fixpoint strictEquals (a b : js_string) : bool :=
  match a, b with
  | [], [] => true
  | x :: a', y :: b' => (x =? y)%N && strictEquals a' b'
  | _, _ => false
  end.

(** ** The suggestion matcher *)

Record Suggestion := mkSuggestion {
  issue : js_string;
  fix_ : js_string   (* the field [fix]; the name is reserved here *)
}.

Definition dynamicViewSuggestion : Suggestion := {|
  issue := lit "The dynamic view syntax is incorrect. It needs a container/component identifier AND key.";
  fix_ := lit "Correct syntax: 'dynamic ContainerName ErrorHandlingFlow {'"
         ++ [NEWLINE]
         ++ lit "Alternatively: 'dynamic ComponentName ErrorHandlingFlow {'"
|}.

Definition relationshipSuggestion : Suggestion := {|
  issue := lit "There's a relationship defined between components that doesn't exist or has incorrect syntax";
  fix_ := lit "Check the relationship syntax and ensure both components exist: '<source> -> <destination> "
         ++ [QUOTE] ++ lit "description" ++ [QUOTE] ++ lit "'"
|}.

Definition genericSuggestion : Suggestion := {|
  issue := lit "Syntax error in the DSL file";
  fix_ := lit "Check the documentation at https://structurizr.com/dsl for correct syntax"
|}.

(** Generate a suggestion based on the error type. *)
Definition getSuggestionForError (message context : js_string) : Suggestion :=
  if includes message (lit "Unexpected tokens") && includes context (lit "dynamic")
  then dynamicViewSuggestion
  else if includes message (lit "Unknown relationship")
          || includes message (lit "relationship")
  then relationshipSuggestion
  else genericSuggestion.

(** ** Regular expressions

    The fragment of ECMAScript patterns that the extractor uses:
    literal text, one-character classes, greedy and lazy repetition of
    a class, and numbered capturing groups.  Matching is the
    backtracking procedure of the language: a repetition tries its
    preferred number of iterations first and gives way only when the
    rest of the pattern fails. *)

Inductive char_class :=
| Dot                               (* .      any code unit but a line terminator *)
| Digit                             (* \d *)
| NoneOf (cs : list code_unit).     (* [^cs] *)

Definition class_matches (cc : char_class) (c : code_unit) : bool :=
  match cc with
  | Dot => negb (isLineTerminator c)
  | Digit => isDigit c
  | NoneOf cs => negb (existsb (N.eqb c) cs)
  end.

Inductive regex :=
| Str (p : js_string)                      (* literal text *)
| Star (cc : char_class) (greedy : bool)   (* cc*  and  cc*? *)
| Plus (cc : char_class) (greedy : bool)   (* cc+  and  cc+? *)
| Group (n : nat) (r : regex)              (* the n-th capturing group *)
| Seq (r1 r2 : regex).

(** Captures, most recent first. *)
Definition captures := list (nat * js_string).

Fixpoint capture (n : nat) (caps : captures) : option js_string :=
  match caps with
  | [] => None
  | (m, s) :: caps' => if Nat.eqb n m then Some s else capture n caps'
  end.

Section Matcher.

Variable A : Type.

(** A continuation receives the text consumed, the text left and the
    captures so far. *)
Definition cont := js_string -> js_string -> captures -> option A.

Fixpoint loop (cc : char_class) (greedy : bool) (acc s : js_string)
         (caps : captures) (k : cont) : option A :=
  match s with
  | [] => k acc s caps
  | c :: s' =>
      if class_matches cc c then
        if greedy then
          match loop cc greedy (acc ++ [c]) s' caps k with
          | Some a => Some a
          | None => k acc s caps
          end
        else
          match k acc s caps with
          | Some a => Some a
          | None => loop cc greedy (acc ++ [c]) s' caps k
          end
      else k acc s caps
  end.

Fixpoint run (r : regex) (s : js_string) (caps : captures) (k : cont)
  : option A :=
  match r with
  | Str p =>
      if startsWith p s then k p (skipn (length p) s) caps else None
  | Star cc greedy => loop cc greedy [] s caps k
  | Plus cc greedy =>
      match s with
      | [] => None
      | c :: s' =>
          if class_matches cc c then loop cc greedy [c] s' caps k else None
      end
  | Group n r' =>
      run r' s caps (fun c s' caps' => k c s' ((n, c) :: caps'))
  | Seq r1 r2 =>
      run r1 s caps (fun c1 s1 caps1 =>
        run r2 s1 caps1 (fun c2 s2 caps2 => k (c1 ++ c2) s2 caps2))
  end.

End Matcher.

(** [s.match(r)] for a pattern without flags: the first index at which
    the pattern matches wins; the result holds the captures. *)
Fixpoint regexMatch (r : regex) (s : js_string) : option captures :=
  match run r s [] (fun _ _ caps => Some caps) with
  | Some caps => Some caps
  | None =>
      match s with
      | [] => None
      | _ :: s' => regexMatch r s'
      end
  end.

(** The pattern literal of [processDslError], piece by piece: the text
    [workspace\.dsl: ], group 1 [.*?], the text [ at line ], group 2
    [\d+], the text [ of ], group 3 [[^:]+], a colon, group 4 [.*]. *)
Definition dslErrorPattern : regex :=
  Seq (Str (lit "workspace.dsl: "))
 (Seq (Group 1 (Star Dot false))
 (Seq (Str (lit " at line "))
 (Seq (Group 2 (Plus Digit true))
 (Seq (Str (lit " of "))
 (Seq (Group 3 (Plus (NoneOf [COLON]) true))
 (Seq (Str [COLON])
      (Group 4 (Star Dot true)))))))).

(** ** Numbers

    A JavaScript number that holds an integer, an infinity or NaN: the
    values [parseInt] can return.  Integers below 2^53 in magnitude are
    exact; larger ones are rounded to the nearest double, ties to the
    even significand, and overflow to an infinity. *)

Inductive number :=
| Int (z : Z)
| Infinity (negative : bool)
| NaN.

Local Open Scope Z_scope.

Definition roundToDouble (z : Z) : number :=
  let a := Z.abs z in
  if a <? 2 ^ 53 then Int z
  else
    let e := Z.log2 a - 52 in
    let q := a / 2 ^ e in
    let r := a mod 2 ^ e in
    let half := 2 ^ (e - 1) in
    let q' := if (half <? r) || ((r =? half) && Z.odd q) then q + 1 else q in
    let v := q' * 2 ^ e in
    if 2 ^ 1024 <=? v then Infinity (z <? 0) else Int (Z.sgn z * v).

Fixpoint digitsPrefix (s : js_string) : js_string :=
  match s with
  | [] => []
  | c :: s' => if isDigit c then c :: digitsPrefix s' else []
  end.

Definition digitValue (c : code_unit) : Z := Z.of_N (c - 48).

(** The value of a digit string in base 10. *)
Definition decimalValue (ds : js_string) : Z :=
  fold_left (fun acc c => 10 * acc + digitValue c) ds 0.

(** [parseInt(s, 10)]: leading white space is skipped, a sign is read,
    then the longest run of decimal digits; no digit gives NaN. *)
Definition parseInt10 (s : js_string) : number :=
  let s1 := trimStart s in
  let '(negative, s2) :=
    match s1 with
    | c :: s' =>
        if (c =? 45)%N then (true, s')
        else if (c =? 43)%N then (false, s')
        else (false, s1)
    | [] => (false, s1)
    end in
  match digitsPrefix s2 with
  | [] => NaN
  | ds => roundToDouble (if negative then - decimalValue ds else decimalValue ds)
  end.

(** The text of an integer in a template literal: plain decimal.  This
    is how an integer of magnitude up to 2^53 prints.  A larger number
    prints as the shortest digits that read back as the same double,
    followed by zeros, and in exponent form from 10^21 on, which this
    definition does not follow: it is exact up to 2^53 only. *)
Definition numberToString (z : Z) : js_string :=
  lit (DecimalString.NilZero.string_of_int (Z.to_int z)).

(** ** JSON values and the files of the server *)

Unset Elimination Schemes.
Inductive json :=
| JNull
| JBool (b : bool)
| JNum (z : Z)
| JStr (s : js_string)
| JArr (items : list json)
| JObj (fields : list (js_string * json)).
Set Elimination Schemes.

(** What [JSON.parse(JSON.stringify(n))] gives for a number: an infinity
    and NaN are written as [null]. *)
Definition numberJson (n : number) : json :=
  match n with
  | Int z => JNum z
  | Infinity _ => JNull
  | NaN => JNull
  end.

(** The value of a key in a parsed object; of two equal keys the later
    one counts. *)
Fixpoint property (name : js_string) (fields : list (js_string * json))
  : option json :=
  match fields with
  | [] => None
  | (key, value) :: rest =>
      match property name rest with
      | Some later => Some later
      | None => if strictEquals key name then Some value else None
      end
  end.

(** Whether a parsed value has a text in a template literal.  An object
    is [[object Object]] unless it holds a key [toString], which is no
    function: then putting it into text throws.  An array is the texts
    of its elements, and throws when one of them does. *)
Fixpoint printable (v : json) : bool :=
  match v with
  | JArr items =>
      (fix all (items : list json) : bool :=
         match items with
         | [] => true
         | item :: rest => printable item && all rest
         end) items
  | JObj fields =>
      match property (lit "toString") fields with
      | Some _ => false
      | None => true
      end
  | _ => true
  end.

Definition isHighSurrogate (c : code_unit) : bool :=
  ((55296 <=? c) && (c <=? 56319))%N.
Definition isLowSurrogate (c : code_unit) : bool :=
  ((56320 <=? c) && (c <=? 57343))%N.

(** Iterating a string yields its code points, each as a string. *)
Fixpoint codePoints (s : js_string) : list js_string :=
  match s with
  | [] => []
  | c :: s' =>
      match s' with
      | d :: s'' =>
          if isHighSurrogate c && isLowSurrogate d
          then [c; d] :: codePoints s''
          else [c] :: codePoints s'
      | [] => [[c]]
      end
  end.

(** The values thrown by the calls the tools make. *)
Inductive js_error :=
| SyntaxError     (* JSON.parse on text that is not JSON *)
| TypeError       (* spreading or calling what is not iterable or callable *)
| RangeError      (* spreading more values than one call takes arguments *)
| SystemError.    (* a failing file read or write *)

(** What a call gives back: a value, or a thrown error. *)
Inductive outcome (A : Type) :=
| Return (a : A)
| Throw (e : js_error).
Arguments Return {A} a.
Arguments Throw {A} e.

(** [...v] in an argument list: arrays and strings are iterable, the
    other JSON values are not.  The values become the arguments of one
    call, of which the engine takes [maxArguments] and no more. *)
Definition spread (maxArguments : Z) (v : json) : outcome (list json) :=
  let arguments (items : list json) :=
    if Z.of_nat (List.length items) <=? maxArguments
    then Return items
    else Throw RangeError in
  match v with
  | JArr items => arguments items
  | JStr s => arguments (map JStr (codePoints s))
  | _ => Throw TypeError
  end.

(** [xs.slice(start)], on a list of any kind. *)
Definition slice {A : Type} (start : Z) (xs : list A) : list A :=
  let len := Z.of_nat (List.length xs) in
  let k := if start <? 0 then Z.max (len + start) 0 else Z.min start len in
  skipn (Z.to_nat k) xs.

(** The log file as the tools see it: absent, present but failing to
    read, holding text that is not JSON, or holding a JSON value. *)
Inductive file :=
| Missing
| Unreadable
| Garbage
| Json (v : json).

Inductive console_line :=
| Log (text : js_string) (arg : option js_string)   (* console.log *)
| Error (text : js_string) (e : js_error).          (* console.error *)

(** The state the tools act on: the log file [CONFIG.dslLogFile],
    whether writing it succeeds, the text of workspace.dsl (if it
    exists), the console output so far, oldest line first, and the
    number of arguments the engine takes in one call. *)
Record world := World {
  dslLogFile : file;
  writable : bool;
  workspaceDsl : option js_string;
  console : list console_line;
  maxArguments : Z
}.

(** A world of an engine that takes 65535 arguments in one call. *)
Definition mkWorld (dslLogFile : file) (writable : bool)
           (workspaceDsl : option js_string) (console : list console_line)
  : world :=
  World dslLogFile writable workspaceDsl console 65535.

Definition consoleLog (text : js_string) (arg : option js_string) (w : world)
  : world :=
  World (dslLogFile w) (writable w) (workspaceDsl w)
        (console w ++ [Log text arg]) (maxArguments w).

Definition consoleError (text : js_string) (e : js_error) (w : world) : world :=
  World (dslLogFile w) (writable w) (workspaceDsl w)
        (console w ++ [Error text e]) (maxArguments w).

(** [fs.writeFileSync(CONFIG.dslLogFile, JSON.stringify(v))]: replaces
    the whole file, or throws.  A write that throws stands for one that
    is refused when the file is opened, which leaves the file as it
    was; a write that fails after the file was opened, and so
    truncated, has no state here.  After a write [dslLogFile] is what
    the file holds; whether a file that could not be read can be read
    then is not followed. *)
Definition writeFileSync (v : json) (w : world) : outcome world :=
  if writable w
  then Return (World (Json v) (writable w) (workspaceDsl w) (console w)
                     (maxArguments w))
  else Throw SystemError.

(** [JSON.parse(fs.readFileSync(CONFIG.dslLogFile, 'utf-8'))]. *)
Definition readJson (w : world) : outcome json :=
  match dslLogFile w with
  | Missing => Throw SystemError
  | Unreadable => Throw SystemError
  | Garbage => Throw SyntaxError
  | Json v => Return v
  end.

Definition existsSync (w : world) : bool :=
  match dslLogFile w with
  | Missing => false
  | _ => true
  end.

(** ** The extractor *)

Record DslError := mkDslError {
  timestamp : js_string;
  type : js_string;
  message : js_string;
  filename : js_string;
  line : number;
  column : Z;
  context : js_string;
  suggestion : Suggestion
}.

Definition suggestionJson (s : Suggestion) : json :=
  JObj [(lit "issue", JStr (issue s)); (lit "fix", JStr (fix_ s))].

(** The entry pushed on the log for a parsed error, as it reads back
    from the file. *)
Definition logEntry (dslError : DslError) : json :=
  JObj [
    (lit "source", JStr (lit "Structurizr DSL"));
    (lit "severity", JStr (lit "Error"));
    (lit "message", JStr (message dslError));
    (lit "file", JStr (filename dslError));
    (lit "line", numberJson (line dslError));
    (lit "column", JNum (column dslError));
    (lit "code", JStr (lit "dsl-syntax"));
    (lit "relatedInformation", JArr [
      JObj [
        (lit "message", JStr (lit "Context: " ++ context dslError));
        (lit "file", JStr (filename dslError));
        (lit "line", numberJson (line dslError));
        (lit "column", JNum (column dslError))
      ]
    ]);
    (lit "suggestion", suggestionJson (suggestion dslError));
    (lit "timestamp", JStr (timestamp dslError))
  ].

(** The guarded read at the head of the append: the entries already in
    the log, none when the file is absent, and none, with the error on
    the console, when reading, parsing or spreading throws. *)
Definition existingErrors (w : world) : list json * world :=
  if existsSync w then
    match readJson w with
    | Throw e => ([], consoleError (lit "Error reading existing DSL errors:") e w)
    | Return v =>
        match spread (maxArguments w) v with
        | Throw e => ([], consoleError (lit "Error reading existing DSL errors:") e w)
        | Return items => (items, w)
        end
    end
  else ([], w).

(** Process a Structurizr DSL error.  [now] is the text that
    [new Date().toISOString()] gives at the call. *)
Definition processDslError (errorText now : js_string) (w : world)
  : outcome (option DslError) * world :=
  let w := consoleLog (lit "Processing DSL error:") (Some errorText) w in
  match regexMatch dslErrorPattern errorText with
  | Some caps =>
      match capture 1 caps, capture 2 caps, capture 3 caps, capture 4 caps with
      | Some errorMessage, Some lineNumber, Some filePath, Some errorContext =>
          let dslError := {|
            timestamp := now;
            type := lit "DSL";
            message := trim errorMessage;
            filename := trim filePath;
            line := parseInt10 lineNumber;
            column := 1;
            context := trim errorContext;
            suggestion :=
              getSuggestionForError (trim errorMessage) (trim errorContext)
          |} in
          let '(dslErrors, w) := existingErrors w in
          let dslErrors := dslErrors ++ [logEntry dslError] in
          match writeFileSync (JArr dslErrors) w with
          | Throw e => (Throw e, w)
          | Return w =>
              (Return (Some dslError),
               consoleLog (lit "DSL error processed and saved") None w)
          end
      | _, _, _, _ => (Throw TypeError, w)   (* a capture left undefined *)
      end
  | None =>
      (Return None, consoleLog (lit "Could not parse DSL error format") None w)
  end.

(** ** The tool handlers *)

(** Whether the line of the summary for [error] can be built: its
    message, line and file are read and put into text.  Reading a field
    of null throws; a field that is not there prints as undefined. *)
Definition summarised (error : json) : bool :=
  match error with
  | JNull => false
  | JObj fields =>
      forallb (fun name =>
                 match property name fields with
                 | Some v => printable v
                 | None => true
                 end)
              [lit "message"; lit "line"; lit "file"]
  | _ => true
  end.

(** The text content of a [getDslErrors] reply, by its three shapes. *)
Inductive GetDslErrorsReply :=
| NoErrorsFound                              (* No DSL errors found in the log *)
| FoundErrors (recentErrors : list json)     (* Found n recent DSL errors: ... *)
| FailedToRetrieve (e : js_error).           (* Failed to retrieve DSL errors: ... *)

Definition getDslErrors (count : Z) (w : world) : GetDslErrorsReply * world :=
  let failed e :=
    (FailedToRetrieve e, consoleError (lit "Error retrieving DSL errors:") e w) in
  match readJson w with
  | Throw e => failed e
  | Return (JArr errors) =>
      let recentErrors := slice (- count) errors in
      if (List.length recentErrors =? 0)%nat then (NoErrorsFound, w)
      else if forallb summarised recentErrors
      then (FoundErrors recentErrors, w)
      else failed TypeError     (* a field of null, or one without text *)
  | Return (JStr errors) =>
      let recentErrors := slice (- count) errors in
      if (List.length recentErrors =? 0)%nat then (NoErrorsFound, w)
      else failed TypeError                (* a string has no map *)
  | Return _ => failed TypeError              (* no slice to call *)
  end.

Inductive ClearDslErrorsReply :=
| ClearedSuccessfully                 (* DSL error log cleared successfully *)
| FailedToClear (e : js_error).       (* Failed to clear DSL error log: ... *)

Definition clearDslErrors (w : world) : ClearDslErrorsReply * world :=
  match writeFileSync (JArr []) w with
  | Return w' => (ClearedSuccessfully, w')
  | Throw e =>
      (FailedToClear e, consoleError (lit "Error clearing DSL log:") e w)
  end.

(** The reply of [fixDslError] is its text. *)
Definition fixDslError (line : Z) (fix_ : js_string) (w : world)
  : js_string * world :=
  (lit "Suggested fix for line " ++ numberToString line ++ lit ": " ++ fix_
     ++ [NEWLINE; NEWLINE]
     ++ lit "Note: This is a suggestion only. To apply the fix, you should edit the workspace.dsl file manually.",
   w).

(** ** Vocabulary of the properties and sample inputs *)

(** [Matches r c caps caps']: the pattern [r] can consume the text [c],
    turning the captures [caps] into [caps']. *)
Inductive Matches : regex -> js_string -> captures -> captures -> Prop :=
| MStr p caps :
    Matches (Str p) p caps caps
| MStar cc greedy c caps :
    forallb (class_matches cc) c = true ->
    Matches (Star cc greedy) c caps caps
| MPlus cc greedy c caps :
    c <> [] ->
    forallb (class_matches cc) c = true ->
    Matches (Plus cc greedy) c caps caps
| MGroup n r c caps caps' :
    Matches r c caps caps' ->
    Matches (Group n r) c caps ((n, c) :: caps')
| MSeq r1 r2 c1 c2 caps caps1 caps2 :
    Matches r1 c1 caps caps1 ->
    Matches r2 c2 caps1 caps2 ->
    Matches (Seq r1 r2) (c1 ++ c2) caps caps2.

Definition notLineTerminator (c : code_unit) : bool := negb (isLineTerminator c).
Definition notColon (c : code_unit) : bool := negb (c =? COLON)%N.

(** The text [s] holds, somewhere, the expected shape with the parts
    [m], [n], [f] and [c]: a message without line terminator, a
    non-empty run of digits, a non-empty path without colon, and a
    context without line terminator. *)
Definition hasShape (s m n f c : js_string) : Prop :=
  (exists pre post,
      s = pre ++ lit "workspace.dsl: " ++ m ++ lit " at line " ++ n
              ++ lit " of " ++ f ++ [COLON] ++ c ++ post)
  /\ forallb notLineTerminator m = true
  /\ n <> [] /\ forallb isDigit n = true
  /\ f <> [] /\ forallb notColon f = true
  /\ forallb notLineTerminator c = true.

Definition dslCaptures (m n f c : js_string) : captures :=
  [(4%nat, c); (3%nat, f); (2%nat, n); (1%nat, m)].

(** The record built from the four captures. *)
Definition parsedError (now m n f c : js_string) : DslError := {|
  timestamp := now;
  type := lit "DSL";
  message := trim m;
  filename := trim f;
  line := parseInt10 n;
  column := 1;
  context := trim c;
  suggestion := getSuggestionForError (trim m) (trim c)
|}.

Definition started (errorText : js_string) (w : world) : world :=
  consoleLog (lit "Processing DSL error:") (Some errorText) w.

(** A world with no log file yet, a writable disk and a silent console. *)
Definition freshWorld : world := mkWorld Missing true None [].

Definition sampleNow : js_string := lit "2025-01-01T00:00:00.000Z".

(** The error text of the self-test at the end of the server script. *)
Definition dynamicViewErrorText : js_string :=
  lit "workspace.dsl: Unexpected tokens (expected: include, exclude, autolayout, default, animation, title, description, properties) at line 776 of /usr/local/structurizr/workspace.dsl: dynamic "
  ++ [QUOTE] ++ lit "ErrorHandlingFlow" ++ [QUOTE] ++ lit " {".

Definition lineZeroErrorText : js_string :=
  lit "workspace.dsl: x at line 0 of f:c".

Definition hugeLineErrorText : js_string :=
  lit "workspace.dsl: x at line 9007199254740993 of f:c".

Definition windowsPathErrorText : js_string :=
  lit "workspace.dsl: x at line 5 of C:\ws\workspace.dsl: model {".


(** Three sample appends, one after the other, on a fresh world. *)
Definition relationshipErrorText : js_string :=
  lit "workspace.dsl: Unknown relationship at line 12 of /usr/local/structurizr/workspace.dsl: a -> b".

Definition afterFirst : outcome (option DslError) * world :=
  processDslError dynamicViewErrorText sampleNow freshWorld.
Definition afterSecond : outcome (option DslError) * world :=
  processDslError relationshipErrorText sampleNow (snd afterFirst).

Definition firstError : DslError :=
  parsedError sampleNow
    (lit "Unexpected tokens (expected: include, exclude, autolayout, default, animation, title, description, properties)")
    (lit "776") (lit "/usr/local/structurizr/workspace.dsl")
    (lit " dynamic " ++ [QUOTE] ++ lit "ErrorHandlingFlow" ++ [QUOTE] ++ lit " {").
Definition secondError : DslError :=
  parsedError sampleNow (lit "Unknown relationship") (lit "12")
    (lit "/usr/local/structurizr/workspace.dsl") (lit " a -> b").
Definition thirdError : DslError :=
  parsedError sampleNow (lit "x") (lit "0") (lit "f") (lit "c").

(** A world whose log file holds text that is not JSON. *)
Definition garbageWorld : world := mkWorld Garbage true None [].

Definition sampleLog : world :=
  mkWorld (Json (JArr (map logEntry [firstError; secondError; thirdError])))
          true None [].

(** ** The processDslError tool, the console listener and the start-up *)

(** The text content of a [processDslError] tool reply, by its three
    shapes. *)
Inductive ProcessDslErrorReply :=
| ProcessedSuccessfully (dslError : DslError)  (* DSL error processed successfully: ... *)
| FailedToParse                                (* Failed to parse DSL error format. ... *)
| FailedToProcess (e : js_error).              (* Failed to process DSL error: ... *)

(** The handler of the [processDslError] tool: the call sits in a
    try block whose catch logs the error and replies with it. *)
Definition processDslErrorTool (errorText now : js_string) (w : world)
  : ProcessDslErrorReply * world :=
  match processDslError errorText now w with
  | (Return (Some dslError), w') => (ProcessedSuccessfully dslError, w')
  | (Return None, w') => (FailedToParse, w')
  | (Throw e, w') =>
      (FailedToProcess e, consoleError (lit "Error processing DSL error:") e w')
  end.

(** The listener put on the page console: an error message that
    mentions workspace.dsl is handed to [processDslError], whose result
    is dropped; nothing catches what it throws. *)
Definition onConsoleMessage (type text now : js_string) (w : world)
  : outcome unit * world :=
  if strictEquals type (lit "error") && includes text (lit "workspace.dsl")
  then
    match processDslError text now w with
    | (Return _, w') => (Return tt, w')
    | (Throw e, w') => (Throw e, w')
    end
  else (Return tt, w).

(** The start-up of the server: a log file that does not exist is
    created holding the empty array. *)
Definition initDslLogFile (w : world) : outcome world :=
  if negb (existsSync w) then writeFileSync (JArr []) w else Return w.

(** A world whose log holds a JSON string. *)
Definition textLog : world :=
  mkWorld (Json (JStr (lit "ab"))) true None [].

(** A text that neither starts nor ends with white space. *)
Definition trimmed (s : js_string) : Prop :=
  (forall c rest, s = c :: rest -> isWhiteSpace c = false)
  /\ (forall init c, s = init ++ [c] -> isWhiteSpace c = false).

(** ** The launcher's command line *)

Record LauncherOptions := mkLauncherOptions {
  structurizrPort : number;
  autoConnect : bool
}.

(** How the argument loop ends: with the options read, or in the help
    text and [process.exit(0)]. *)
Inductive LauncherStart :=
| Launch (options : LauncherOptions)
| HelpAndExit.

(** The loop over [args]: [--port] takes the next argument, when there
    is one, as its value and steps over it. *)
Fixpoint parseArgs (args : list js_string) (structurizrPort : number)
         (autoConnect : bool) : LauncherStart :=
  match args with
  | [] => Launch (mkLauncherOptions structurizrPort autoConnect)
  | arg :: rest =>
      match strictEquals arg (lit "--port"), rest with
      | true, value :: rest' => parseArgs rest' (parseInt10 value) autoConnect
      | _, _ =>
          if strictEquals arg (lit "--auto-connect")
          then parseArgs rest structurizrPort true
          else if strictEquals arg (lit "--help")
          then HelpAndExit
          else parseArgs rest structurizrPort autoConnect
      end
  end.

(** The launcher on [process.argv.slice(2)], from its defaults. *)
Definition launcherOptions (args : list js_string) : LauncherStart :=
  parseArgs args (Int 8080) false.

(** An argument that is neither [--port] nor [--help]. *)
Definition plainArgument (arg : js_string) : bool :=
  negb (strictEquals arg (lit "--port"))
  && negb (strictEquals arg (lit "--help")).

(** ** The tools of the streaming server

    The server for browser errors carries its own tools on the DSL log:
    they test that the file exists first, and the count is any
    number (here: any integer). *)
Module Streaming.

Inductive GetDslErrorsReply :=
| Errors (errors : json)      (* { errors: ... } *)
| Failed (e : js_error).      (* { error: Failed to retrieve DSL errors: ... } *)

Definition getDslErrors (count : Z) (w : world) : GetDslErrorsReply * world :=
  let failed e :=
    (Failed e, consoleError (lit "Error retrieving DSL errors:") e w) in
  if negb (existsSync w) then (Errors (JArr []), w)
  else
    match readJson w with
    | Throw e => failed e
    | Return (JArr errors) => (Errors (JArr (slice (- count) errors)), w)
    | Return (JStr errors) => (Errors (JStr (slice (- count) errors)), w)
    | Return _ => failed TypeError         (* no slice to call *)
    end.

Inductive ClearDslErrorsReply :=
| Cleared                     (* { message: DSL error log cleared } *)
| FailedToClear (e : js_error).

Definition clearDslErrors (w : world) : ClearDslErrorsReply * world :=
  if existsSync w then
    match writeFileSync (JArr []) w with
    | Return w' => (Cleared, w')
    | Throw e =>
        (FailedToClear e, consoleError (lit "Error clearing DSL log:") e w)
    end
  else (Cleared, w).

End Streaming.

Definition isAutoConnect (arg : js_string) : bool :=
  strictEquals arg (lit "--auto-connect").

(** ** The simplified server

    The lightweight server reads an error text with three separate
    patterns and appends inside one try block. *)

(** [s.match(r)] for a pattern [r] followed by the anchor [$], without
    flags: the match has to reach the end of the text. *)
Fixpoint regexMatchToEnd (r : regex) (s : js_string) : option captures :=
  match run r s []
            (fun _ rest caps => match rest with [] => Some caps | _ => None end)
  with
  | Some caps => Some caps
  | None =>
      match s with
      | [] => None
      | _ :: s' => regexMatchToEnd r s'
      end
  end.

Definition LPAREN : code_unit := 40%N.   (* the opening parenthesis *)

Module Simplified.

(** The pattern of [lineMatch]: the text [at line ], group 1 [\d+], the
    text [ of ], group 2 [[^:]+], a colon. *)
Definition lineMatchPattern : regex :=
  Seq (Str (lit "at line "))
 (Seq (Group 1 (Plus Digit true))
 (Seq (Str (lit " of "))
 (Seq (Group 2 (Plus (NoneOf [COLON]) true))
      (Str [COLON])))).

(** The pattern of [contextMatch], which the anchor [$] follows: a
    colon and a space, group 1 [[^:]+]. *)
Definition contextMatchPattern : regex :=
  Seq (Str (lit ": ")) (Group 1 (Plus (NoneOf [COLON]) true)).

(** The pattern of [messageMatch]: the text [workspace\.dsl: ], group 1
    made of one or more code units other than the opening
    parenthesis. *)
Definition messageMatchPattern : regex :=
  Seq (Str (lit "workspace.dsl: ")) (Group 1 (Plus (NoneOf [LPAREN]) true)).

(** The error object, which is the log entry itself. *)
Record DslErrorEntry := mkDslErrorEntry {
  message : js_string;
  file : js_string;
  line : number;
  context : js_string;
  timestamp : js_string
}.

Definition entryJson (error : DslErrorEntry) : json :=
  JObj [
    (lit "source", JStr (lit "Structurizr DSL"));
    (lit "severity", JStr (lit "Error"));
    (lit "message", JStr (message error));
    (lit "file", JStr (file error));
    (lit "line", numberJson (line error));
    (lit "column", JNum 1);
    (lit "code", JStr (lit "dsl-syntax"));
    (lit "relatedInformation", JArr [
      JObj [
        (lit "message", JStr (lit "Context: " ++ context error));
        (lit "file", JStr (file error));
        (lit "line", numberJson (line error));
        (lit "column", JNum 1)
      ]
    ]);
    (lit "suggestion", suggestionJson dynamicViewSuggestion);
    (lit "timestamp", JStr (timestamp error))
  ].

(** Function to process DSL errors.  Everything after the first log
    line runs in a try block whose catch logs the error and returns
    null. *)
Definition processDslError (errorText now : js_string) (w : world)
  : option DslErrorEntry * world :=
  let w := consoleLog (lit "Processing DSL error: " ++ errorText) None w in
  let caught e :=
    (None, consoleError (lit "Error processing DSL error:") e w) in
  match regexMatch lineMatchPattern errorText,
        regexMatchToEnd contextMatchPattern errorText,
        regexMatch messageMatchPattern errorText with
  | Some lineMatch, Some contextMatch, Some messageMatch =>
      match capture 1 lineMatch, capture 2 lineMatch,
            capture 1 contextMatch, capture 1 messageMatch with
      | Some lineText, Some file, Some contextText, Some messageText =>
          let error := {|
            message := trim messageText;
            file := file;
            line := parseInt10 lineText;
            context := trim contextText;
            timestamp := now
          |} in
          match readJson w with
          | Throw e => caught e
          | Return (JArr errors) =>
              match writeFileSync (JArr (errors ++ [entryJson error])) w with
              | Throw e => caught e
              | Return w' =>
                  (Some error,
                   consoleLog (lit "DSL error processed and saved") None w')
              end
          | Return _ => caught TypeError      (* no push to call *)
          end
      | _, _, _, _ => caught TypeError        (* a capture left undefined *)
      end
  | _, _, _ =>
      (None,
       consoleLog (lit "Could not parse error message. Invalid format.") None w)
  end.

End Simplified.

Definition notParen (c : code_unit) : bool := negb (c =? LPAREN)%N.

(** The three shapes the simplified server looks for in a text [s]:
    a line clause with digits [n] and a colon-free path [f]; a closing
    context [c], colon-free, after the last [: ]; a message [m] free of
    the opening parenthesis after [workspace.dsl: ]. *)
Definition hasLineClause (s n f : js_string) : Prop :=
  (exists pre post,
      s = pre ++ lit "at line " ++ n ++ lit " of " ++ f ++ [COLON] ++ post)
  /\ n <> [] /\ forallb isDigit n = true
  /\ f <> [] /\ forallb notColon f = true.

Definition hasClosingContext (s c : js_string) : Prop :=
  (exists pre, s = pre ++ lit ": " ++ c)
  /\ c <> [] /\ forallb notColon c = true.

Definition hasMessageClause (s m : js_string) : Prop :=
  (exists pre post, s = pre ++ lit "workspace.dsl: " ++ m ++ post)
  /\ m <> [] /\ forallb notParen m = true.

(** A log that holds one earlier entry, for the simplified server. *)
Definition simplifiedSample : option Simplified.DslErrorEntry * world :=
  Simplified.processDslError dynamicViewErrorText sampleNow
    (mkWorld (Json (JArr [JStr (lit "earlier")])) true None []).

(** ** The log of browser errors

    The streaming server keeps a second log, a text file to which each
    error is appended as a few lines followed by an empty line, and
    reads it back by splitting on empty lines. *)

(** [s.split(separator)] for a separator that is not empty: the pieces
    between the occurrences of the separator, found from the left and
    not overlapping.  [skip] counts the code units of an occurrence
    still to step over. *)
Fixpoint splitAux (separator s : js_string) (skip : nat) (current : js_string)
  : list js_string :=
  match s with
  | [] => [current]
  | c :: s' =>
      match skip with
      | S k => splitAux separator s' k current
      | O =>
          if startsWith separator s
          then current :: splitAux separator s' (List.length separator - 1) []
          else splitAux separator s' 0 (current ++ [c])
      end
  end.

Definition split (s separator : js_string) : list js_string :=
  splitAux separator s 0 [].

(** [parts.join(separator)] on an array of strings. *)
Fixpoint join (parts : list js_string) (separator : js_string) : js_string :=
  match parts with
  | [] => []
  | [p] => p
  | p :: rest => p ++ separator ++ join rest separator
  end.

Module BrowserLog.

(** The file browser-errors.log: absent, failing to read, or a text. *)
Inductive text_file :=
| NoFile
| NoRead
| Text (content : js_string).

Record RecentError := mkRecentError {
  timestamp : js_string;
  message : js_string
}.

Inductive GetRecentErrorsReply :=
| Errors (errors : list RecentError)   (* { errors } *)
| Failed (e : js_error).               (* { error: Failed to retrieve errors: ... } *)

(** The body of the map: the first line is the timestamp, the other
    lines, joined again, are the message. *)
Definition parseEntry (entry : js_string) : RecentError :=
  match split entry [NEWLINE] with
  | timestamp :: errorLines => mkRecentError timestamp (join errorLines [NEWLINE])
  | [] => mkRecentError [] []          (* never: split gives at least one piece *)
  end.

(** [entry.trim()] as a condition: true unless nothing is left. *)
Definition notBlank (entry : js_string) : bool :=
  match trim entry with
  | [] => false
  | _ :: _ => true
  end.

Definition getRecentErrors (count : Z) (logFile : text_file)
           (console : list console_line)
  : GetRecentErrorsReply * list console_line :=
  match logFile with
  | NoFile => (Errors [], console)
  | NoRead =>
      (Failed SystemError,
       console ++ [Error (lit "Error retrieving errors:") SystemError])
  | Text content =>
      (Errors (slice (- count)
                 (map parseEntry
                    (filter notBlank (split content [NEWLINE; NEWLINE])))),
       console)
  end.

End BrowserLog.

Definition notNewline (c : code_unit) : bool := negb (c =? NEWLINE)%N.

(** An entry as the writers of the log shape it: no empty line inside
    and no newline at its end, that is, every newline is followed by a
    code unit that is not a newline. *)
Fixpoint entryText (entry : js_string) : bool :=
  match entry with
  | [] => true
  | c :: rest =>
      if (c =? NEWLINE)%N then
        match rest with
        | [] => false
        | d :: _ => negb (d =? NEWLINE)%N && entryText rest
        end
      else entryText rest
  end.

(** The text of an entry with the header line [timestamp] and the
    further lines [message]. *)
Definition entryOf (error : BrowserLog.RecentError) : js_string :=
  match BrowserLog.message error with
  | [] => BrowserLog.timestamp error
  | _ :: _ =>
      BrowserLog.timestamp error ++ [NEWLINE] ++ BrowserLog.message error
  end.

(** The log after the entries were appended, each followed by an empty
    line. *)
Definition logText (entries : list js_string) : js_string :=
  concat (map (fun entry => entry ++ [NEWLINE; NEWLINE]) entries).

(** Two appended browser errors, the second of one line only. *)
Definition sampleBrowserErrors : list BrowserLog.RecentError :=
  [BrowserLog.mkRecentError
     (lit "[2025-01-01T00:00:00.000Z] [CONSOLE] [http://localhost:8080]")
     (lit "Message: boom" ++ [NEWLINE] ++ lit "URL: http://localhost:8080/x");
   BrowserLog.mkRecentError
     (lit "[2025-01-01T00:00:01.000Z] [PAGE] [unknown]") []].

(** ** The script that shows the log

    The script prints the latest error of the log, saves it to a file,
    and lists the recent unique errors: it walks the parsed log from
    its end, keeps the errors whose key was not seen before, and stops
    after three.  All of it runs in one try block. *)
Module ShowErrors.

Definition bind {A B : Type} (x : outcome A) (f : A -> outcome B) : outcome B :=
  match x with
  | Return a => f a
  | Throw e => Throw e
  end.

(** The value of a key in a parsed object; of two equal keys the later
    one counts. *)
Fixpoint lookup (name : js_string) (fields : list (js_string * json))
  : option json :=
  match fields with
  | [] => None
  | (key, value) :: rest =>
      match lookup name rest with
      | Some later => Some later
      | None => if strictEquals key name then Some value else None
      end
  end.

(** [value.name], for the names the script reads, none of which a
    prototype defines: reading from undefined or null throws, an
    object gives what it holds, any other value gives undefined
    ([None]). *)
Definition getProperty (value : option json) (name : js_string)
  : outcome (option json) :=
  match value with
  | None => Throw TypeError
  | Some JNull => Throw TypeError
  | Some (JObj fields) => Return (lookup name fields)
  | Some _ => Return None
  end.

(** [value[0]]. *)
Definition first (value : option json) : outcome (option json) :=
  match value with
  | None => Throw TypeError
  | Some JNull => Throw TypeError
  | Some (JArr items) => Return (hd_error items)
  | Some (JStr s) =>
      Return (match s with [] => None | c :: _ => Some (JStr [c]) end)
  | Some (JObj fields) => Return (lookup (lit "0") fields)
  | Some _ => Return None
  end.

(** The text of a parsed value in a template literal.  An array is its
    elements joined by commas, null elements giving nothing; an object
    is [[object Object]], unless it holds a key [toString], which
    cannot be called. *)
Fixpoint toText (v : json) : outcome js_string :=
  match v with
  | JNull => Return (lit "null")
  | JBool true => Return (lit "true")
  | JBool false => Return (lit "false")
  | JNum z => Return (numberToString z)
  | JStr s => Return s
  | JArr items =>
      (fix joined (items : list json) : outcome js_string :=
         match items with
         | [] => Return []
         | item :: rest =>
             bind (match item with JNull => Return [] | _ => toText item end)
                  (fun text =>
                     match rest with
                     | [] => Return text
                     | _ :: _ =>
                         bind (joined rest)
                              (fun texts => Return (text ++ lit "," ++ texts))
                     end)
         end) items
  | JObj fields =>
      match lookup (lit "toString") fields with
      | Some _ => Throw TypeError
      | None => Return (lit "[object Object]")
      end
  end.

Definition templateText (value : option json) : outcome js_string :=
  match value with
  | None => Return (lit "undefined")
  | Some v => toText v
  end.

(** The texts of [error.file], [error.line] and [error.message]. *)
Definition fieldTexts (error : json)
  : outcome (js_string * js_string * js_string) :=
  bind (getProperty (Some error) (lit "file")) (fun file =>
  bind (templateText file) (fun fileText =>
  bind (getProperty (Some error) (lit "line")) (fun line =>
  bind (templateText line) (fun lineText =>
  bind (getProperty (Some error) (lit "message")) (fun message =>
  bind (templateText message) (fun messageText =>
  Return (fileText, lineText, messageText))))))).

Definition errorKey (error : json) : outcome js_string :=
  bind (fieldTexts error) (fun '(fileText, lineText, messageText) =>
  Return (fileText ++ [COLON] ++ lineText ++ [COLON] ++ messageText)).

(** The text of [error.relatedInformation[0].message]. *)
Definition contextText (error : json) : outcome js_string :=
  bind (getProperty (Some error) (lit "relatedInformation")) (fun related =>
  bind (first related) (fun information =>
  bind (getProperty information (lit "message")) templateText)).

(** How the loop ends: at its end, or in the catch of the script, with
    the errors kept and the lines printed until then. *)
Inductive Shown :=
| Finished (uniqueErrors : list json) (printed : list js_string)
| Aborted (e : js_error) (uniqueErrors : list json) (printed : list js_string).

(** The loop, on the errors still to visit, newest first. *)
Fixpoint visit (errors : list json) (uniqueErrors : list json)
         (seenLines : list js_string) (printed : list js_string) : Shown :=
  match errors with
  | [] => Finished uniqueErrors printed
  | error :: older =>
      if (List.length uniqueErrors <? 3)%nat then
        match fieldTexts error with
        | Throw e => Aborted e uniqueErrors printed
        | Return (fileText, lineText, messageText) =>
            let errorKey :=
              fileText ++ [COLON] ++ lineText ++ [COLON] ++ messageText in
            if existsb (strictEquals errorKey) seenLines
            then visit older uniqueErrors seenLines printed
            else
              let printed :=
                printed
                  ++ [[NEWLINE] ++ lit "--- Error at " ++ fileText ++ [COLON]
                        ++ lineText ++ lit " ---";
                      lit "Message: " ++ messageText] in
              match contextText error with
              | Throw e => Aborted e (uniqueErrors ++ [error]) printed
              | Return context =>
                  visit older (uniqueErrors ++ [error])
                        (errorKey :: seenLines)
                        (printed ++ [lit "Context: " ++ context])
              end
        end
      else Finished uniqueErrors printed
  end.

(** The lines the script prints for the latest error, each a template
    that may throw. *)
Definition latestTemplates (latestError : json) : list (outcome js_string) :=
  let field (label name : js_string) :=
    bind (getProperty (Some latestError) name) (fun value =>
    bind (templateText value) (fun text => Return (label ++ text))) in
  let advice (label name : js_string) :=
    bind (getProperty (Some latestError) (lit "suggestion")) (fun suggestion =>
    bind (getProperty suggestion name) (fun value =>
    bind (templateText value) (fun text => Return (label ++ text)))) in
  [field (lit "Error: ") (lit "message");
   field (lit "File: ") (lit "file");
   bind (field (lit "Line: ") (lit "line")) (fun text =>
     field (text ++ lit ", Column: ") (lit "column"));
   bind (contextText latestError) (fun text => Return (lit "Context: " ++ text));
   advice (lit "Issue: ") (lit "issue");
   advice (lit "Suggested Fix: ") (lit "fix");
   field (lit "Timestamp: ") (lit "timestamp")].

(** Printing lines one after the other: the lines printed, and the
    error of the first template that throws, if one does. *)
Fixpoint printAll (templates : list (outcome js_string))
  : list js_string * option js_error :=
  match templates with
  | [] => ([], None)
  | Throw e :: _ => ([], Some e)
  | Return line :: rest =>
      let '(lines, failure) := printAll rest in (line :: lines, failure)
  end.

(** How the script ends on a log that holds an array: with no error to
    show (exit code 0); in its catch, with the error on the console
    (exit code 1); or at its end, [saved] being what the output file
    holds then. *)
Inductive Result :=
| NoErrors
| Caught (e : js_error) (printed : list js_string)
| Listed (printed : list js_string) (saved : json) (uniqueErrors : list json).

(** The try block of the script, from the test for an empty log on, on
    a log that holds the array [errors]; [canSave] tells whether the
    output file can be written. *)
Definition script (errors : list json) (canSave : bool) : Result :=
  match rev errors with
  | [] => NoErrors
  | latestError :: _ =>
      let '(lines, failure) := printAll (latestTemplates latestError) in
      let printed :=
        ([NEWLINE] ++ lit "=== Latest Structurizr DSL Error ===") :: lines in
      match failure with
      | Some e => Caught e printed
      | None =>
          if canSave then
            let printed :=
              printed
                ++ [[NEWLINE] ++ lit "Error details saved to /tmp/dsl-error.json for easy access";
                    lit "To copy to clipboard: cat /tmp/dsl-error.json | xclip -selection clipboard";
                    [NEWLINE] ++ lit "=== Recent Unique Errors ==="] in
            match visit (rev errors) [] [] printed with
            | Finished uniqueErrors printed =>
                Listed printed latestError uniqueErrors
            | Aborted e _ printed => Caught e printed
            end
          else Caught SystemError printed
      end
  end.

End ShowErrors.

(** The errors of a list, each with its key, that are the first with
    their key, given the keys seen already. *)
Fixpoint firstOccurrences (keyed : list (json * js_string))
         (seen : list js_string) : list (json * js_string) :=
  match keyed with
  | [] => []
  | (error, key) :: older =>
      if existsb (strictEquals key) seen
      then firstOccurrences older seen
      else (error, key) :: firstOccurrences older (key :: seen)
  end.

(** An error whose key and context the script can put into text. *)
Definition showable (keyedError : json * js_string) : Prop :=
  ShowErrors.errorKey (fst keyedError) = Return (snd keyedError)
  /\ exists context, ShowErrors.contextText (fst keyedError) = Return context.

(** A latest error all of whose lines the script can print. *)
Definition presentable (latestError : json) : Prop :=
  snd (ShowErrors.printAll (ShowErrors.latestTemplates latestError)) = None.

(** A parsed value whose numbers are integers up to 2^53 in magnitude,
    which print as their digits. *)
Fixpoint safeNumbers (v : json) : bool :=
  match v with
  | JNum z => Z.abs z <=? 2 ^ 53
  | JArr items =>
      (fix all (items : list json) : bool :=
         match items with
         | [] => true
         | item :: rest => safeNumbers item && all rest
         end) items
  | JObj fields =>
      (fix all (fields : list (js_string * json)) : bool :=
         match fields with
         | [] => true
         | (_, value) :: rest => safeNumbers value && all rest
         end) fields
  | _ => true
  end.

(** The text of the line of a log entry in a key. *)
Definition lineKeyText (n : number) : js_string :=
  match numberJson n with
  | JNum z => numberToString z
  | _ => lit "null"
  end.

(** ** Capturing browser errors

    The streaming server listens to the pages it is connected to and
    appends every error it sees to browser-errors.log with [logError];
    [getRecentErrors] reads that file back. *)

Definition REPLACEMENT : code_unit := 65533%N.   (* U+FFFD *)

(** A string after it was written to a file, which is UTF-8, and
    read back: a surrogate that is not half of a pair has become
    U+FFFD. *)
Fixpoint toWellFormed (s : js_string) : js_string :=
  match s with
  | [] => []
  | c :: s' =>
      if isHighSurrogate c then
        match s' with
        | d :: s'' =>
            if isLowSurrogate d then c :: d :: toWellFormed s''
            else REPLACEMENT :: toWellFormed s'
        | [] => [REPLACEMENT]
        end
      else if isLowSurrogate c then REPLACEMENT :: toWellFormed s'
      else c :: toWellFormed s'
  end.

Module Capture.

(** The [type] the listeners give to an error. *)
Inductive ErrorType :=
| ConsoleType       (* 'console' *)
| ExceptionType     (* 'exception' *)
| NetworkType       (* 'network' *)
| PageType.         (* 'page' *)

Definition typeText (t : ErrorType) : js_string :=
  match t with
  | ConsoleType => lit "console"
  | ExceptionType => lit "exception"
  | NetworkType => lit "network"
  | PageType => lit "page"
  end.

(** [s.toUpperCase()] on ASCII text, which the four types are. *)
Definition toUpperCase (s : js_string) : js_string :=
  map (fun c => if ((97 <=? c) && (c <=? 122))%N then (c - 32)%N else c) s.

(** The fields of an error that [logError] reads; [None] is a field
    that is undefined. *)
Record BrowserError := mkBrowserError {
  type : ErrorType;
  message : option js_string;
  url : option js_string;
  line : option Z;
  column : option Z;
  stack : option js_string
}.

Inductive console_entry :=
| Captured (timestamp connectionId url : js_string) (error : BrowserError)
                                        (* console.log('Error captured:', {...}) *)
| Logged (text : js_string)             (* console.log(text) *)
| Failure (text : js_string) (e : js_error).   (* console.error(text, err) *)

(** The state [logError] acts on: the flag set by the toggle tool, the
    url of each connection by its id, the file browser-errors.log,
    whether writing it succeeds, and the console output so far. *)
Record state := mkState {
  globalErrorStreamingEnabled : bool;
  connections : list (js_string * js_string);
  logFile : BrowserLog.text_file;
  canWrite : bool;
  console : list console_entry
}.

(** [connections.get(connectionId)?.url]. *)
Fixpoint get (connections : list (js_string * js_string))
         (connectionId : js_string) : option js_string :=
  match connections with
  | [] => None
  | (id, connectionUrl) :: rest =>
      if strictEquals id connectionId then Some connectionUrl
      else get rest connectionId
  end.

(** A string field as a condition, and inside a template literal. *)
Definition truthy (v : option js_string) : bool :=
  match v with
  | Some (_ :: _) => true
  | _ => false
  end.

Definition text (v : option js_string) : js_string :=
  match v with
  | Some s => s
  | None => lit "undefined"
  end.

(** A number field as a condition, and inside a template literal. *)
Definition nonZero (v : option Z) : bool :=
  match v with
  | Some z => negb (z =? 0)
  | None => false
  end.

Definition numberText (v : option Z) : js_string :=
  match v with
  | Some z => numberToString z
  | None => lit "undefined"
  end.

(** [connection?.url || 'unknown']. *)
Definition urlOf (connections : list (js_string * js_string))
           (connectionId : js_string) : js_string :=
  match get connections connectionId with
  | Some (c :: rest) => c :: rest
  | _ => lit "unknown"
  end.

(** The text built up in [formattedError]. *)
Definition formatError (timestamp connectionUrl : js_string)
           (error : BrowserError) : js_string :=
  let formattedError :=
    lit "[" ++ timestamp ++ lit "] [" ++ toUpperCase (typeText (type error))
      ++ lit "] [" ++ connectionUrl ++ lit "]" ++ [NEWLINE] in
  let formattedError :=
    if truthy (message error)
    then formattedError ++ lit "Message: " ++ text (message error) ++ [NEWLINE]
    else formattedError in
  let formattedError :=
    if truthy (url error)
    then formattedError ++ lit "URL: " ++ text (url error) ++ [NEWLINE]
    else formattedError in
  let formattedError :=
    if nonZero (line error)
    then formattedError ++ lit "Location: Line " ++ numberText (line error)
           ++ lit ", Column " ++ numberText (column error) ++ [NEWLINE]
    else formattedError in
  if truthy (stack error)
  then formattedError ++ lit "Stack Trace:" ++ [NEWLINE]
         ++ text (stack error) ++ [NEWLINE]
  else formattedError.

(** [fs.appendFileSync(logFile, data)]: creates the file when there is
    none; a file that cannot be read stays so.  The text of the file
    is what reading it gives, so the data arrives as UTF-8 leaves it;
    it starts with an ASCII bracket and is read apart from what was in
    the file.  A write that throws stands for one refused when the
    file is opened. *)
Definition appendFileSync (data : js_string) (s : state)
  : outcome BrowserLog.text_file :=
  if canWrite s then
    Return match logFile s with
           | BrowserLog.NoFile => BrowserLog.Text (toWellFormed data)
           | BrowserLog.NoRead => BrowserLog.NoRead
           | BrowserLog.Text content =>
               BrowserLog.Text (content ++ toWellFormed data)
           end
  else Throw SystemError.

(** [fs.writeFileSync(logFile, data, 'utf-8')]: replaces what the file
    holds; a file that cannot be read stays so. *)
Definition writeFileSync (data : js_string) (s : state)
  : outcome BrowserLog.text_file :=
  if canWrite s then
    Return match logFile s with
           | BrowserLog.NoRead => BrowserLog.NoRead
           | _ => BrowserLog.Text (toWellFormed data)
           end
  else Throw SystemError.

(** Log an error to the file.  [now] is the text that
    [new Date().toISOString()] gives at the call. *)
Definition logError (connectionId : js_string) (error : BrowserError)
           (now : js_string) (s : state) : state :=
  if negb (globalErrorStreamingEnabled s) then s
  else
    let timestamp := now in
    let connectionUrl := urlOf (connections s) connectionId in
    let formattedError := formatError timestamp connectionUrl error in
    match appendFileSync (formattedError ++ [NEWLINE]) s with
    | Return file =>
        mkState (globalErrorStreamingEnabled s) (connections s) file
                (canWrite s)
                (console s
                   ++ [Captured timestamp connectionId connectionUrl error;
                       Logged (lit "Error logged from " ++ connectionUrl
                                 ++ lit ": " ++ text (message error))])
    | Throw e =>
        mkState (globalErrorStreamingEnabled s) (connections s) (logFile s)
                (canWrite s)
                (console s
                   ++ [Failure (lit "Error processing browser error:") e])
    end.

Inductive ClearErrorsReply :=
| Cleared                         (* { message: Error log cleared } *)
| FailedToClear (e : js_error).   (* { error: Failed to clear error log: ... } *)

(** The tool that clears the log: an existing file is emptied. *)
Definition clearErrors (s : state) : ClearErrorsReply * state :=
  match logFile s with
  | BrowserLog.NoFile => (Cleared, s)
  | _ =>
      match writeFileSync [] s with
      | Return file =>
          (Cleared,
           mkState (globalErrorStreamingEnabled s) (connections s)
                   file (canWrite s) (console s))
      | Throw e =>
          (FailedToClear e,
           mkState (globalErrorStreamingEnabled s) (connections s)
                   (logFile s) (canWrite s)
                   (console s ++ [Failure (lit "Error clearing log:") e]))
      end
  end.

End Capture.

(** The extractor of the streaming server.  Its record carries the
    full text in place of the suggestion, which is computed when the
    entry is pushed on the log. *)
Module StreamingDsl.

Record DslError := mkDslError {
  timestamp : js_string;
  type : js_string;
  message : js_string;
  filename : js_string;
  line : number;
  column : Z;
  context : js_string;
  fullError : js_string
}.

Definition logEntry (dslError : DslError) : json :=
  JObj [
    (lit "source", JStr (lit "Structurizr DSL"));
    (lit "severity", JStr (lit "Error"));
    (lit "message", JStr (message dslError));
    (lit "file", JStr (filename dslError));
    (lit "line", numberJson (line dslError));
    (lit "column", JNum (column dslError));
    (lit "code", JStr (lit "dsl-syntax"));
    (lit "relatedInformation", JArr [
      JObj [
        (lit "message", JStr (lit "Context: " ++ context dslError));
        (lit "file", JStr (filename dslError));
        (lit "line", numberJson (line dslError));
        (lit "column", JNum (column dslError))
      ]
    ]);
    (lit "suggestion",
     suggestionJson
       (getSuggestionForError (message dslError) (context dslError)));
    (lit "timestamp", JStr (timestamp dslError))
  ].

Definition processDslError (errorText now : js_string) (w : world)
  : outcome (option DslError) * world :=
  let w :=
    consoleLog (lit "Processing Structurizr DSL error:") (Some errorText) w in
  match regexMatch dslErrorPattern errorText with
  | Some caps =>
      match capture 1 caps, capture 2 caps, capture 3 caps, capture 4 caps with
      | Some errorMessage, Some lineNumber, Some filePath, Some errorContext =>
          let dslError := {|
            timestamp := now;
            type := lit "DSL";
            message := trim errorMessage;
            filename := trim filePath;
            line := parseInt10 lineNumber;
            column := 1;
            context := trim errorContext;
            fullError := errorText
          |} in
          let '(dslErrors, w) := existingErrors w in
          let dslErrors := dslErrors ++ [logEntry dslError] in
          match writeFileSync (JArr dslErrors) w with
          | Throw e => (Throw e, w)
          | Return w =>
              (Return (Some dslError),
               consoleLog (lit "DSL error processed and saved") None w)
          end
      | _, _, _, _ => (Throw TypeError, w)   (* a capture left undefined *)
      end
  | None =>
      (Return None, consoleLog (lit "Could not parse DSL error format") None w)
  end.

End StreamingDsl.

(** The listener for [Console.messageAdded]: a message of level error
    goes to [processDslError] when its text mentions workspace.dsl,
    and then, unless that call threw, to [logError].  The two calls
    read the clock separately. *)
Definition onMessageAdded (connectionId level errorText : js_string)
           (messageUrl : option js_string) (messageLine messageColumn : option Z)
           (nowDsl nowLog : js_string) (w : world) (s : Capture.state)
  : outcome unit * world * Capture.state :=
  if strictEquals level (lit "error") then
    let '(processed, w) :=
      if Capture.truthy (Some errorText)
         && includes errorText (lit "workspace.dsl")
      then StreamingDsl.processDslError errorText nowDsl w
      else (Return None, w) in
    match processed with
    | Throw e => (Throw e, w, s)
    | Return _ =>
        (Return tt, w,
         Capture.logError connectionId
           (Capture.mkBrowserError Capture.ConsoleType (Some errorText)
              messageUrl messageLine messageColumn None)
           nowLog s)
    end
  else (Return tt, w, s).

(** A text that can stand after a newline inside an entry of the log:
    not empty, not starting with a newline, no empty line inside and no
    newline at its end. *)
Definition linesText (s : js_string) : bool :=
  match s with
  | [] => false
  | c :: _ => negb (c =? NEWLINE)%N && entryText s
  end.

(** A field that, when it is written at all, is such a text. *)
Definition fieldText (v : option js_string) : bool :=
  match v with
  | Some (c :: s) => linesText (c :: s)
  | _ => true
  end.

(** The first line of an entry written by [logError]. *)
Definition headerLine (now : js_string) (t : Capture.ErrorType)
           (connectionUrl : js_string) : js_string :=
  lit "[" ++ now ++ lit "] [" ++ Capture.toUpperCase (Capture.typeText t)
    ++ lit "] [" ++ connectionUrl ++ lit "]".

(** The further lines of the entry: one for each field that holds. *)
Definition bodyLines (error : Capture.BrowserError) : list js_string :=
  (if Capture.truthy (Capture.message error)
   then [lit "Message: " ++ Capture.text (Capture.message error)] else [])
  ++ (if Capture.truthy (Capture.url error)
      then [lit "URL: " ++ Capture.text (Capture.url error)] else [])
  ++ (if Capture.nonZero (Capture.line error)
      then [lit "Location: Line " ++ Capture.numberText (Capture.line error)
              ++ lit ", Column " ++ Capture.numberText (Capture.column error)]
      else [])
  ++ (if Capture.truthy (Capture.stack error)
      then [lit "Stack Trace:" ++ [NEWLINE] ++ Capture.text (Capture.stack error)]
      else []).

(** What [getRecentErrors] is to return for an error that was logged. *)
Definition capturedError (now : js_string) (connectionUrl : js_string)
           (error : Capture.BrowserError) : BrowserLog.RecentError :=
  BrowserLog.mkRecentError
    (headerLine now (Capture.type error) connectionUrl)
    (join (bodyLines error) [NEWLINE]).

(** A string that UTF-8 leaves as it is: every surrogate in it is half
    of a pair. *)
Fixpoint wellFormed (s : js_string) : bool :=
  match s with
  | [] => true
  | c :: s' =>
      if isHighSurrogate c then
        match s' with
        | d :: s'' => isLowSurrogate d && wellFormed s''
        | [] => false
        end
      else negb (isLowSurrogate c) && wellFormed s'
  end.

(** A text for the header line of an entry: no newline in it, and
    left as it is by UTF-8. *)
Definition headerText (s : js_string) : Prop :=
  forallb notNewline s = true /\ wellFormed s = true.

(** A number field that is undefined or an integer up to 2^53 in
    magnitude, which prints as its digits. *)
Definition safeInteger (v : option Z) : bool :=
  match v with
  | Some z => Z.abs z <=? 2 ^ 53
  | None => true
  end.

(** An error that [logError] writes so that it can be read back: its
    message, url and stack are texts for the lines of an entry and are
    left as they are by UTF-8, its line and column print as digits. *)
Definition loggable (error : Capture.BrowserError) : Prop :=
  fieldText (Capture.message error) = true
  /\ fieldText (Capture.url error) = true
  /\ fieldText (Capture.stack error) = true
  /\ wellFormed (Capture.text (Capture.message error)) = true
  /\ wellFormed (Capture.text (Capture.url error)) = true
  /\ wellFormed (Capture.text (Capture.stack error)) = true
  /\ safeInteger (Capture.line error) = true
  /\ safeInteger (Capture.column error) = true.

(** An entry of the log that reads back as it was written. *)
Definition readable (r : BrowserLog.RecentError) : Prop :=
  forallb notNewline (BrowserLog.timestamp r) = true
  /\ entryText (entryOf r) = true
  /\ BrowserLog.notBlank (entryOf r) = true.

(** A state of the capture with one connection, and an exception seen
    on it. *)
Definition sampleCapture : Capture.state :=
  Capture.mkState true [(lit "1735689600000", lit "http://localhost:8080/workspace")]
    (BrowserLog.Text (logText (map entryOf sampleBrowserErrors))) true [].

Definition sampleException : Capture.BrowserError :=
  Capture.mkBrowserError Capture.ExceptionType (Some (lit "Uncaught"))
    (Some (lit "http://localhost:8080/app.js")) (Some 12) (Some 5)
    (Some (lit "TypeError: x is undefined" ++ [NEWLINE] ++ lit "    at app.js:12:5")).

(** * Properties *)

(** ** Strings *)

Lemma startsWith_app (p s : js_string) : startsWith p (p ++ s) = true.
Proof.
  induction p as [|a p IH]; simpl; [reflexivity|].
  now rewrite N.eqb_refl.
Qed.

Lemma startsWith_split (p s : js_string) :
  startsWith p s = true -> s = p ++ skipn (List.length p) s.
Proof.
  revert s; induction p as [|a p IH]; intros s H; simpl in *; [reflexivity|].
  destruct s as [|b s]; [discriminate|].
  apply andb_prop in H as [Hab Hps].
  apply N.eqb_eq in Hab; subst b.
  f_equal; now apply IH.
Qed.

Lemma skipn_length_app (A : Type) (p s : list A) :
  skipn (List.length p) (p ++ s) = s.
Proof. induction p; simpl; auto. Qed.

Lemma includes_intro (pre p post : js_string) :
  includes (pre ++ p ++ post) p = true.
Proof.
  induction pre as [|a pre IH]; simpl.
  - pose proof (startsWith_app p post) as H.
    destruct (p ++ post); simpl; now rewrite H.
  - rewrite IH; apply orb_true_r.
Qed.

Lemma includes_elim (s p : js_string) :
  includes s p = true -> exists pre post, s = pre ++ p ++ post.
Proof.
  induction s as [|a s IH]; simpl; intros H.
  - rewrite orb_false_r in H.
    exists [], (skipn (List.length p) []); now apply startsWith_split.
  - apply orb_prop in H as [H|H].
    + exists [], (skipn (List.length p) (a :: s)); now apply startsWith_split.
    + destruct (IH H) as (pre & post & ->).
      now exists (a :: pre), post.
Qed.

(** An occurrence of a longer text is an occurrence of each of its parts. *)
Lemma includes_part (s a p b : js_string) :
  includes s (a ++ p ++ b) = true -> includes s p = true.
Proof.
  intros H; destruct (includes_elim _ _ H) as (pre & post & ->).
  replace (pre ++ (a ++ p ++ b) ++ post) with ((pre ++ a) ++ p ++ (b ++ post))
    by now rewrite <- !app_assoc.
  apply includes_intro.
Qed.

Lemma trimStart_forallb (P : code_unit -> bool) (s : js_string) :
  forallb P s = true -> forallb P (trimStart s) = true.
Proof.
  induction s as [|c s IH]; simpl; [reflexivity|].
  intros H; destruct (isWhiteSpace c); [|exact H].
  apply andb_prop in H as [_ H]; auto.
Qed.

Lemma forallb_rev (A : Type) (P : A -> bool) (l : list A) :
  forallb P (rev l) = forallb P l.
Proof.
  induction l as [|a l IH]; simpl; [reflexivity|].
  rewrite forallb_app, IH; simpl.
  rewrite andb_true_r; apply andb_comm.
Qed.

(** Trimming only removes code units. *)
Lemma trim_forallb (P : code_unit -> bool) (s : js_string) :
  forallb P s = true -> forallb P (trim s) = true.
Proof.
  intros H; unfold trim, trimEnd.
  rewrite forallb_rev.
  apply trimStart_forallb.
  rewrite forallb_rev.
  now apply trimStart_forallb.
Qed.

(** ** The matcher finds exactly the matches of the pattern *)

Section MatcherFacts.

Variable A : Type.
Implicit Types (k : cont A) (s c acc : js_string) (caps : captures).

Lemma loop_sound cc greedy s : forall acc caps k a,
  loop cc greedy acc s caps k = Some a ->
  exists c s', s = c ++ s'
    /\ forallb (class_matches cc) c = true
    /\ k (acc ++ c) s' caps = Some a.
Proof.
  induction s as [|x s IH]; intros acc caps k a H; simpl in H.
  - exists [], []; rewrite (app_nil_r acc); repeat split; assumption.
  - assert (Hstop : k acc (x :: s) caps = Some a ->
                    exists c s', x :: s = c ++ s'
                      /\ forallb (class_matches cc) c = true
                      /\ k (acc ++ c) s' caps = Some a).
    { intros Hk; exists [], (x :: s); rewrite (app_nil_r acc); repeat split; assumption. }
    assert (Hgo : loop cc greedy (acc ++ [x]) s caps k = Some a ->
                  class_matches cc x = true ->
                  exists c s', x :: s = c ++ s'
                    /\ forallb (class_matches cc) c = true
                    /\ k (acc ++ c) s' caps = Some a).
    { intros Hl Hx; destruct (IH _ _ _ _ Hl) as (c & s' & -> & Hc & Hk).
      exists (x :: c), s'; simpl; rewrite Hx, Hc.
      rewrite <- app_assoc in Hk; repeat split; assumption. }
    destruct (class_matches cc x) eqn:Hx; [|auto].
    destruct greedy.
    + destruct (loop cc true (acc ++ [x]) s caps k) eqn:Hl; auto.
    + destruct (k acc (x :: s) caps) eqn:Hk; auto.
Qed.

Lemma loop_complete cc greedy c : forall acc s' caps k,
  forallb (class_matches cc) c = true ->
  k (acc ++ c) s' caps <> None ->
  loop cc greedy acc (c ++ s') caps k <> None.
Proof.
  induction c as [|x c IH]; intros acc s' caps k Hc Hk.
  - rewrite app_nil_r in Hk; simpl.
    destruct s' as [|y s']; simpl; [exact Hk|].
    destruct (class_matches cc y); [|exact Hk].
    destruct greedy.
    + destruct (loop cc true (acc ++ [y]) s' caps k); [discriminate|exact Hk].
    + destruct (k acc (y :: s') caps); [discriminate|congruence].
  - simpl in Hc; apply andb_prop in Hc as [Hx Hc].
    simpl; rewrite Hx.
    assert (Hl : loop cc greedy (acc ++ [x]) (c ++ s') caps k <> None).
    { apply IH; [exact Hc|]. now rewrite <- app_assoc. }
    destruct greedy.
    + destruct (loop cc true (acc ++ [x]) (c ++ s') caps k);
        [discriminate|congruence].
    + destruct (k acc (x :: c ++ s') caps); [discriminate|exact Hl].
Qed.

End MatcherFacts.

Section RunFacts.

Variable A : Type.

Lemma run_sound (r : regex) : forall s caps (k : cont A) a,
  run r s caps k = Some a ->
  exists c s' caps', s = c ++ s'
    /\ Matches r c caps caps'
    /\ k c s' caps' = Some a.
Proof.
  induction r as [p|cc greedy|cc greedy|n r IH|r1 IH1 r2 IH2];
    intros s caps k a H; simpl in H.
  - destruct (startsWith p s) eqn:Hp; [|discriminate].
    exists p, (skipn (List.length p) s), caps.
    split; [now apply startsWith_split|].
    split; [constructor|exact H].
  - destruct (loop_sound _ _ _ _ _ _ H) as (c & s' & -> & Hc & Hk).
    exists c, s', caps; repeat split; [now constructor|exact Hk].
  - destruct s as [|x s]; [discriminate|].
    destruct (class_matches cc x) eqn:Hx; [|discriminate].
    destruct (loop_sound _ _ _ _ _ _ H) as (c & s' & -> & Hc & Hk).
    exists (x :: c), s', caps; repeat split; [|exact Hk].
    constructor; [discriminate|]. simpl; now rewrite Hx, Hc.
  - destruct (IH _ _ _ _ H) as (c & s' & caps' & -> & Hm & Hk).
    exists c, s', ((n, c) :: caps'); repeat split; [|exact Hk].
    now constructor.
  - destruct (IH1 _ _ _ _ H) as (c1 & s1 & caps1 & -> & Hm1 & H1).
    destruct (IH2 _ _ _ _ H1) as (c2 & s2 & caps2 & -> & Hm2 & H2).
    exists (c1 ++ c2), s2, caps2; repeat split.
    + now rewrite app_assoc.
    + econstructor; eassumption.
    + exact H2.
Qed.

Lemma run_complete : forall (r : regex) c caps caps',
  Matches r c caps caps' ->
  forall s' (k : cont A),
    k c s' caps' <> None -> run r (c ++ s') caps k <> None.
Proof.
  intros r0 c0 caps0 caps0' H.
  induction H as [p caps|cc greedy c caps Hc|cc greedy c caps Hne Hc
                  |n r c caps caps' Hm IH
                  |r1 r2 c1 c2 caps caps1 caps2 Hm1 IH1 Hm2 IH2];
    intros s' k Hk; simpl.
  - now rewrite startsWith_app, skipn_length_app.
  - now apply loop_complete.
  - destruct c as [|x c]; [congruence|].
    simpl in Hc; apply andb_prop in Hc as [Hx Hc].
    simpl; rewrite Hx.
    now apply loop_complete.
  - now apply IH.
  - rewrite <- app_assoc.
    apply IH1. now apply IH2.
Qed.

End RunFacts.

Lemma regexMatch_sound (r : regex) (s : js_string) (caps : captures) :
  regexMatch r s = Some caps ->
  exists pre c post, s = pre ++ c ++ post /\ Matches r c [] caps.
Proof.
  induction s as [|x s IH]; simpl; intros H.
  - destruct (run r [] [] (fun _ _ caps0 => Some caps0)) as [found|] eqn:Hr;
      [|discriminate].
    destruct (run_sound _ _ _ _ Hr) as (c & s' & caps' & Hs & Hm & Hk).
    exists [], c, s'; split; [exact Hs|congruence].
  - destruct (run r (x :: s) [] (fun _ _ caps0 => Some caps0)) as [found|] eqn:Hr.
    + destruct (run_sound _ _ _ _ Hr) as (c & s' & caps' & Hs & Hm & Hk).
      exists [], c, s'; split; [exact Hs|congruence].
    + destruct (IH H) as (pre & c & post & -> & Hm).
      now exists (x :: pre), c, post.
Qed.

Lemma regexMatch_complete (r : regex) (pre c post : js_string) caps :
  Matches r c [] caps ->
  regexMatch r (pre ++ c ++ post) <> None.
Proof.
  intros Hm.
  assert (Hhere : forall t, t = c ++ post -> regexMatch r t <> None).
  { intros t ->.
    assert (Hr : run r (c ++ post) [] (fun _ _ caps0 => Some caps0) <> None)
      by (eapply run_complete; [exact Hm|discriminate]).
    destruct (c ++ post); simpl;
      destruct (run r _ [] (fun _ _ caps0 => Some caps0)); congruence. }
  induction pre as [|x pre IH]; simpl; [now apply Hhere|].
  destruct (run r (x :: pre ++ c ++ post) [] (fun _ _ caps0 => Some caps0));
    [discriminate|exact IH].
Qed.

(** ** The shape of a DSL error text *)

Lemma noneOf_colon (f : js_string) :
  forallb (class_matches (NoneOf [COLON])) f = forallb notColon f.
Proof.
  induction f as [|x f IH]; simpl; [reflexivity|].
  now rewrite IH, orb_false_r.
Qed.

Lemma dslErrorPattern_matches (m n f c : js_string) :
  forallb notLineTerminator m = true ->
  n <> [] -> forallb isDigit n = true ->
  f <> [] -> forallb notColon f = true ->
  forallb notLineTerminator c = true ->
  Matches dslErrorPattern
    (lit "workspace.dsl: " ++ m ++ lit " at line " ++ n ++ lit " of " ++ f
       ++ [COLON] ++ c)
    [] (dslCaptures m n f c).
Proof.
  intros Hm Hn Hnd Hf Hfc Hc; unfold dslErrorPattern, dslCaptures.
  repeat (eapply MSeq || eapply MGroup || eapply MStr).
  - now apply MStar.
  - now apply MPlus.
  - apply MPlus; [exact Hf|]. now rewrite noneOf_colon.
  - now apply MStar.
Qed.

Lemma dslErrorPattern_inv (t : js_string) (caps : captures) :
  Matches dslErrorPattern t [] caps ->
  exists m n f c,
    t = lit "workspace.dsl: " ++ m ++ lit " at line " ++ n ++ lit " of " ++ f
          ++ [COLON] ++ c
    /\ caps = dslCaptures m n f c
    /\ forallb notLineTerminator m = true
    /\ n <> [] /\ forallb isDigit n = true
    /\ f <> [] /\ forallb notColon f = true
    /\ forallb notLineTerminator c = true.
Proof.
  unfold dslErrorPattern; intros H.
  repeat match goal with
         | H : Matches (Seq _ _) _ _ _ |- _ => inversion H; subst; clear H
         | H : Matches (Group _ _) _ _ _ |- _ => inversion H; subst; clear H
         | H : Matches (Str _) _ _ _ |- _ => inversion H; subst; clear H
         | H : Matches (Star _ _) _ _ _ |- _ => inversion H; subst; clear H
         | H : Matches (Plus _ _) _ _ _ |- _ => inversion H; subst; clear H
         end.
  rewrite noneOf_colon in *.
  do 4 eexists.
  split; [reflexivity|]. split; [reflexivity|].
  repeat split; assumption.
Qed.

Lemma regexMatch_shape (errorText : js_string) (caps : captures) :
  regexMatch dslErrorPattern errorText = Some caps ->
  exists m n f c, caps = dslCaptures m n f c /\ hasShape errorText m n f c.
Proof.
  intros H.
  destruct (regexMatch_sound _ _ H) as (pre & t & post & -> & Hm).
  destruct (dslErrorPattern_inv Hm) as (m & n & f & c & -> & -> & Hs).
  exists m, n, f, c; split; [reflexivity|].
  split; [|exact Hs].
  exists pre, post. now rewrite <- !app_assoc.
Qed.

Lemma shape_regexMatch (errorText m n f c : js_string) :
  hasShape errorText m n f c ->
  regexMatch dslErrorPattern errorText <> None.
Proof.
  intros ((pre & post & ->) & Hm & Hn & Hnd & Hf & Hfc & Hc).
  pose proof (@dslErrorPattern_matches m n f c Hm Hn Hnd Hf Hfc Hc) as HM.
  pose proof (@regexMatch_complete _ pre _ post _ HM) as HR.
  now rewrite <- !app_assoc in HR.
Qed.

(** ** Reading the line number *)

Lemma digit_not_whiteSpace (c : code_unit) :
  isDigit c = true -> isWhiteSpace c = false.
Proof.
  unfold isDigit; intros H.
  apply andb_prop in H as [Hlo Hhi].
  apply N.leb_le in Hlo, Hhi.
  unfold isWhiteSpace, isLineTerminator.
  repeat match goal with
         | |- context [(c =? ?k)%N] =>
             replace (c =? k)%N with false by (symmetry; apply N.eqb_neq; lia)
         end.
  replace (8192 <=? c)%N with false by (symmetry; apply N.leb_gt; lia).
  reflexivity.
Qed.

Lemma digit_not_sign (c : code_unit) :
  isDigit c = true -> (c =? 45)%N = false /\ (c =? 43)%N = false.
Proof.
  unfold isDigit; intros H.
  apply andb_prop in H as [Hlo Hhi].
  apply N.leb_le in Hlo, Hhi.
  split; apply N.eqb_neq; lia.
Qed.

Lemma digitsPrefix_all (n : js_string) :
  forallb isDigit n = true -> digitsPrefix n = n.
Proof.
  induction n as [|c n IH]; simpl; [reflexivity|].
  intros H; apply andb_prop in H as [Hc Hn].
  now rewrite Hc, IH.
Qed.

(** On a non-empty run of digits [parseInt] reads all of it. *)
Lemma parseInt10_digits (n : js_string) :
  n <> [] -> forallb isDigit n = true ->
  parseInt10 n = roundToDouble (decimalValue n).
Proof.
  intros Hne Hd.
  destruct n as [|c n]; [congruence|].
  pose proof Hd as Hall.
  simpl in Hd; apply andb_prop in Hd as [Hc Hn].
  unfold parseInt10; simpl trimStart.
  rewrite (digit_not_whiteSpace _ Hc).
  destruct (digit_not_sign _ Hc) as [-> ->].
  rewrite (digitsPrefix_all _ Hall).
  reflexivity.
Qed.

Lemma decimalValue_acc_nonneg (ds : js_string) : forall acc,
  0 <= acc ->
  0 <= fold_left (fun a c => 10 * a + digitValue c) ds acc.
Proof.
  induction ds as [|c ds IH]; intros acc Hacc; cbn [fold_left]; [exact Hacc|].
  apply IH. unfold digitValue.
  pose proof (N2Z.is_nonneg (c - 48)) as Hd. lia.
Qed.

Lemma decimalValue_nonneg (ds : js_string) : 0 <= decimalValue ds.
Proof. apply decimalValue_acc_nonneg; lia. Qed.

Lemma roundToDouble_exact (z : Z) :
  Z.abs z < 2 ^ 53 -> roundToDouble z = Int z.
Proof.
  intros H; unfold roundToDouble.
  apply Z.ltb_lt in H. now rewrite H.
Qed.

(** Rounding a value that is not negative gives an integer within one
    part in 2^53 of it, or plus infinity, and that only from 2^1023
    on. *)
Lemma roundToDouble_bound (z : Z) :
  0 <= z ->
  (exists v, roundToDouble z = Int v /\ 0 <= v /\ Z.abs (v - z) * 2 ^ 53 <= z)
  \/ (roundToDouble z = Infinity false /\ 2 ^ 1023 <= z).
Proof.
  intros Hz. unfold roundToDouble.
  rewrite (Z.abs_eq z Hz).
  destruct (z <? 2 ^ 53) eqn:Hsmall.
  { left; exists z. rewrite Z.sub_diag. cbn. repeat split; lia. }
  apply Z.ltb_ge in Hsmall.
  assert (Hzpos : 0 < z) by (pose proof (Z.pow_pos_nonneg 2 53); lia).
  assert (Hlog : 53 <= Z.log2 z) by (apply Z.log2_le_pow2; lia).
  destruct (Z.log2_spec z Hzpos) as [Hlo Hhi].
  set (e := Z.log2 z - 52) in *.
  assert (He : 1 <= e) by (unfold e; lia).
  replace (Z.log2 z) with (52 + e) in Hlo by (unfold e; lia).
  replace (Z.succ (Z.log2 z)) with (53 + e) in Hhi by (unfold e; lia).
  rewrite Z.pow_add_r in Hlo, Hhi by lia.
  assert (HP : 2 ^ e = 2 * 2 ^ (e - 1)).
  { replace e with (1 + (e - 1)) at 1 by lia.
    rewrite Z.pow_add_r by lia. reflexivity. }
  assert (Hhalf : 0 < 2 ^ (e - 1)) by (apply Z.pow_pos_nonneg; lia).
  set (half := 2 ^ (e - 1)) in *.
  set (P := 2 ^ e) in *.
  assert (HPpos : 0 < P) by lia.
  pose proof (Z.div_mod z P ltac:(lia)) as Hdm.
  pose proof (Z.mod_pos_bound z P HPpos) as Hr.
  set (q := z / P) in *. set (r := z mod P) in *.
  change (2 ^ 52) with 4503599627370496 in *.
  change (2 ^ 53) with 9007199254740992 in *.
  assert (Hq : 4503599627370496 <= q < 9007199254740992) by nia.
  replace (z <? 0) with false by (symmetry; apply Z.ltb_ge; lia).
  replace (Z.sgn z) with 1 by (symmetry; apply Z.sgn_pos; lia).
  set (q' := if (half <? r) || ((r =? half) && Z.odd q) then q + 1 else q).
  assert (Hq' : (q' = q /\ r <= half) \/ (q' = q + 1 /\ half <= r)).
  { unfold q'. destruct (half <? r) eqn:H1; cbn [orb].
    - right; apply Z.ltb_lt in H1; lia.
    - apply Z.ltb_ge in H1. destruct (r =? half) eqn:H2; cbn [andb].
      + apply Z.eqb_eq in H2. destruct (Z.odd q); [right|left]; lia.
      + left; lia. }
  clearbody q'.
  destruct (2 ^ 1024 <=? q' * P) eqn:Hbig.
  - right; split; [reflexivity|].
    apply Z.leb_le in Hbig.
    replace (2 ^ 1024) with (9007199254740992 * 2 ^ 971) in Hbig
      by (vm_compute; reflexivity).
    replace (2 ^ 1023) with (4503599627370496 * 2 ^ 971)
      by (vm_compute; reflexivity).
    generalize dependent (2 ^ 971). intros K HK. nia.
  - left. exists (1 * (q' * P)). split; [reflexivity|].
    split; [nia|]. nia.
Qed.

(** ** Writing a line number

    The text of a non-negative integer is a run of digits whose value
    in base 10 is the integer. *)

Lemma decimal_digits_acc (d : Decimal.uint) : forall acc : positive,
  fold_left (fun a c => 10 * a + digitValue c)
            (lit (DecimalString.NilEmpty.string_of_uint d)) (Z.pos acc)
  = Z.pos (Pos.of_uint_acc d acc).
Proof.
  induction d as [|d IH|d IH|d IH|d IH|d IH|d IH|d IH|d IH|d IH|d IH];
    intros acc; [reflexivity|..];
    cbn [Pos.of_uint_acc]; rewrite <- IH;
    match goal with
    | |- fold_left ?f (lit (DecimalString.NilEmpty.string_of_uint (?D d))) ?a = _ =>
        change (fold_left f (lit (DecimalString.NilEmpty.string_of_uint (D d))) a)
          with (fold_left f (lit (DecimalString.NilEmpty.string_of_uint d))
                  (f a (hd 0%N (lit (DecimalString.NilEmpty.string_of_uint (D Decimal.Nil))))))
    end;
    f_equal; cbv beta;
    match goal with
    | |- context [digitValue ?t] =>
        let v := eval vm_compute in (digitValue t) in
        change (digitValue t) with v
    end; lia.
Qed.

Lemma decimal_digits_value (d : Decimal.uint) :
  decimalValue (lit (DecimalString.NilEmpty.string_of_uint d)) = Z.of_N (Pos.of_uint d).
Proof.
  unfold decimalValue.
  induction d as [|d IH|d IH|d IH|d IH|d IH|d IH|d IH|d IH|d IH|d IH];
    [reflexivity|exact IH|..];
    cbn [Pos.of_uint Z.of_N]; rewrite <- decimal_digits_acc; reflexivity.
Qed.

Lemma decimal_digits_are_digits (d : Decimal.uint) :
  forallb isDigit (lit (DecimalString.NilEmpty.string_of_uint d)) = true.
Proof.
  induction d as [|d IH|d IH|d IH|d IH|d IH|d IH|d IH|d IH|d IH|d IH];
    [reflexivity|..]; exact IH.
Qed.

Lemma numberToString_value (z : Z) :
  0 <= z ->
  forallb isDigit (numberToString z) = true
  /\ numberToString z <> []
  /\ decimalValue (numberToString z) = z.
Proof.
  intros Hz; unfold numberToString.
  destruct z as [|p|p]; [repeat split; discriminate| |lia].
  cbn [Z.to_int DecimalString.NilZero.string_of_int].
  pose proof (DecimalPos.Unsigned.to_uint_nonnil p) as Hnil.
  pose proof (DecimalPos.Unsigned.of_to p) as Hof.
  pose proof (decimal_digits_value (Pos.to_uint p)) as Hval.
  pose proof (decimal_digits_are_digits (Pos.to_uint p)) as Hdig.
  unfold DecimalString.NilZero.string_of_uint.
  destruct (Pos.to_uint p) eqn:Hd; [congruence|..];
    (split; [exact Hdig|]); (split; [discriminate|]);
    rewrite Hval, Hof; reflexivity.
Qed.

(** ** What [processDslError] does on a match and on a mismatch *)

Lemma existingErrors_frame (w : world) :
  let w' := snd (existingErrors w) in
  dslLogFile w' = dslLogFile w /\ writable w' = writable w
  /\ workspaceDsl w' = workspaceDsl w
  /\ maxArguments w' = maxArguments w.
Proof.
  unfold existingErrors, existsSync, readJson.
  destruct w as [[| | |v] wr dsl con limit]; simpl; auto.
  destruct (spread limit v); simpl; auto.
Qed.

Lemma processDslError_matched (errorText now m n f c : js_string) (w : world) :
  regexMatch dslErrorPattern errorText = Some (dslCaptures m n f c) ->
  writable w = true ->
  let d := parsedError now m n f c in
  let old := existingErrors (started errorText w) in
  processDslError errorText now w =
    (Return (Some d),
     consoleLog (lit "DSL error processed and saved") None
       (World (Json (JArr (fst old ++ [logEntry d]))) true
              (workspaceDsl w) (console (snd old)) (maxArguments w))).
Proof.
  intros Hr Hw d old.
  pose proof (existingErrors_frame (started errorText w))
    as (_ & Hw' & Hd' & Hl').
  unfold processDslError; rewrite Hr; simpl capture; cbv iota zeta beta.
  change (consoleLog (lit "Processing DSL error:") (Some errorText) w)
    with (started errorText w).
  fold (parsedError now m n f c); fold d.
  subst old.
  destruct (existingErrors (started errorText w)) as [items w1];
    cbn [fst snd] in *.
  unfold writeFileSync.
  rewrite Hw', Hd', Hl';
    cbn [started consoleLog writable workspaceDsl maxArguments].
  now rewrite Hw.
Qed.

Lemma processDslError_unmatched (errorText now : js_string) (w : world) :
  regexMatch dslErrorPattern errorText = None ->
  processDslError errorText now w =
    (Return None,
     consoleLog (lit "Could not parse DSL error format") None
       (started errorText w)).
Proof.
  intros Hr; unfold processDslError; now rewrite Hr.
Qed.

Lemma includes_at (s x p y : js_string) :
  s = x ++ p ++ y -> includes s p = true.
Proof. intros ->; apply includes_intro. Qed.

(** A text of the expected shape holds both literal markers. *)
Lemma shape_markers (errorText m n f c : js_string) :
  hasShape errorText m n f c ->
  includes errorText (lit "workspace.dsl:") = true
  /\ includes errorText (lit "at line") = true.
Proof.
  intros ((pre & post & ->) & _).
  change (lit "workspace.dsl: ") with (lit "workspace.dsl:" ++ [32%N]).
  change (lit " at line ") with ([32%N] ++ lit "at line" ++ [32%N]).
  split.
  - eapply includes_at with (x := pre).
    rewrite <- !app_assoc. reflexivity.
  - eapply includes_at with (x := pre ++ lit "workspace.dsl:" ++ [32%N] ++ m ++ [32%N]).
    rewrite <- !app_assoc. reflexivity.
Qed.

(** Every way [processDslError] can return a record. *)
Lemma processDslError_some (errorText now : js_string) (w w' : world)
      (d : DslError) :
  processDslError errorText now w = (Return (Some d), w') ->
  exists m n f c,
    hasShape errorText m n f c
    /\ d = parsedError now m n f c
    /\ writable w = true
    /\ w' = consoleLog (lit "DSL error processed and saved") None
              (World
                 (Json (JArr (fst (existingErrors (started errorText w))
                                ++ [logEntry d])))
                 true (workspaceDsl w)
                 (console (snd (existingErrors (started errorText w))))
                 (maxArguments w)).
Proof.
  intros H.
  destruct (regexMatch dslErrorPattern errorText) as [caps|] eqn:Hr.
  - destruct (regexMatch_shape _ Hr) as (m & n & f & c & -> & Hs).
    exists m, n, f, c.
    destruct (writable w) eqn:Hw.
    + rewrite (processDslError_matched _ now _ Hr Hw) in H.
      cbv zeta in H. injection H as Hd Hw'.
      subst d. split; [exact Hs|]. split; [reflexivity|].
      split; [reflexivity|]. now symmetry.
    + exfalso. revert H.
      pose proof (existingErrors_frame (started errorText w)) as (_ & Hw' & _).
      unfold processDslError; rewrite Hr; simpl capture; cbv iota zeta beta.
      change (consoleLog (lit "Processing DSL error:") (Some errorText) w)
        with (started errorText w).
      destruct (existingErrors (started errorText w)) as [items w1];
        cbn [fst snd] in *.
      unfold writeFileSync. rewrite Hw'.
      cbn [started consoleLog writable]. rewrite Hw. discriminate.
  - rewrite (processDslError_unmatched _ now w Hr) in H. discriminate.
Qed.

Lemma suggestions_distinct :
  dynamicViewSuggestion <> relationshipSuggestion
  /\ dynamicViewSuggestion <> genericSuggestion
  /\ relationshipSuggestion <> genericSuggestion.
Proof.
  repeat split; intros H; apply (f_equal issue) in H;
    vm_compute in H; discriminate.
Qed.

(** A closed text that starts with the shape has it, by evaluation. *)
Ltac shape_by_computation :=
  split;
  [ exists [], []; vm_compute; reflexivity
  | repeat split; try (vm_compute; reflexivity); vm_compute; discriminate ].

(** ** The claims on the extractor and on the suggestion matcher *)

(** C1, as amended.  On every text of the expected shape, with a
    writable log, the pattern matches and [processDslError] returns a
    record: its message, file and context are the captured texts, which
    are themselves parts of the shape, each trimmed on its own; its
    line is [parseInt] of the captured digits: the base-10 value of
    the digits whenever that value is below 2^53 (zero for a run of
    zeros), and else that value rounded to a double, which is a
    non-negative integer within one part in 2^53 of the value, or plus
    infinity, and that only for digits worth 2^1023 or more; its
    column is 1. *)
Theorem processDslError_expected_shape :
  forall (errorText now m0 n0 f0 c0 : js_string) (w : world),
    hasShape errorText m0 n0 f0 c0 ->
    writable w = true ->
    exists m n f c dslError w',
      hasShape errorText m n f c
      /\ regexMatch dslErrorPattern errorText = Some (dslCaptures m n f c)
      /\ processDslError errorText now w = (Return (Some dslError), w')
      /\ message dslError = trim m
      /\ filename dslError = trim f
      /\ context dslError = trim c
      /\ line dslError = roundToDouble (decimalValue n)
      /\ 0 <= decimalValue n
      /\ (decimalValue n < 2 ^ 53 -> line dslError = Int (decimalValue n))
      /\ ((exists v, line dslError = Int v /\ 0 <= v
                     /\ Z.abs (v - decimalValue n) * 2 ^ 53 <= decimalValue n)
          \/ (line dslError = Infinity false /\ 2 ^ 1023 <= decimalValue n))
      /\ column dslError = 1.
Proof.
  intros errorText now m0 n0 f0 c0 w Hshape Hw.
  destruct (regexMatch dslErrorPattern errorText) as [caps|] eqn:Hr;
    [|now apply shape_regexMatch in Hshape].
  destruct (regexMatch_shape _ Hr) as (m & n & f & c & -> & Hs).
  pose proof Hs as (_ & _ & Hn & Hnd & _).
  pose proof (decimalValue_nonneg n) as Hpos.
  exists m, n, f, c. eexists. eexists.
  split; [exact Hs|]. split; [reflexivity|].
  split; [apply (processDslError_matched _ now _ Hr Hw)|].
  cbn [parsedError message filename context line column].
  rewrite (parseInt10_digits Hn Hnd).
  split; [reflexivity|]. split; [reflexivity|]. split; [reflexivity|].
  split; [reflexivity|]. split; [exact Hpos|].
  split; [intros Hlt; apply roundToDouble_exact; lia|].
  split; [exact (roundToDouble_bound Hpos)|reflexivity].
Qed.

Lemma processDslError_expected_shape_witness :
  (hasShape dynamicViewErrorText
     (lit "Unexpected tokens (expected: include, exclude, autolayout, default, animation, title, description, properties)")
     (lit "776") (lit "/usr/local/structurizr/workspace.dsl")
     (lit " dynamic " ++ [QUOTE] ++ lit "ErrorHandlingFlow" ++ [QUOTE] ++ lit " {")
   /\ writable freshWorld = true)
  /\ exists m n f c dslError w',
      hasShape dynamicViewErrorText m n f c
      /\ regexMatch dslErrorPattern dynamicViewErrorText
         = Some (dslCaptures m n f c)
      /\ processDslError dynamicViewErrorText sampleNow freshWorld
         = (Return (Some dslError), w')
      /\ message dslError = trim m
      /\ filename dslError = trim f
      /\ context dslError = trim c
      /\ line dslError = roundToDouble (decimalValue n)
      /\ 0 <= decimalValue n
      /\ (decimalValue n < 2 ^ 53 -> line dslError = Int (decimalValue n))
      /\ ((exists v, line dslError = Int v /\ 0 <= v
                     /\ Z.abs (v - decimalValue n) * 2 ^ 53 <= decimalValue n)
          \/ (line dslError = Infinity false /\ 2 ^ 1023 <= decimalValue n))
      /\ column dslError = 1.
Proof.
  assert (Hs : hasShape dynamicViewErrorText
     (lit "Unexpected tokens (expected: include, exclude, autolayout, default, animation, title, description, properties)")
     (lit "776") (lit "/usr/local/structurizr/workspace.dsl")
     (lit " dynamic " ++ [QUOTE] ++ lit "ErrorHandlingFlow" ++ [QUOTE] ++ lit " {")).
  { shape_by_computation. }
  split; [split; [exact Hs|reflexivity]|].
  exact (processDslError_expected_shape sampleNow freshWorld Hs eq_refl).
Defined.

(** C1 as the specification words it does not hold: the digits may spell
    zero, and then the line is 0, not a positive integer; and a run of
    digits worth 2^53 + 1 is read as 2^53, not as its base-10 value. *)
Lemma processDslError_line_counterexample :
  hasShape lineZeroErrorText (lit "x") (lit "0") (lit "f") (lit "c")
  /\ (exists dslError w',
        processDslError lineZeroErrorText sampleNow freshWorld
        = (Return (Some dslError), w')
        /\ line dslError = Int 0)
  /\ hasShape hugeLineErrorText (lit "x") (lit "9007199254740993")
       (lit "f") (lit "c")
  /\ (exists dslError w',
        processDslError hugeLineErrorText sampleNow freshWorld
        = (Return (Some dslError), w')
        /\ line dslError = Int 9007199254740992
        /\ decimalValue (lit "9007199254740993") = 9007199254740993).
Proof.
  split; [|split; [|split]].
  - shape_by_computation.
  - eexists; eexists; split; [vm_compute; reflexivity|reflexivity].
  - shape_by_computation.
  - eexists; eexists; split; [vm_compute; reflexivity|].
    split; vm_compute; reflexivity.
Qed.

(** C2.  A text without the literal [workspace.dsl:], or without
    [at line], is not parsed: [processDslError] returns null, builds no
    record, and leaves the log file (and the rest of the disk) as it
    was; only two console lines are added. *)
Theorem processDslError_rejects :
  forall (errorText now : js_string) (w : world),
    includes errorText (lit "workspace.dsl:") = false
    \/ includes errorText (lit "at line") = false ->
    exists w',
      processDslError errorText now w = (Return None, w')
      /\ dslLogFile w' = dslLogFile w
      /\ writable w' = writable w
      /\ workspaceDsl w' = workspaceDsl w
      /\ console w' = console w
           ++ [Log (lit "Processing DSL error:") (Some errorText);
               Log (lit "Could not parse DSL error format") None].
Proof.
  intros errorText now w Hno.
  assert (Hr : regexMatch dslErrorPattern errorText = None).
  { destruct (regexMatch dslErrorPattern errorText) as [caps|] eqn:Hr;
      [|reflexivity].
    destruct (regexMatch_shape _ Hr) as (m & n & f & c & _ & Hs).
    destruct (shape_markers Hs) as [H1 H2].
    destruct Hno; congruence. }
  eexists; split; [apply (processDslError_unmatched _ now w Hr)|].
  cbn. rewrite <- app_assoc. repeat split.
Qed.

Lemma processDslError_rejects_witness :
  (includes (lit "some random non-matching text") (lit "workspace.dsl:") = false
   \/ includes (lit "some random non-matching text") (lit "at line") = false)
  /\ exists w',
      processDslError (lit "some random non-matching text") sampleNow
        (mkWorld (Json (JArr [JStr (lit "kept")])) true None [])
      = (Return None, w')
      /\ dslLogFile w' = Json (JArr [JStr (lit "kept")])
      /\ writable w' = true
      /\ workspaceDsl w' = None
      /\ console w' = []
           ++ [Log (lit "Processing DSL error:")
                   (Some (lit "some random non-matching text"));
               Log (lit "Could not parse DSL error format") None].
Proof.
  assert (Hno : includes (lit "some random non-matching text")
                  (lit "workspace.dsl:") = false
                \/ includes (lit "some random non-matching text")
                     (lit "at line") = false)
    by (left; vm_compute; reflexivity).
  split; [exact Hno|].
  exact (@processDslError_rejects _ sampleNow
           (mkWorld (Json (JArr [JStr (lit "kept")])) true None []) Hno).
Defined.

(** C3, as amended.  When rule 1 does not apply, the relationship pair
    is returned exactly when the message holds [relationship] (as it
    does when it holds [Unknown relationship]); its fix spells the
    syntax as [<source> -> <destination>].  The context plays no part
    in this rule: without [relationship] in the message the generic
    pair is returned whatever the context holds. *)
Theorem getSuggestionForError_relationship :
  forall message context : js_string,
    includes message (lit "Unexpected tokens")
      && includes context (lit "dynamic") = false ->
    (includes message (lit "Unknown relationship") = true
     \/ includes message (lit "relationship") = true ->
     getSuggestionForError message context = relationshipSuggestion
     /\ includes (fix_ (getSuggestionForError message context))
          (lit "<source> -> <destination>") = true)
    /\ (includes message (lit "relationship") = false ->
        getSuggestionForError message context = genericSuggestion).
Proof.
  intros message context Hrule1; unfold getSuggestionForError.
  rewrite Hrule1. split.
  - intros Hrel.
    assert (Hor : includes message (lit "Unknown relationship")
                  || includes message (lit "relationship") = true)
      by (destruct Hrel as [-> | ->]; auto using orb_true_r).
    rewrite Hor. split; [reflexivity|vm_compute; reflexivity].
  - intros Hno.
    assert (Hunk : includes message (lit "Unknown relationship") = false).
    { destruct (includes message (lit "Unknown relationship")) eqn:Hu;
        [|reflexivity].
      change (lit "Unknown relationship")
        with (lit "Unknown " ++ lit "relationship" ++ []) in Hu.
      apply includes_part in Hu. congruence. }
    now rewrite Hunk, Hno.
Qed.

Lemma getSuggestionForError_relationship_witness :
  includes (lit "Unknown relationship type") (lit "Unexpected tokens")
    && includes (lit "a -> b") (lit "dynamic") = false
  /\ (includes (lit "Unknown relationship type") (lit "Unknown relationship")
        = true
      \/ includes (lit "Unknown relationship type") (lit "relationship") = true)
  /\ getSuggestionForError (lit "Unknown relationship type") (lit "a -> b")
     = relationshipSuggestion
  /\ includes (fix_ (getSuggestionForError (lit "Unknown relationship type")
                                           (lit "a -> b")))
       (lit "<source> -> <destination>") = true.
Proof.
  assert (H1 : includes (lit "Unknown relationship type")
                 (lit "Unexpected tokens")
               && includes (lit "a -> b") (lit "dynamic") = false)
    by (vm_compute; reflexivity).
  assert (H2 : includes (lit "Unknown relationship type")
                 (lit "Unknown relationship") = true
               \/ includes (lit "Unknown relationship type")
                    (lit "relationship") = true)
    by (left; vm_compute; reflexivity).
  split; [exact H1|]. split; [exact H2|].
  exact (proj1 (@getSuggestionForError_relationship _ _ H1) H2).
Defined.

(** C3 as the specification words it does not hold: [relationship] in
    the context alone, with rule 1 not applying, gives the generic pair,
    not the relationship pair. *)
Lemma getSuggestionForError_context_counterexample :
  includes (lit "Unexpected element") (lit "Unexpected tokens")
    && includes (lit "relationship") (lit "dynamic") = false
  /\ includes (lit "relationship") (lit "relationship") = true
  /\ getSuggestionForError (lit "Unexpected element") (lit "relationship")
     = genericSuggestion
  /\ getSuggestionForError (lit "Unexpected element") (lit "relationship")
     <> relationshipSuggestion
  /\ includes (fix_ (getSuggestionForError (lit "Unexpected element")
                                           (lit "relationship")))
       (lit "->") = false.
Proof.
  split; [vm_compute; reflexivity|].
  split; [vm_compute; reflexivity|].
  split; [vm_compute; reflexivity|].
  split; [|vm_compute; reflexivity].
  intros H; apply (f_equal issue) in H; vm_compute in H; discriminate.
Qed.

(** C4.  [getSuggestionForError] is a function of its two strings
    alone and has a value on every pair, the empty strings included:
    one of the three fixed pairs, which are pairwise distinct, chosen
    by the ordered rules. *)
Theorem getSuggestionForError_total :
  forall message context : js_string,
    (getSuggestionForError message context = dynamicViewSuggestion
     \/ getSuggestionForError message context = relationshipSuggestion
     \/ getSuggestionForError message context = genericSuggestion)
    /\ (dynamicViewSuggestion <> relationshipSuggestion
        /\ dynamicViewSuggestion <> genericSuggestion
        /\ relationshipSuggestion <> genericSuggestion)
    /\ getSuggestionForError [] [] = genericSuggestion
    /\ includes (fix_ genericSuggestion) (lit "https://structurizr.com/dsl")
       = true.
Proof.
  intros message context. split; [|split; [exact suggestions_distinct|]].
  - unfold getSuggestionForError.
    destruct (includes message (lit "Unexpected tokens")
              && includes context (lit "dynamic")); [now left|].
    destruct (includes message (lit "Unknown relationship")
              || includes message (lit "relationship"));
      [right; now left|right; now right].
  - split; vm_compute; reflexivity.
Qed.

(** C5.  On the error text of scenario 1, with a writable log, the
    record returned has line 776, the file
    [/usr/local/structurizr/workspace.dsl], a message that starts with
    [Unexpected tokens], and the dynamic view suggestion, whose issue
    holds [dynamic view syntax is incorrect]. *)
Theorem processDslError_dynamic_view_scenario :
  forall (now : js_string) (w : world),
    writable w = true ->
    exists dslError w',
      processDslError dynamicViewErrorText now w = (Return (Some dslError), w')
      /\ line dslError = Int 776
      /\ filename dslError = lit "/usr/local/structurizr/workspace.dsl"
      /\ startsWith (lit "Unexpected tokens") (message dslError) = true
      /\ suggestion dslError = dynamicViewSuggestion
      /\ includes (issue (suggestion dslError))
           (lit "dynamic view syntax is incorrect") = true.
Proof.
  intros now w Hw.
  assert (Hr : regexMatch dslErrorPattern dynamicViewErrorText
               = Some (dslCaptures
                   (lit "Unexpected tokens (expected: include, exclude, autolayout, default, animation, title, description, properties)")
                   (lit "776") (lit "/usr/local/structurizr/workspace.dsl")
                   (lit " dynamic " ++ [QUOTE] ++ lit "ErrorHandlingFlow"
                      ++ [QUOTE] ++ lit " {")))
    by (vm_compute; reflexivity).
  eexists; eexists.
  split; [apply (processDslError_matched _ now _ Hr Hw)|].
  cbn [parsedError line filename message suggestion].
  repeat split; vm_compute; reflexivity.
Qed.

Lemma processDslError_dynamic_view_scenario_witness :
  writable freshWorld = true
  /\ exists dslError w',
      processDslError dynamicViewErrorText sampleNow freshWorld
      = (Return (Some dslError), w')
      /\ line dslError = Int 776
      /\ filename dslError = lit "/usr/local/structurizr/workspace.dsl"
      /\ startsWith (lit "Unexpected tokens") (message dslError) = true
      /\ suggestion dslError = dynamicViewSuggestion
      /\ includes (issue (suggestion dslError))
           (lit "dynamic view syntax is incorrect") = true.
Proof.
  split; [reflexivity|].
  exact (@processDslError_dynamic_view_scenario sampleNow freshWorld eq_refl).
Defined.

(** ** The claims on the log and on the advisory tool *)

Lemma slice_last (A : Type) (count : Z) (xs : list A) :
  1 <= count ->
  slice (- count) xs = skipn (List.length xs - Z.to_nat count) xs.
Proof.
  intros Hc; unfold slice.
  replace (- count <? 0) with true by (symmetry; apply Z.ltb_lt; lia).
  f_equal; lia.
Qed.

(** The summary can be built from every entry the server writes: its
    message and file are strings and its line is a number or null. *)
Lemma logEntry_summarised (d : DslError) : summarised (logEntry d) = true.
Proof.
  unfold summarised, logEntry. cbn.
  now destruct (line d).
Qed.


Lemma started_log (errorText : js_string) (w : world) :
  dslLogFile (started errorText w) = dslLogFile w.
Proof. reflexivity. Qed.

Lemma started_limit (errorText : js_string) (w : world) :
  maxArguments (started errorText w) = maxArguments w.
Proof. reflexivity. Qed.

Lemma existingErrors_array (w : world) (items : list json) :
  dslLogFile w = Json (JArr items) ->
  Z.of_nat (List.length items) <= maxArguments w ->
  existingErrors w = (items, w).
Proof.
  intros H Hl; unfold existingErrors, existsSync, readJson, spread.
  rewrite H. apply Z.leb_le in Hl. now rewrite Hl.
Qed.

(** An array longer than one call takes arguments is not read at all:
    the spread throws, and the append goes on with no entries. *)
Lemma existingErrors_overflow (w : world) (items : list json) :
  dslLogFile w = Json (JArr items) ->
  maxArguments w < Z.of_nat (List.length items) ->
  existingErrors w
  = ([], consoleError (lit "Error reading existing DSL errors:") RangeError w).
Proof.
  intros H Hl; unfold existingErrors, existsSync, readJson, spread.
  rewrite H. apply Z.leb_gt in Hl. now rewrite Hl.
Qed.

(** A successful append to a log that holds an array adds one entry at
    its end. *)
Lemma processDslError_appends (errorText now : js_string) (w w' : world)
      (d : DslError) (items : list json) :
  dslLogFile w = Json (JArr items) ->
  Z.of_nat (List.length items) <= maxArguments w ->
  processDslError errorText now w = (Return (Some d), w') ->
  dslLogFile w' = Json (JArr (items ++ [logEntry d])).
Proof.
  intros Hlog Hl H.
  destruct (processDslError_some _ _ _ H) as (m & n & f & c & _ & _ & _ & ->).
  rewrite (@existingErrors_array (started errorText w) items)
    by (rewrite ?started_log, ?started_limit; assumption).
  reflexivity.
Qed.

Lemma processDslError_log_array (errorText now : js_string) (w w' : world)
      (d : DslError) :
  processDslError errorText now w = (Return (Some d), w') ->
  exists items, dslLogFile w' = Json (JArr (items ++ [logEntry d])).
Proof.
  intros H.
  destruct (processDslError_some _ _ _ H) as (m & n & f & c & _ & _ & _ & ->).
  eexists; reflexivity.
Qed.





(** C7, as amended.  With a log file that is missing, that fails to
    read, or that holds text which is not JSON, an append still goes
    through: on a text of the expected shape and a writable disk,
    [processDslError] returns its record and the log then holds that
    one entry and nothing else.  A file that exists but cannot be read
    or parsed puts the error on the console; a missing file is taken as
    empty without a word. *)
Theorem processDslError_unusable_log :
  forall (errorText now m n f c : js_string) (w : world),
    hasShape errorText m n f c ->
    writable w = true ->
    dslLogFile w = Missing \/ dslLogFile w = Unreadable
      \/ dslLogFile w = Garbage ->
    exists dslError w',
      processDslError errorText now w = (Return (Some dslError), w')
      /\ dslLogFile w' = Json (JArr [logEntry dslError])
      /\ (dslLogFile w = Unreadable ->
          console w' = console w
            ++ [Log (lit "Processing DSL error:") (Some errorText);
                Error (lit "Error reading existing DSL errors:") SystemError;
                Log (lit "DSL error processed and saved") None])
      /\ (dslLogFile w = Garbage ->
          console w' = console w
            ++ [Log (lit "Processing DSL error:") (Some errorText);
                Error (lit "Error reading existing DSL errors:") SyntaxError;
                Log (lit "DSL error processed and saved") None])
      /\ (dslLogFile w = Missing ->
          console w' = console w
            ++ [Log (lit "Processing DSL error:") (Some errorText);
                Log (lit "DSL error processed and saved") None]).
Proof.
  intros errorText now m0 n0 f0 c0 w Hshape Hw Hlog.
  destruct (regexMatch dslErrorPattern errorText) as [caps|] eqn:Hr;
    [|now apply shape_regexMatch in Hshape].
  destruct (regexMatch_shape _ Hr) as (m & n & f & c & -> & _).
  eexists; eexists.
  split; [apply (processDslError_matched _ now _ Hr Hw)|].
  unfold existingErrors, existsSync, readJson; rewrite started_log.
  destruct Hlog as [Hf | [Hf | Hf]]; rewrite Hf; cbn;
    rewrite <- !app_assoc; cbn;
    (split; [reflexivity|]);
    repeat split; intros; try discriminate; reflexivity.
Qed.

Lemma processDslError_unusable_log_witness :
  (hasShape lineZeroErrorText (lit "x") (lit "0") (lit "f") (lit "c")
   /\ writable garbageWorld = true
   /\ (dslLogFile garbageWorld = Missing
       \/ dslLogFile garbageWorld = Unreadable
       \/ dslLogFile garbageWorld = Garbage))
  /\ exists dslError w',
      processDslError lineZeroErrorText sampleNow garbageWorld
      = (Return (Some dslError), w')
      /\ dslLogFile w' = Json (JArr [logEntry dslError])
      /\ (dslLogFile garbageWorld = Unreadable ->
          console w' = console garbageWorld
            ++ [Log (lit "Processing DSL error:") (Some lineZeroErrorText);
                Error (lit "Error reading existing DSL errors:") SystemError;
                Log (lit "DSL error processed and saved") None])
      /\ (dslLogFile garbageWorld = Garbage ->
          console w' = console garbageWorld
            ++ [Log (lit "Processing DSL error:") (Some lineZeroErrorText);
                Error (lit "Error reading existing DSL errors:") SyntaxError;
                Log (lit "DSL error processed and saved") None])
      /\ (dslLogFile garbageWorld = Missing ->
          console w' = console garbageWorld
            ++ [Log (lit "Processing DSL error:") (Some lineZeroErrorText);
                Log (lit "DSL error processed and saved") None]).
Proof.
  assert (Hs : hasShape lineZeroErrorText (lit "x") (lit "0") (lit "f") (lit "c")).
  { shape_by_computation. }
  assert (Hl : dslLogFile garbageWorld = Missing
               \/ dslLogFile garbageWorld = Unreadable
               \/ dslLogFile garbageWorld = Garbage)
    by (right; right; reflexivity).
  split; [split; [exact Hs|split; [reflexivity|exact Hl]]|].
  exact (@processDslError_unusable_log _ sampleNow _ _ _ _ garbageWorld Hs eq_refl Hl).
Defined.

(** C7 as the specification words it does not hold for a missing file:
    the append goes through and the log holds the one new entry, but no
    error line reaches the console. *)
Lemma processDslError_missing_log_counterexample :
  dslLogFile freshWorld = Missing
  /\ fst (processDslError lineZeroErrorText sampleNow freshWorld)
     = Return (Some thirdError)
  /\ dslLogFile (snd (processDslError lineZeroErrorText sampleNow freshWorld))
     = Json (JArr [logEntry thirdError])
  /\ console (snd (processDslError lineZeroErrorText sampleNow freshWorld))
     = [Log (lit "Processing DSL error:") (Some lineZeroErrorText);
        Log (lit "DSL error processed and saved") None]
  /\ forall text e,
      ~ In (Error text e)
           (console (snd (processDslError lineZeroErrorText sampleNow
                                          freshWorld))).
Proof.
  assert (Hcon : console (snd (processDslError lineZeroErrorText sampleNow
                                               freshWorld))
                 = [Log (lit "Processing DSL error:") (Some lineZeroErrorText);
                    Log (lit "DSL error processed and saved") None])
    by (vm_compute; reflexivity).
  split; [reflexivity|].
  split; [vm_compute; reflexivity|].
  split; [vm_compute; reflexivity|].
  split; [exact Hcon|].
  intros text e Hin; rewrite Hcon in Hin.
  destruct Hin as [H|[H|[]]]; discriminate.
Qed.

(** C8.  With a writable disk, [clearDslErrors] replaces whatever the
    log held by the empty array, and a second call right after it
    leaves that state as it is; a log that was not unreadable before
    then reads as empty. *)
Theorem clearDslErrors_idempotent :
  forall w : world,
    writable w = true ->
    fst (clearDslErrors w) = ClearedSuccessfully
    /\ dslLogFile (snd (clearDslErrors w)) = Json (JArr [])
    /\ fst (clearDslErrors (snd (clearDslErrors w))) = ClearedSuccessfully
    /\ snd (clearDslErrors (snd (clearDslErrors w))) = snd (clearDslErrors w)
    /\ (dslLogFile w <> Unreadable ->
        forall count : Z,
          getDslErrors count (snd (clearDslErrors w))
          = (NoErrorsFound, snd (clearDslErrors w)))
    /\ workspaceDsl (snd (clearDslErrors w)) = workspaceDsl w
    /\ console (snd (clearDslErrors w)) = console w.
Proof.
  intros w Hw.
  unfold clearDslErrors, writeFileSync; rewrite Hw; cbn.
  repeat split.
  intros _ count; unfold getDslErrors, readJson, slice; cbn.
  now rewrite skipn_nil.
Qed.

Lemma clearDslErrors_idempotent_witness :
  writable sampleLog = true
  /\ fst (clearDslErrors sampleLog) = ClearedSuccessfully
  /\ dslLogFile (snd (clearDslErrors sampleLog)) = Json (JArr [])
  /\ fst (clearDslErrors (snd (clearDslErrors sampleLog))) = ClearedSuccessfully
  /\ snd (clearDslErrors (snd (clearDslErrors sampleLog)))
     = snd (clearDslErrors sampleLog)
  /\ (dslLogFile sampleLog <> Unreadable ->
      forall count : Z,
        getDslErrors count (snd (clearDslErrors sampleLog))
        = (NoErrorsFound, snd (clearDslErrors sampleLog)))
  /\ workspaceDsl (snd (clearDslErrors sampleLog)) = workspaceDsl sampleLog
  /\ console (snd (clearDslErrors sampleLog)) = console sampleLog.
Proof.
  split; [reflexivity|].
  exact (@clearDslErrors_idempotent sampleLog eq_refl).
Defined.

(** C9.  For a line of at least 1 and any fix, the reply of
    [fixDslError] is the advisory text, which holds the line number
    and the fix as given; the call changes nothing: the log file and
    workspace.dsl are as before.  For a line up to 2^53, where a
    number prints as the digits of its value in base 10, the line
    number in the text is those digits. *)
Theorem fixDslError_advisory_only :
  forall (line : Z) (fix_ : js_string) (w : world),
    1 <= line ->
    (exists lineText,
        fst (fixDslError line fix_ w)
        = lit "Suggested fix for line " ++ lineText ++ lit ": " ++ fix_
            ++ [NEWLINE; NEWLINE]
            ++ lit "Note: This is a suggestion only. To apply the fix, you should edit the workspace.dsl file manually.")
    /\ includes (fst (fixDslError line fix_ w)) fix_ = true
    /\ snd (fixDslError line fix_ w) = w
    /\ dslLogFile (snd (fixDslError line fix_ w)) = dslLogFile w
    /\ workspaceDsl (snd (fixDslError line fix_ w)) = workspaceDsl w
    /\ (line <= 2 ^ 53 ->
        fst (fixDslError line fix_ w)
        = lit "Suggested fix for line " ++ numberToString line ++ lit ": "
            ++ fix_ ++ [NEWLINE; NEWLINE]
            ++ lit "Note: This is a suggestion only. To apply the fix, you should edit the workspace.dsl file manually."
        /\ includes (fst (fixDslError line fix_ w)) (numberToString line)
           = true
        /\ forallb isDigit (numberToString line) = true
        /\ decimalValue (numberToString line) = line).
Proof.
  intros line fx w Hline; unfold fixDslError; cbn [fst snd].
  assert (Hnum : 0 <= line) by lia.
  destruct (numberToString_value Hnum) as (Hdigits & _ & Hvalue).
  split; [eexists; reflexivity|].
  split.
  { eapply includes_at with
      (x := lit "Suggested fix for line " ++ numberToString line ++ lit ": ").
    now rewrite <- !app_assoc. }
  split; [reflexivity|]. split; [reflexivity|]. split; [reflexivity|].
  intros _. split; [reflexivity|].
  split; [apply includes_intro|].
  split; [exact Hdigits|exact Hvalue].
Qed.

Lemma fixDslError_advisory_only_witness :
  1 <= 776
  /\ (exists lineText,
        fst (fixDslError 776 (lit "dynamic ContainerName ErrorHandlingFlow {")
               sampleLog)
        = lit "Suggested fix for line " ++ lineText ++ lit ": "
            ++ lit "dynamic ContainerName ErrorHandlingFlow {"
            ++ [NEWLINE; NEWLINE]
            ++ lit "Note: This is a suggestion only. To apply the fix, you should edit the workspace.dsl file manually.")
  /\ includes (fst (fixDslError 776
                      (lit "dynamic ContainerName ErrorHandlingFlow {")
                      sampleLog))
       (lit "dynamic ContainerName ErrorHandlingFlow {") = true
  /\ snd (fixDslError 776 (lit "dynamic ContainerName ErrorHandlingFlow {")
            sampleLog) = sampleLog
  /\ dslLogFile (snd (fixDslError 776
                        (lit "dynamic ContainerName ErrorHandlingFlow {")
                        sampleLog)) = dslLogFile sampleLog
  /\ workspaceDsl (snd (fixDslError 776
                          (lit "dynamic ContainerName ErrorHandlingFlow {")
                          sampleLog)) = workspaceDsl sampleLog
  /\ (776 <= 2 ^ 53 ->
      fst (fixDslError 776 (lit "dynamic ContainerName ErrorHandlingFlow {")
             sampleLog)
      = lit "Suggested fix for line " ++ numberToString 776 ++ lit ": "
          ++ lit "dynamic ContainerName ErrorHandlingFlow {"
          ++ [NEWLINE; NEWLINE]
          ++ lit "Note: This is a suggestion only. To apply the fix, you should edit the workspace.dsl file manually."
      /\ includes (fst (fixDslError 776
                          (lit "dynamic ContainerName ErrorHandlingFlow {")
                          sampleLog))
           (numberToString 776) = true
      /\ forallb isDigit (numberToString 776) = true
      /\ decimalValue (numberToString 776) = 776).
Proof.
  assert (H : 1 <= 776) by lia.
  split; [exact H|].
  exact (@fixDslError_advisory_only 776
           (lit "dynamic ContainerName ErrorHandlingFlow {") sampleLog H).
Defined.

(** C10.  Whenever [processDslError] returns a record, its file holds
    no colon: it is the trimmed run of colon-free text that follows
    [ of ] in the input and stops at the next colon.  A reported path
    that itself holds a colon is therefore never the file of the
    record. *)
Theorem processDslError_file_without_colon :
  forall (errorText now : js_string) (w w' : world) (dslError : DslError),
    processDslError errorText now w = (Return (Some dslError), w') ->
    forallb notColon (filename dslError) = true
    /\ (exists pre m n f rest,
           errorText = pre ++ lit "workspace.dsl: " ++ m ++ lit " at line " ++ n
                         ++ lit " of " ++ f ++ [COLON] ++ rest
           /\ forallb notColon f = true
           /\ filename dslError = trim f)
    /\ (forall path : js_string,
           existsb (N.eqb COLON) path = true -> filename dslError <> path).
Proof.
  intros errorText now w w' d H.
  destruct (processDslError_some _ _ _ H)
    as (m & n & f & c & ((pre & post & Htext) & _ & _ & _ & _ & Hf & _)
        & -> & _ & _).
  cbn [parsedError filename].
  assert (Hnc : forallb notColon (trim f) = true) by now apply trim_forallb.
  split; [exact Hnc|]. split.
  - exists pre, m, n, f, (c ++ post).
    split; [exact Htext|]. split; [exact Hf|reflexivity].
  - intros path Hpath Heq; rewrite Heq in Hnc.
    clear - Hpath Hnc.
    induction path as [|x path IH]; cbn [existsb forallb] in *; [discriminate|].
    apply andb_prop in Hnc as [Hx Hrest].
    apply orb_prop in Hpath as [Hc|Hc]; [|auto].
    unfold notColon in Hx. rewrite N.eqb_sym in Hc. now rewrite Hc in Hx.
Qed.

Lemma processDslError_file_without_colon_witness :
  processDslError windowsPathErrorText sampleNow freshWorld
  = (Return (Some (parsedError sampleNow (lit "x") (lit "5") (lit "C")
                     (lit "\ws\workspace.dsl: model {"))),
     snd (processDslError windowsPathErrorText sampleNow freshWorld))
  /\ filename (parsedError sampleNow (lit "x") (lit "5") (lit "C")
                 (lit "\ws\workspace.dsl: model {")) = lit "C"
  /\ forallb notColon
       (filename (parsedError sampleNow (lit "x") (lit "5") (lit "C")
                    (lit "\ws\workspace.dsl: model {"))) = true
  /\ (exists pre m n f rest,
         windowsPathErrorText
         = pre ++ lit "workspace.dsl: " ++ m ++ lit " at line " ++ n
             ++ lit " of " ++ f ++ [COLON] ++ rest
         /\ forallb notColon f = true
         /\ filename (parsedError sampleNow (lit "x") (lit "5") (lit "C")
                        (lit "\ws\workspace.dsl: model {")) = trim f)
  /\ (forall path : js_string,
         existsb (N.eqb COLON) path = true ->
         filename (parsedError sampleNow (lit "x") (lit "5") (lit "C")
                     (lit "\ws\workspace.dsl: model {")) <> path).
Proof.
  assert (H : processDslError windowsPathErrorText sampleNow freshWorld
              = (Return (Some (parsedError sampleNow (lit "x") (lit "5")
                                 (lit "C") (lit "\ws\workspace.dsl: model {"))),
                 snd (processDslError windowsPathErrorText sampleNow
                                      freshWorld)))
    by (vm_compute; reflexivity).
  split; [exact H|]. split; [vm_compute; reflexivity|].
  exact (processDslError_file_without_colon _ _ _ H).
Defined.

(** * Further properties of the code *)

(** ** The three ways [processDslError] can end *)

Lemma processDslError_write_fails (errorText now m n f c : js_string)
      (w : world) :
  regexMatch dslErrorPattern errorText = Some (dslCaptures m n f c) ->
  writable w = false ->
  processDslError errorText now w
  = (Throw SystemError, snd (existingErrors (started errorText w))).
Proof.
  intros Hr Hw.
  pose proof (existingErrors_frame (started errorText w)) as (_ & Hw' & _).
  unfold processDslError; rewrite Hr; simpl capture; cbv iota zeta beta.
  change (consoleLog (lit "Processing DSL error:") (Some errorText) w)
    with (started errorText w).
  destruct (existingErrors (started errorText w)) as [items w1];
    cbn [fst snd] in *.
  unfold writeFileSync. rewrite Hw'.
  cbn [started consoleLog writable]. now rewrite Hw.
Qed.

Lemma existingErrors_console (w : world) :
  exists lines, console (snd (existingErrors w)) = console w ++ lines.
Proof.
  unfold existingErrors, existsSync, readJson.
  destruct w as [[| | |v] wr dsl con limit]; cbn;
    try (now exists []; rewrite app_nil_r);
    try (eexists; reflexivity).
  destruct (spread limit v); cbn; [now exists []; rewrite app_nil_r|].
  eexists; reflexivity.
Qed.

(** A text either has no occurrence of the shape, and is rejected, or
    has one, and then the outcome is decided by the write. *)
Lemma processDslError_cases (errorText now : js_string) (w : world) :
  (regexMatch dslErrorPattern errorText = None
   /\ (forall m n f c, ~ hasShape errorText m n f c)
   /\ processDslError errorText now w
      = (Return None,
         consoleLog (lit "Could not parse DSL error format") None
           (started errorText w)))
  \/ (exists m n f c,
         hasShape errorText m n f c
         /\ regexMatch dslErrorPattern errorText = Some (dslCaptures m n f c)
         /\ ((writable w = true
              /\ processDslError errorText now w
                 = (Return (Some (parsedError now m n f c)),
                    consoleLog (lit "DSL error processed and saved") None
                      (World
                         (Json (JArr (fst (existingErrors (started errorText w))
                                        ++ [logEntry (parsedError now m n f c)])))
                         true (workspaceDsl w)
                         (console (snd (existingErrors (started errorText w))))
                         (maxArguments w))))
             \/ (writable w = false
                 /\ processDslError errorText now w
                    = (Throw SystemError,
                       snd (existingErrors (started errorText w)))))).
Proof.
  destruct (regexMatch dslErrorPattern errorText) as [caps|] eqn:Hr.
  - right. destruct (regexMatch_shape _ Hr) as (m & n & f & c & -> & Hs).
    exists m, n, f, c. split; [exact Hs|]. split; [reflexivity|].
    destruct (writable w) eqn:Hw.
    + left; split; [reflexivity|].
      apply (processDslError_matched _ now _ Hr Hw).
    + right; split; [reflexivity|].
      eapply processDslError_write_fails; eassumption.
  - left. split; [reflexivity|]. split.
    + intros m n f c Hs. exact (shape_regexMatch Hs Hr).
    + now apply processDslError_unmatched.
Qed.

(** X1.  The [processDslError] tool never throws and its reply tells
    the three cases apart: it fails to parse exactly when the text
    holds no occurrence of the expected shape; it reports success
    exactly when the text holds one and the log can be written; it
    fails to process exactly when the text holds one and the write
    fails.  When it fails to parse, nothing was written: the log file
    and workspace.dsl are as they were. *)
Theorem processDslErrorTool_reply :
  forall (errorText now : js_string) (w : world),
    (fst (processDslErrorTool errorText now w) = FailedToParse
     <-> ~ exists m n f c, hasShape errorText m n f c)
    /\ ((exists d, fst (processDslErrorTool errorText now w)
                   = ProcessedSuccessfully d)
        <-> (exists m n f c, hasShape errorText m n f c)
            /\ writable w = true)
    /\ ((exists e, fst (processDslErrorTool errorText now w)
                   = FailedToProcess e)
        <-> (exists m n f c, hasShape errorText m n f c)
            /\ writable w = false)
    /\ (fst (processDslErrorTool errorText now w) = FailedToParse ->
        dslLogFile (snd (processDslErrorTool errorText now w)) = dslLogFile w
        /\ workspaceDsl (snd (processDslErrorTool errorText now w))
           = workspaceDsl w).
Proof.
  intros errorText now w; unfold processDslErrorTool.
  destruct (processDslError_cases errorText now w)
    as [(_ & Hno & ->) | (m & n & f & c & Hs & _ & [(Hw & ->) | (Hw & ->)])];
    cbn [fst snd].
  - split; [split; [intros _ (m & n & f & c & Hs); now apply (Hno m n f c)
                   |reflexivity]|].
    split; [split; [intros (d & Hd'); discriminate
                   |intros ((m & n & f & c & Hs) & _); now apply Hno in Hs]|].
    split; [split; [intros (e & He); discriminate
                   |intros ((m & n & f & c & Hs) & _); now apply Hno in Hs]|].
    intros _; split; reflexivity.
  - split; [split; [discriminate|intros Hno; exfalso; apply Hno; eauto 6]|].
    split; [split; [intros _; split; [eauto 6|exact Hw]|intros _; eauto]|].
    split; [split; [intros (e & He); discriminate
                   |intros (_ & Hw'); congruence]|].
    discriminate.
  - split; [split; [discriminate|intros Hno; exfalso; apply Hno; eauto 6]|].
    split; [split; [intros (d & Hd'); discriminate
                   |intros (_ & Hw'); congruence]|].
    split; [split; [intros _; split; [eauto 6|exact Hw]|intros _; eauto]|].
    discriminate.
Qed.

(** ** Appending *)

(** X2.  An append keeps an array log as long as the array fits into
    one call.  After a successful [processDslError] on a log that
    holds an array of no more entries than the engine takes arguments,
    the log is the old array with the new entry at its end.  On a
    longer array the spread throws: the RangeError goes to the console
    and the log is rewritten with the new entry alone, all earlier
    entries lost.  workspace.dsl is as before in both cases. *)
Theorem processDslError_keeps_entries :
  forall (errorText now : js_string) (w w' : world) (d : DslError)
         (items : list json),
    dslLogFile w = Json (JArr items) ->
    processDslError errorText now w = (Return (Some d), w') ->
    (Z.of_nat (List.length items) <= maxArguments w ->
     dslLogFile w' = Json (JArr (items ++ [logEntry d])))
    /\ (maxArguments w < Z.of_nat (List.length items) ->
        dslLogFile w' = Json (JArr [logEntry d])
        /\ console w'
           = console w
               ++ [Log (lit "Processing DSL error:") (Some errorText);
                   Error (lit "Error reading existing DSL errors:") RangeError;
                   Log (lit "DSL error processed and saved") None])
    /\ workspaceDsl w' = workspaceDsl w.
Proof.
  intros errorText now w w' d items Hlog H.
  split; [intros Hl; exact (processDslError_appends _ _ _ Hlog Hl H)|].
  destruct (processDslError_some _ _ _ H) as (m & n & f & c & _ & _ & _ & ->).
  split; [|reflexivity].
  intros Hl.
  rewrite (@existingErrors_overflow (started errorText w) items)
    by (rewrite ?started_log, ?started_limit; assumption).
  cbn. rewrite <- !app_assoc. split; reflexivity.
Qed.

Lemma processDslError_keeps_entries_witness :
  (dslLogFile sampleLog
   = Json (JArr (map logEntry [firstError; secondError; thirdError]))
   /\ processDslError relationshipErrorText sampleNow sampleLog
      = (Return (Some secondError),
         snd (processDslError relationshipErrorText sampleNow sampleLog)))
  /\ Z.of_nat (List.length (map logEntry [firstError; secondError; thirdError]))
     <= maxArguments sampleLog
  /\ dslLogFile (snd (processDslError relationshipErrorText sampleNow sampleLog))
     = Json (JArr (map logEntry [firstError; secondError; thirdError]
                     ++ [logEntry secondError])).
Proof.
  assert (H : processDslError relationshipErrorText sampleNow sampleLog
              = (Return (Some secondError),
                 snd (processDslError relationshipErrorText sampleNow
                                      sampleLog)))
    by (vm_compute; reflexivity).
  assert (Hl : Z.of_nat (List.length
                           (map logEntry [firstError; secondError; thirdError]))
               <= maxArguments sampleLog)
    by (vm_compute; discriminate).
  split; [split; [reflexivity|exact H]|].
  split; [exact Hl|].
  exact (proj1 (@processDslError_keeps_entries relationshipErrorText sampleNow
                  sampleLog _ secondError
                  (map logEntry [firstError; secondError; thirdError])
                  eq_refl H) Hl).
Defined.

(** X3.  A log that holds JSON which is not an array is not an error
    for the append.  A JSON string is spread into its code points,
    which become the entries before the new one, as long as they are
    no more than one call takes arguments.  Any other value (null, a
    boolean, a number, an object) cannot be spread: the TypeError goes
    to the console and the log is rewritten with the new entry
    alone. *)
Theorem processDslError_on_other_json :
  forall (errorText now : js_string) (w w' : world) (d : DslError) (v : json),
    dslLogFile w = Json v ->
    processDslError errorText now w = (Return (Some d), w') ->
    (forall s, v = JStr s ->
        Z.of_nat (List.length (codePoints s)) <= maxArguments w ->
        dslLogFile w'
        = Json (JArr (map JStr (codePoints s) ++ [logEntry d])))
    /\ ((v = JNull \/ (exists b, v = JBool b) \/ (exists z, v = JNum z)
         \/ (exists fields, v = JObj fields)) ->
        dslLogFile w' = Json (JArr [logEntry d])
        /\ console w'
           = console w
               ++ [Log (lit "Processing DSL error:") (Some errorText);
                   Error (lit "Error reading existing DSL errors:") TypeError;
                   Log (lit "DSL error processed and saved") None]).
Proof.
  intros errorText now w w' d v Hlog H.
  destruct (processDslError_some _ _ _ H) as (m & n & f & c & _ & _ & _ & ->).
  unfold existingErrors, existsSync, readJson, spread.
  rewrite started_log, started_limit, Hlog.
  split.
  - intros s -> Hl. cbn [consoleLog dslLogFile].
    rewrite length_map. apply Z.leb_le in Hl. now rewrite Hl.
  - intros [-> | [(b & ->) | [(z & ->) | (fields & ->)]]]; cbn;
      rewrite <- !app_assoc; split; reflexivity.
Qed.

Lemma processDslError_on_other_json_witness :
  (dslLogFile textLog = Json (JStr (lit "ab"))
   /\ processDslError lineZeroErrorText sampleNow textLog
      = (Return (Some thirdError),
         snd (processDslError lineZeroErrorText sampleNow textLog)))
  /\ Z.of_nat (List.length (codePoints (lit "ab"))) <= maxArguments textLog
  /\ dslLogFile (snd (processDslError lineZeroErrorText sampleNow textLog))
     = Json (JArr (map JStr (codePoints (lit "ab")) ++ [logEntry thirdError])).
Proof.
  assert (H : processDslError lineZeroErrorText sampleNow textLog
              = (Return (Some thirdError),
                 snd (processDslError lineZeroErrorText sampleNow textLog)))
    by (vm_compute; reflexivity).
  assert (Hl : Z.of_nat (List.length (codePoints (lit "ab")))
               <= maxArguments textLog)
    by (vm_compute; discriminate).
  split; [split; [reflexivity|exact H]|].
  split; [exact Hl|].
  exact (proj1 (@processDslError_on_other_json lineZeroErrorText sampleNow
                  textLog _ thirdError (JStr (lit "ab")) eq_refl H)
           (lit "ab") eq_refl Hl).
Defined.

(** ** Reading the log back *)

(** X4.  What was just appended is what is read back: after a
    successful [processDslError] on a log that was not unreadable,
    [getDslErrors] with a count of 1 reports exactly the entry of the
    record returned, and changes nothing.  This holds also when the
    append lost the earlier entries. *)
Theorem getDslErrors_after_append :
  forall (errorText now : js_string) (w w' : world) (d : DslError),
    dslLogFile w <> Unreadable ->
    processDslError errorText now w = (Return (Some d), w') ->
    getDslErrors 1 w' = (FoundErrors [logEntry d], w').
Proof.
  intros errorText now w w' d _ H.
  destruct (processDslError_log_array _ _ _ H) as (items & Hlog).
  unfold getDslErrors, readJson; rewrite Hlog.
  rewrite slice_last by lia.
  rewrite length_app; cbn [List.length].
  replace (List.length items + 1 - Z.to_nat 1)%nat with (List.length items)
    by lia.
  rewrite skipn_length_app. cbn [List.length Nat.eqb forallb].
  now rewrite logEntry_summarised.
Qed.

Lemma getDslErrors_after_append_witness :
  (dslLogFile (snd afterFirst) <> Unreadable
   /\ afterSecond = (Return (Some secondError), snd afterSecond))
  /\ getDslErrors 1 (snd afterSecond)
     = (FoundErrors [logEntry secondError], snd afterSecond).
Proof.
  assert (H0 : dslLogFile (snd afterFirst) <> Unreadable)
    by (vm_compute; discriminate).
  assert (H : afterSecond = (Return (Some secondError), snd afterSecond))
    by (vm_compute; reflexivity).
  split; [split; [exact H0|exact H]|].
  exact (@getDslErrors_after_append relationshipErrorText sampleNow
           (snd afterFirst) (snd afterSecond) secondError H0 H).
Defined.

(** X5.  [getDslErrors] only reads.  Whatever the count and the state
    of the log, the log file, the disk and workspace.dsl are as before;
    and without a log it can parse it replies with a failure instead of
    throwing: a system error for a missing or unreadable file, a
    syntax error for text that is not JSON. *)
Theorem getDslErrors_read_only :
  forall (count : Z) (w : world),
    dslLogFile (snd (getDslErrors count w)) = dslLogFile w
    /\ writable (snd (getDslErrors count w)) = writable w
    /\ workspaceDsl (snd (getDslErrors count w)) = workspaceDsl w
    /\ (dslLogFile w = Missing \/ dslLogFile w = Unreadable ->
        fst (getDslErrors count w) = FailedToRetrieve SystemError)
    /\ (dslLogFile w = Garbage ->
        fst (getDslErrors count w) = FailedToRetrieve SyntaxError).
Proof.
  intros count w; unfold getDslErrors, readJson.
  destruct w as [[| | |v] wr dsl con limit]; cbn [dslLogFile].
  1-3: cbn; repeat split; try reflexivity;
    try (intros [H|H]; discriminate); intros H; discriminate.
  assert (Hno : forall A (x : A), (Json v = Missing \/ Json v = Unreadable -> x = x)
                                   /\ (Json v = Garbage -> x = x))
    by (intros; split; reflexivity).
  destruct v as [| | |s|errors|]; cbn;
    try (repeat split; try reflexivity;
         try (intros [H|H]; discriminate); intros H; discriminate).
  - destruct (List.length (slice (- count) s) =? 0)%nat; cbn;
      repeat split; try reflexivity;
      try (intros [H|H]; discriminate); intros H; discriminate.
  - destruct (List.length (slice (- count) errors) =? 0)%nat;
      [|destruct (forallb summarised (slice (- count) errors))]; cbn;
      repeat split; try reflexivity;
      try (intros [H|H]; discriminate); intros H; discriminate.
Qed.

(** X6.  When [getDslErrors] does report entries, they are a part of an
    array log: a count is answered with entries exactly when the log
    holds an array whose [slice(-count)] is not empty and holds only
    entries from which a line of the summary can be built.  A null
    entry, or an entry whose message, line or file is an object with a
    key [toString] (or an array holding one), makes the reply a failure
    although the log is sound JSON. *)
Theorem getDslErrors_found_iff :
  forall (count : Z) (w : world) (recent : list json),
    fst (getDslErrors count w) = FoundErrors recent
    <-> exists errors,
          dslLogFile w = Json (JArr errors)
          /\ recent = slice (- count) errors
          /\ recent <> []
          /\ forallb summarised recent = true.
Proof.
  intros count w recent; unfold getDslErrors, readJson.
  destruct (dslLogFile w) as [| | |v] eqn:Hlog; cbn.
  1-3: split; [discriminate|intros (errors & H & _); discriminate].
  destruct v as [| | |s|errors|]; cbn;
    try (split; [discriminate|intros (errors' & H & _); discriminate]).
  - destruct (List.length (slice (- count) s) =? 0)%nat; cbn;
      (split; [discriminate|intros (errors' & H & _); discriminate]).
  - destruct (slice (- count) errors) as [|x xs] eqn:Hs; cbn.
    + split; [discriminate|].
      intros (errors' & H & -> & Hne & _). injection H as <-.
      now rewrite Hs in Hne.
    + destruct (summarised x && forallb summarised xs) eqn:Hsum; cbn.
      * split.
        -- intros [= <-]. exists errors.
           repeat split; [now symmetry|discriminate|exact Hsum].
        -- intros (errors' & H & -> & _). injection H as <-.
           now rewrite Hs.
      * split; [discriminate|].
        intros (errors' & H & -> & _ & Hnn). injection H as <-.
        rewrite Hs in Hnn. cbn in Hnn. congruence.
Qed.

(** ** Clearing and starting *)

(** X8.  The start-up creates the log only when it is missing.  A file
    that exists is left as it is, whatever it holds; a missing one, on
    a writable disk, becomes the empty array, after which
    [getDslErrors] reports no errors where before it failed; and the
    start-up run a second time changes nothing. *)
Theorem initDslLogFile_creates_once :
  forall w : world,
    (dslLogFile w <> Missing -> initDslLogFile w = Return w)
    /\ (dslLogFile w = Missing -> writable w = true ->
        exists w',
          initDslLogFile w = Return w'
          /\ dslLogFile w' = Json (JArr [])
          /\ initDslLogFile w' = Return w'
          /\ (forall count,
                 fst (getDslErrors count w) = FailedToRetrieve SystemError
                 /\ fst (getDslErrors count w') = NoErrorsFound))
    /\ (dslLogFile w = Missing -> writable w = false ->
        initDslLogFile w = Throw SystemError).
Proof.
  intros w; unfold initDslLogFile, existsSync, writeFileSync.
  destruct w as [[| | |v] wr dsl con limit]; cbn [dslLogFile writable];
    (split; [intros H; try congruence; reflexivity|]);
    (split; [|intros H Hw; try discriminate; now rewrite Hw]);
    intros H Hw; try discriminate.
  rewrite Hw; cbn. eexists; split; [reflexivity|].
  split; [reflexivity|]. split; [reflexivity|].
  intros count; unfold getDslErrors, readJson, slice; cbn.
  now rewrite skipn_nil.
Qed.

Lemma initDslLogFile_creates_once_witness :
  (dslLogFile garbageWorld <> Missing
   /\ dslLogFile freshWorld = Missing /\ writable freshWorld = true)
  /\ initDslLogFile garbageWorld = Return garbageWorld
  /\ exists w',
       initDslLogFile freshWorld = Return w'
       /\ dslLogFile w' = Json (JArr [])
       /\ initDslLogFile w' = Return w'
       /\ (forall count,
              fst (getDslErrors count freshWorld) = FailedToRetrieve SystemError
              /\ fst (getDslErrors count w') = NoErrorsFound).
Proof.
  assert (H1 : dslLogFile garbageWorld <> Missing) by discriminate.
  split; [split; [exact H1|split; reflexivity]|].
  split.
  - exact (proj1 (initDslLogFile_creates_once garbageWorld) H1).
  - exact (proj1 (proj2 (initDslLogFile_creates_once freshWorld))
                 eq_refl eq_refl).
Defined.

(** ** Rule order of the suggestion matcher *)

(** X9.  The first rule wins and nothing else gives its pair: the
    dynamic view suggestion is returned exactly when the message holds
    [Unexpected tokens] and the context holds [dynamic], also when the
    message speaks of a relationship; and the relationship suggestion
    exactly when that is not so and the message holds [relationship]. *)
Theorem getSuggestionForError_rules :
  forall message context : js_string,
    (getSuggestionForError message context = dynamicViewSuggestion
     <-> includes message (lit "Unexpected tokens") = true
         /\ includes context (lit "dynamic") = true)
    /\ (getSuggestionForError message context = relationshipSuggestion
        <-> (includes message (lit "Unexpected tokens") = false
             \/ includes context (lit "dynamic") = false)
            /\ includes message (lit "relationship") = true).
Proof.
  intros message context.
  destruct suggestions_distinct as (Hdr & Hdg & Hrg).
  assert (Hunk : includes message (lit "relationship") = false ->
                 includes message (lit "Unknown relationship") = false).
  { intros Hno.
    destruct (includes message (lit "Unknown relationship")) eqn:Hu;
      [|reflexivity].
    change (lit "Unknown relationship")
      with (lit "Unknown " ++ lit "relationship" ++ []) in Hu.
    apply includes_part in Hu. congruence. }
  unfold getSuggestionForError.
  destruct (includes message (lit "Unexpected tokens")) eqn:Ht;
    destruct (includes context (lit "dynamic")) eqn:Hd; cbn [andb].
  - split; [split; auto|].
    split; [intros H; now symmetry in H|].
    intros ([H|H] & _); discriminate.
  - destruct (includes message (lit "relationship")) eqn:Hr.
    + rewrite orb_true_r.
      split; [split; [intros H; now symmetry in H|intros (_ & H); discriminate]|].
      split; auto.
    + rewrite (Hunk eq_refl). cbn [orb].
      split; [split; [intros H; now symmetry in H|intros (_ & H); discriminate]|].
      split; [intros H; now symmetry in H|intros (_ & H); discriminate].
  - destruct (includes message (lit "relationship")) eqn:Hr.
    + rewrite orb_true_r.
      split; [split; [intros H; now symmetry in H|intros (H & _); discriminate]|].
      split; auto.
    + rewrite (Hunk eq_refl). cbn [orb].
      split; [split; [intros H; now symmetry in H|intros (H & _); discriminate]|].
      split; [intros H; now symmetry in H|intros (_ & H); discriminate].
  - destruct (includes message (lit "relationship")) eqn:Hr.
    + rewrite orb_true_r.
      split; [split; [intros H; now symmetry in H|intros (H & _); discriminate]|].
      split; auto.
    + rewrite (Hunk eq_refl). cbn [orb].
      split; [split; [intros H; now symmetry in H|intros (H & _); discriminate]|].
      split; [intros H; now symmetry in H|intros (_ & H); discriminate].
Qed.

(** ** The console listener *)

Lemma strictEquals_eq (a b : js_string) : strictEquals a b = true <-> a = b.
Proof.
  revert b; induction a as [|x a IH]; intros [|y b]; cbn;
    try (split; [discriminate|discriminate]); [split; reflexivity|].
  rewrite andb_true_iff, N.eqb_eq, IH.
  split; [intros [-> ->]; reflexivity|intros [= -> ->]; auto].
Qed.

(** A text with the shape mentions workspace.dsl. *)
Lemma shape_mentions_workspace (text m n f c : js_string) :
  hasShape text m n f c -> includes text (lit "workspace.dsl") = true.
Proof.
  intros Hs. destruct (shape_markers Hs) as [H _].
  change (lit "workspace.dsl:") with ([] ++ lit "workspace.dsl" ++ [COLON]) in H.
  now apply includes_part in H.
Qed.

(** X10.  The filter of the console listener loses no error that the
    extractor could read.  A message that is not of type [error], or
    whose text does not mention workspace.dsl, changes nothing at all;
    and such a text would have been rejected anyway.  An [error]
    message whose text has the expected shape always reaches
    [processDslError]: the listener leaves the world that call leaves,
    and throws only what it throws. *)
Theorem onConsoleMessage_filter :
  forall (type text now : js_string) (w : world),
    (type <> lit "error" \/ includes text (lit "workspace.dsl") = false ->
     onConsoleMessage type text now w = (Return tt, w))
    /\ (includes text (lit "workspace.dsl") = false ->
        fst (processDslError text now w) = Return None)
    /\ (type = lit "error" ->
        (exists m n f c, hasShape text m n f c) ->
        snd (onConsoleMessage type text now w)
        = snd (processDslError text now w)
        /\ (fst (onConsoleMessage type text now w) = Return tt
            <-> writable w = true)).
Proof.
  intros type text now w; unfold onConsoleMessage. split; [|split].
  - intros [Hty | Hno].
    + destruct (strictEquals type (lit "error")) eqn:He; [|reflexivity].
      apply strictEquals_eq in He. contradiction.
    + rewrite Hno, andb_false_r. reflexivity.
  - intros Hno.
    destruct (processDslError_cases text now w)
      as [(_ & _ & ->) | (m & n & f & c & Hs & _)]; [reflexivity|].
    rewrite (shape_mentions_workspace Hs) in Hno. discriminate.
  - intros -> (m0 & n0 & f0 & c0 & Hs0).
    rewrite (shape_mentions_workspace Hs0).
    replace (strictEquals (lit "error") (lit "error")) with true
      by (symmetry; now apply strictEquals_eq).
    cbn [andb].
    destruct (processDslError_cases text now w)
      as [(_ & Hno & _) | (m & n & f & c & _ & _ & [(Hw & ->) | (Hw & ->)])].
    + now apply Hno in Hs0.
    + cbn [fst snd]. split; [reflexivity|]. split; auto.
    + cbn [fst snd]. split; [reflexivity|].
      split; [discriminate|congruence].
Qed.

(** ** Text before the error *)

Lemma run_dslErrorPattern_off (A : Type) (x : code_unit) (s : js_string)
      (caps : captures) (k : cont A) :
  (x =? 119)%N = false ->
  run dslErrorPattern (x :: s) caps k = None.
Proof.
  intros Hx. unfold dslErrorPattern.
  cbn [run]. change (lit "workspace.dsl: ") with (119%N :: lit "orkspace.dsl: ").
  cbn [startsWith]. rewrite N.eqb_sym, Hx. reflexivity.
Qed.

Lemma regexMatch_skips_prefix (pre s : js_string) :
  forallb (fun x => negb (x =? 119)%N) pre = true ->
  regexMatch dslErrorPattern (pre ++ s) = regexMatch dslErrorPattern s.
Proof.
  induction pre as [|x pre IH]; intros H; [reflexivity|].
  cbn [forallb] in H. apply andb_prop in H as [Hx Hpre].
  apply negb_true_iff in Hx.
  cbn [app regexMatch]. rewrite (run_dslErrorPattern_off _ _ _ _ Hx).
  now apply IH.
Qed.

(** X11.  The pattern is not anchored, so text in front of the error
    does not matter: a prefix in which the letter [w] does not occur,
    such as the [DSL Error: ] that the page monitor puts before the
    text, changes neither the record returned nor the log written. *)
Theorem processDslError_ignores_prefix :
  forall (pre errorText now : js_string) (w : world),
    forallb (fun x => negb (x =? 119)%N) pre = true ->
    fst (processDslError (pre ++ errorText) now w)
    = fst (processDslError errorText now w)
    /\ dslLogFile (snd (processDslError (pre ++ errorText) now w))
       = dslLogFile (snd (processDslError errorText now w)).
Proof.
  intros pre errorText now w Hpre.
  pose proof (regexMatch_skips_prefix _ errorText Hpre) as Hr.
  pose proof (existingErrors_frame (started errorText w)) as (Hf & Hw & _).
  pose proof (existingErrors_frame (started (pre ++ errorText) w))
    as (Hf' & Hw' & _).
  assert (Hitems : fst (existingErrors (started (pre ++ errorText) w))
                   = fst (existingErrors (started errorText w))).
  { unfold existingErrors, existsSync, readJson.
    rewrite !started_log, !started_limit.
    destruct (dslLogFile w) as [| | |v]; try reflexivity.
    destruct (spread (maxArguments w) v); reflexivity. }
  destruct (processDslError_cases errorText now w)
    as [(Hnone & _ & ->) | (m & n & f & c & _ & Hsome & [(Hwr & ->) | (Hwr & ->)])].
  - rewrite (processDslError_unmatched _ now w) by congruence.
    split; reflexivity.
  - rewrite (@processDslError_matched _ now m n f c w) by congruence.
    cbn [fst snd dslLogFile consoleLog]. now rewrite Hitems.
  - rewrite (@processDslError_write_fails _ now m n f c w) by congruence.
    cbn [fst snd]. split; [reflexivity|]. now rewrite Hf, Hf'.
Qed.

Lemma processDslError_ignores_prefix_witness :
  forallb (fun x => negb (x =? 119)%N) (lit "DSL Error: ") = true
  /\ fst (processDslError (lit "DSL Error: " ++ dynamicViewErrorText)
            sampleNow freshWorld)
     = fst (processDslError dynamicViewErrorText sampleNow freshWorld)
  /\ dslLogFile (snd (processDslError (lit "DSL Error: " ++ dynamicViewErrorText)
                        sampleNow freshWorld))
     = dslLogFile (snd (processDslError dynamicViewErrorText sampleNow
                                        freshWorld)).
Proof.
  assert (H : forallb (fun x => negb (x =? 119)%N) (lit "DSL Error: ") = true)
    by (vm_compute; reflexivity).
  split; [exact H|].
  exact (@processDslError_ignores_prefix (lit "DSL Error: ")
           dynamicViewErrorText sampleNow freshWorld H).
Defined.

(** ** The fields of a record *)

Lemma trimStart_head (s : js_string) (c : code_unit) (rest : js_string) :
  trimStart s = c :: rest -> isWhiteSpace c = false.
Proof.
  induction s as [|x s IH]; cbn; [discriminate|].
  destruct (isWhiteSpace x) eqn:Hx; [exact IH|].
  intros [= <- _]; exact Hx.
Qed.

Lemma trimStart_snoc (l : js_string) (c : code_unit) :
  isWhiteSpace c = false -> trimStart (l ++ [c]) = trimStart l ++ [c].
Proof.
  intros Hc; induction l as [|x l IH]; cbn; [now rewrite Hc|].
  destruct (isWhiteSpace x); [exact IH|reflexivity].
Qed.

Lemma trim_trimmed (s : js_string) : trimmed (trim s).
Proof.
  unfold trim, trimEnd; split.
  - intros c rest H.
    destruct (trimStart s) as [|c0 t] eqn:Ht; [discriminate|].
    pose proof (trimStart_head _ Ht) as Hc0.
    cbn [rev] in H. rewrite (@trimStart_snoc (rev t) c0 Hc0), rev_app_distr in H.
    cbn in H. now injection H as <- _.
  - intros init c H.
    apply (f_equal (@rev code_unit)) in H.
    rewrite rev_involutive, rev_app_distr in H. cbn in H.
    now apply trimStart_head in H.
Qed.

(** X12.  The text fields of a returned record are clean: message, file
    and context neither start nor end with white space, and message
    and context hold no line terminator, so each is a single line. *)
Theorem processDslError_fields_clean :
  forall (errorText now : js_string) (w w' : world) (d : DslError),
    processDslError errorText now w = (Return (Some d), w') ->
    trimmed (message d) /\ trimmed (filename d) /\ trimmed (context d)
    /\ forallb notLineTerminator (message d) = true
    /\ forallb notLineTerminator (context d) = true.
Proof.
  intros errorText now w w' d H.
  destruct (processDslError_some _ _ _ H)
    as (m & n & f & c & (_ & Hm & _ & _ & _ & _ & Hc) & -> & _ & _).
  cbn [parsedError message filename context].
  repeat split; try apply trim_trimmed; now apply trim_forallb.
Qed.

Lemma processDslError_fields_clean_witness :
  afterFirst = (Return (Some firstError), snd afterFirst)
  /\ trimmed (message firstError) /\ trimmed (filename firstError)
  /\ trimmed (context firstError)
  /\ forallb notLineTerminator (message firstError) = true
  /\ forallb notLineTerminator (context firstError) = true.
Proof.
  assert (H : afterFirst = (Return (Some firstError), snd afterFirst))
    by (vm_compute; reflexivity).
  split; [exact H|].
  exact (@processDslError_fields_clean dynamicViewErrorText sampleNow
           freshWorld (snd afterFirst) firstError H).
Defined.

(** ** The line of a record *)

(** X13.  The line of a returned record is never NaN and never
    negative.  It is a non-negative integer within one part in 2^53 of
    the value the digits spell, or it is plus infinity, and that only
    for digits worth 2^1023 or more. *)
Theorem processDslError_line_range :
  forall (errorText now : js_string) (w w' : world) (d : DslError),
    processDslError errorText now w = (Return (Some d), w') ->
    exists m n f c,
      hasShape errorText m n f c
      /\ ((exists v, line d = Int v /\ 0 <= v
                     /\ Z.abs (v - decimalValue n) * 2 ^ 53 <= decimalValue n)
          \/ (line d = Infinity false /\ 2 ^ 1023 <= decimalValue n)).
Proof.
  intros errorText now w w' d H.
  destruct (processDslError_some _ _ _ H) as (m & n & f & c & Hs & -> & _ & _).
  exists m, n, f, c. split; [exact Hs|].
  destruct Hs as (_ & _ & Hn & Hnd & _).
  cbn [parsedError line]. rewrite (parseInt10_digits Hn Hnd).
  apply roundToDouble_bound, decimalValue_nonneg.
Qed.

Lemma processDslError_line_range_witness :
  processDslError hugeLineErrorText sampleNow freshWorld
  = (Return (Some (parsedError sampleNow (lit "x") (lit "9007199254740993")
                     (lit "f") (lit "c"))),
     snd (processDslError hugeLineErrorText sampleNow freshWorld))
  /\ exists m n f c,
      hasShape hugeLineErrorText m n f c
      /\ ((exists v,
             line (parsedError sampleNow (lit "x") (lit "9007199254740993")
                     (lit "f") (lit "c")) = Int v
             /\ 0 <= v
             /\ Z.abs (v - decimalValue n) * 2 ^ 53 <= decimalValue n)
          \/ (line (parsedError sampleNow (lit "x") (lit "9007199254740993")
                      (lit "f") (lit "c")) = Infinity false
              /\ 2 ^ 1023 <= decimalValue n)).
Proof.
  assert (H : processDslError hugeLineErrorText sampleNow freshWorld
              = (Return (Some (parsedError sampleNow (lit "x")
                                 (lit "9007199254740993") (lit "f") (lit "c"))),
                 snd (processDslError hugeLineErrorText sampleNow freshWorld)))
    by (vm_compute; reflexivity).
  split; [exact H|].
  exact (processDslError_line_range _ _ _ H).
Defined.

(** ** The launcher's command line *)

Lemma parseArgs_plain (pre : list js_string) : forall rest port auto,
  forallb plainArgument pre = true ->
  parseArgs (pre ++ rest) port auto
  = parseArgs rest port (auto || existsb isAutoConnect pre).
Proof.
  induction pre as [|x pre IH]; intros rest port auto H.
  - cbn. now rewrite orb_false_r.
  - cbn [forallb] in H. apply andb_prop in H as [Hx Hpre].
    unfold plainArgument in Hx. apply andb_prop in Hx as [Hport Hhelp].
    apply negb_true_iff in Hport, Hhelp.
    cbn [app parseArgs existsb]. rewrite Hport, Hhelp.
    unfold isAutoConnect at 1.
    destruct (strictEquals x (lit "--auto-connect")); cbn [orb].
    + rewrite IH by assumption. now rewrite orb_true_r.
    + rewrite IH by assumption. reflexivity.
Qed.

Lemma parseArgs_port (value : js_string) (rest : list js_string) port auto :
  parseArgs (lit "--port" :: value :: rest) port auto
  = parseArgs rest (parseInt10 value) auto.
Proof.
  cbn [parseArgs].
  replace (strictEquals (lit "--port") (lit "--port")) with true
    by (vm_compute; reflexivity).
  reflexivity.
Qed.

(** X14.  [--port] takes whatever follows it as its value, with no
    check.  Among arguments that are otherwise neither [--port] nor
    [--help], the port becomes [parseInt] of the next argument, also
    when that argument is itself an option, which is then not read as
    one; a value that starts with neither white space, a sign nor a
    digit leaves the port NaN; and a [--port] that ends the command
    line is ignored. *)
Theorem launcherOptions_port :
  forall (pre post : list js_string) (value : js_string),
    forallb plainArgument pre = true ->
    forallb plainArgument post = true ->
    launcherOptions (pre ++ lit "--port" :: value :: post)
    = Launch (mkLauncherOptions (parseInt10 value)
                (existsb isAutoConnect pre || existsb isAutoConnect post))
    /\ (digitsPrefix value = [] -> isWhiteSpace (hd 0%N value) = false ->
        hd 0%N value <> 45%N -> hd 0%N value <> 43%N ->
        launcherOptions (pre ++ lit "--port" :: value :: post)
        = Launch (mkLauncherOptions NaN
                    (existsb isAutoConnect pre || existsb isAutoConnect post)))
    /\ launcherOptions (pre ++ [lit "--port"])
       = Launch (mkLauncherOptions (Int 8080) (existsb isAutoConnect pre)).
Proof.
  intros pre post value Hpre Hpost; unfold launcherOptions.
  assert (Hmain : parseArgs (pre ++ lit "--port" :: value :: post) (Int 8080) false
                  = Launch (mkLauncherOptions (parseInt10 value)
                              (existsb isAutoConnect pre
                               || existsb isAutoConnect post))).
  { rewrite parseArgs_plain by assumption. rewrite parseArgs_port.
    rewrite <- (app_nil_r post) at 1.
    rewrite parseArgs_plain by assumption. reflexivity. }
  split; [exact Hmain|]. split.
  - intros Hnodigit Hws Hminus Hplus. rewrite Hmain. do 2 f_equal.
    unfold parseInt10.
    destruct value as [|c value]; [reflexivity|].
    cbn [hd] in *. cbn [trimStart]. rewrite Hws.
    apply N.eqb_neq in Hminus, Hplus. rewrite Hminus, Hplus.
    now rewrite Hnodigit.
  - rewrite parseArgs_plain by assumption. reflexivity.
Qed.

Lemma launcherOptions_port_witness :
  (forallb plainArgument [lit "--auto-connect"] = true
   /\ forallb plainArgument [lit "extra"] = true)
  /\ launcherOptions ([lit "--auto-connect"]
                        ++ lit "--port" :: lit "9090" :: [lit "extra"])
     = Launch (mkLauncherOptions (parseInt10 (lit "9090"))
                 (existsb isAutoConnect [lit "--auto-connect"]
                  || existsb isAutoConnect [lit "extra"]))
  /\ parseInt10 (lit "9090") = Int 9090
  /\ (digitsPrefix (lit "help") = [] ->
      isWhiteSpace (hd 0%N (lit "help")) = false ->
      hd 0%N (lit "help") <> 45%N -> hd 0%N (lit "help") <> 43%N ->
      launcherOptions ([lit "--auto-connect"]
                         ++ lit "--port" :: lit "help" :: [lit "extra"])
      = Launch (mkLauncherOptions NaN
                  (existsb isAutoConnect [lit "--auto-connect"]
                   || existsb isAutoConnect [lit "extra"])))
  /\ launcherOptions ([lit "--auto-connect"] ++ [lit "--port"])
     = Launch (mkLauncherOptions (Int 8080)
                 (existsb isAutoConnect [lit "--auto-connect"])).
Proof.
  assert (H1 : forallb plainArgument [lit "--auto-connect"] = true)
    by (vm_compute; reflexivity).
  assert (H2 : forallb plainArgument [lit "extra"] = true)
    by (vm_compute; reflexivity).
  split; [split; assumption|].
  split; [exact (proj1 (@launcherOptions_port _ _ (lit "9090") H1 H2))|].
  split; [vm_compute; reflexivity|].
  split; [exact (proj1 (proj2 (@launcherOptions_port _ _ (lit "help") H1 H2)))|].
  exact (proj2 (proj2 (@launcherOptions_port _ _ (lit "9090") H1 H2))).
Defined.

Lemma parseArgs_without_help (args : list js_string) :
  (Forall (fun arg => arg <> lit "--help") args ->
   forall port auto, exists options, parseArgs args port auto = Launch options)
  /\ (forall arg, Forall (fun a => a <> lit "--help") (arg :: args) ->
      forall port auto,
        exists options, parseArgs (arg :: args) port auto = Launch options).
Proof.
  induction args as [|y args [IH1 IH2]].
  - split; [intros _ port auto; eexists; reflexivity|].
    intros arg Hno port auto. inversion Hno as [|? ? Harg _]; subst.
    cbn [parseArgs].
    assert (Hh : strictEquals arg (lit "--help") = false).
    { destruct (strictEquals arg (lit "--help")) eqn:E; [|reflexivity].
      apply strictEquals_eq in E. contradiction. }
    rewrite Hh.
    destruct (strictEquals arg (lit "--port"));
      destruct (strictEquals arg (lit "--auto-connect")); eexists; reflexivity.
  - split; [intros Hno; now apply IH2|].
    intros arg Hno port auto.
    inversion Hno as [|? ? Harg Hrest]; subst.
    inversion Hrest as [|? ? Hy Hargs]; subst.
    assert (Hh : strictEquals arg (lit "--help") = false).
    { destruct (strictEquals arg (lit "--help")) eqn:E; [|reflexivity].
      apply strictEquals_eq in E. contradiction. }
    cbn [parseArgs]. rewrite Hh.
    destruct (strictEquals arg (lit "--port")).
    + now apply IH1.
    + destruct (strictEquals arg (lit "--auto-connect")); now apply IH2.
Qed.

(** X15.  The launcher goes on to start the server exactly when no
    [--help] is read as an option.  Without [--help] among the
    arguments it always starts; without [--port] either, the port is
    the default 8080 and auto-connect is on exactly when
    [--auto-connect] was given; and a [--help] met before any [--port]
    ends in the help text whatever follows it. *)
Theorem launcherOptions_help :
  forall args : list js_string,
    (Forall (fun arg => arg <> lit "--help") args ->
     exists options, launcherOptions args = Launch options)
    /\ (forallb plainArgument args = true ->
        launcherOptions args
        = Launch (mkLauncherOptions (Int 8080) (existsb isAutoConnect args)))
    /\ (forall pre post,
           args = pre ++ lit "--help" :: post ->
           forallb plainArgument pre = true ->
           launcherOptions args = HelpAndExit).
Proof.
  intros args; unfold launcherOptions. split; [|split].
  - intros Hno. now apply (proj1 (parseArgs_without_help args)).
  - intros Hplain. rewrite <- (app_nil_r args) at 1.
    rewrite parseArgs_plain by assumption. reflexivity.
  - intros pre post -> Hpre.
    rewrite parseArgs_plain by assumption.
    cbn [parseArgs].
    replace (strictEquals (lit "--help") (lit "--port")) with false
      by (vm_compute; reflexivity).
    replace (strictEquals (lit "--help") (lit "--auto-connect")) with false
      by (vm_compute; reflexivity).
    replace (strictEquals (lit "--help") (lit "--help")) with true
      by (vm_compute; reflexivity).
    now destruct post.
Qed.

Lemma launcherOptions_help_witness :
  (Forall (fun arg => arg <> lit "--help") [lit "--port"; lit "--help-me"]
   /\ forallb plainArgument [lit "--auto-connect"; lit "x"] = true
   /\ [lit "x"; lit "--help"; lit "--port"]
      = [lit "x"] ++ lit "--help" :: [lit "--port"]
   /\ forallb plainArgument [lit "x"] = true)
  /\ (exists options,
         launcherOptions [lit "--port"; lit "--help-me"] = Launch options)
  /\ launcherOptions [lit "--auto-connect"; lit "x"]
     = Launch (mkLauncherOptions (Int 8080)
                 (existsb isAutoConnect [lit "--auto-connect"; lit "x"]))
  /\ launcherOptions [lit "x"; lit "--help"; lit "--port"] = HelpAndExit.
Proof.
  assert (H1 : Forall (fun arg => arg <> lit "--help")
                 [lit "--port"; lit "--help-me"])
    by (repeat constructor; vm_compute; discriminate).
  assert (H2 : forallb plainArgument [lit "--auto-connect"; lit "x"] = true)
    by (vm_compute; reflexivity).
  assert (H3 : forallb plainArgument [lit "x"] = true)
    by (vm_compute; reflexivity).
  split; [repeat split; assumption|].
  split; [exact (proj1 (launcherOptions_help _) H1)|].
  split; [exact (proj1 (proj2 (launcherOptions_help _)) H2)|].
  exact (proj2 (proj2 (launcherOptions_help _)) [lit "x"] [lit "--port"]
           eq_refl H3).
Defined.

(** ** The tools of the streaming server *)

Lemma slice_from (A : Type) (start : Z) (xs : list A) :
  0 <= start -> slice start xs = skipn (Z.to_nat start) xs.
Proof.
  intros Hs; unfold slice.
  replace (start <? 0) with false by (symmetry; apply Z.ltb_ge; lia).
  destruct (Z.min_spec start (Z.of_nat (List.length xs))) as [[Hlt ->]|[Hge ->]];
    [reflexivity|].
  rewrite Nat2Z.id, skipn_all. symmetry; apply skipn_all2. lia.
Qed.

(** X16.  The streaming [getDslErrors] does not check its count.  On an
    array log a positive count gives the last [count] entries, zero
    gives the whole log, and a negative count [-k] gives the log
    without its first [k] entries; null entries are passed on, and
    nothing is written. *)
Theorem streaming_getDslErrors_count :
  forall (count : Z) (w : world) (errors : list json),
    dslLogFile w = Json (JArr errors) ->
    snd (Streaming.getDslErrors count w) = w
    /\ (0 < count ->
        fst (Streaming.getDslErrors count w)
        = Streaming.Errors
            (JArr (skipn (List.length errors - Z.to_nat count) errors)))
    /\ (count = 0 ->
        fst (Streaming.getDslErrors count w) = Streaming.Errors (JArr errors))
    /\ (count < 0 ->
        fst (Streaming.getDslErrors count w)
        = Streaming.Errors (JArr (skipn (Z.to_nat (- count)) errors))).
Proof.
  intros count w errors Hlog.
  unfold Streaming.getDslErrors, existsSync, readJson; rewrite Hlog; cbn.
  split; [reflexivity|]. split; [|split].
  - intros Hc. rewrite slice_last by lia. reflexivity.
  - intros ->. change (- 0) with 0. rewrite slice_from by lia. reflexivity.
  - intros Hc. rewrite slice_from by lia. reflexivity.
Qed.

Lemma streaming_getDslErrors_count_witness :
  dslLogFile sampleLog
  = Json (JArr (map logEntry [firstError; secondError; thirdError]))
  /\ snd (Streaming.getDslErrors (-1) sampleLog) = sampleLog
  /\ (-1 < 0 ->
      fst (Streaming.getDslErrors (-1) sampleLog)
      = Streaming.Errors
          (JArr (skipn (Z.to_nat (- (-1)))
                   (map logEntry [firstError; secondError; thirdError])))).
Proof.
  split; [reflexivity|].
  pose proof (@streaming_getDslErrors_count (-1) sampleLog
                (map logEntry [firstError; secondError; thirdError]) eq_refl)
    as (H1 & _ & _ & H4).
  split; [exact H1|exact H4].
Defined.

(** X17.  The streaming tools never create the log.  With no log file
    the streaming [getDslErrors] answers with the empty list, not with
    a failure, and the streaming [clearDslErrors] reports success and
    leaves the file missing; and whenever that clear reports success
    on a log that was not unreadable, the streaming [getDslErrors]
    answers the empty list afterwards, for every count. *)
Theorem streaming_tools_missing_log :
  forall w : world,
    (dslLogFile w = Missing ->
     (forall count,
         Streaming.getDslErrors count w = (Streaming.Errors (JArr []), w))
     /\ Streaming.clearDslErrors w = (Streaming.Cleared, w))
    /\ (dslLogFile w <> Unreadable ->
        fst (Streaming.clearDslErrors w) = Streaming.Cleared ->
        forall count,
          fst (Streaming.getDslErrors count (snd (Streaming.clearDslErrors w)))
          = Streaming.Errors (JArr [])).
Proof.
  intros w. split.
  - intros Hlog.
    unfold Streaming.getDslErrors, Streaming.clearDslErrors, existsSync.
    rewrite Hlog. split; reflexivity.
  - unfold Streaming.clearDslErrors, Streaming.getDslErrors, existsSync,
      writeFileSync, readJson, slice.
    destruct w as [[| | |v] [|] dsl con limit]; cbn; intros Hr H count;
      try discriminate; try reflexivity; try (now rewrite skipn_nil);
      now contradiction Hr.
Qed.

(** ** The simplified server *)

Lemma regexMatchToEnd_sound (r : regex) (s : js_string) (caps : captures) :
  regexMatchToEnd r s = Some caps ->
  exists pre c, s = pre ++ c /\ Matches r c [] caps.
Proof.
  induction s as [|x s IH]; cbn [regexMatchToEnd]; intros H.
  - destruct (run r [] [] _) as [found|] eqn:Hr; [|discriminate].
    destruct (run_sound _ _ _ _ Hr) as (c & s' & caps' & Hs & Hm & Hk).
    destruct s' as [|y s']; [|discriminate].
    exists [], c. rewrite app_nil_r in Hs. split; [exact Hs|congruence].
  - destruct (run r (x :: s) [] _) as [found|] eqn:Hr.
    + destruct (run_sound _ _ _ _ Hr) as (c & s' & caps' & Hs & Hm & Hk).
      destruct s' as [|y s']; [|discriminate].
      exists [], c. rewrite app_nil_r in Hs. split; [exact Hs|congruence].
    + destruct (IH H) as (pre & c & -> & Hm).
      now exists (x :: pre), c.
Qed.

Lemma regexMatchToEnd_complete (r : regex) (pre c : js_string) caps :
  Matches r c [] caps ->
  regexMatchToEnd r (pre ++ c) <> None.
Proof.
  intros Hm.
  assert (Hhere : regexMatchToEnd r c <> None).
  { assert (Hr : run r (c ++ []) []
                   (fun _ rest caps0 =>
                      match rest with [] => Some caps0 | _ => None end)
                 <> None)
      by (eapply run_complete; [exact Hm|discriminate]).
    rewrite app_nil_r in Hr.
    destruct c; cbn [regexMatchToEnd];
      destruct (run r _ [] _); congruence. }
  induction pre as [|x pre IH]; [exact Hhere|].
  cbn [app regexMatchToEnd].
  destruct (run r (x :: pre ++ c) [] _); [discriminate|exact IH].
Qed.

Ltac invert_matches :=
  repeat match goal with
         | H : Matches (Seq _ _) _ _ _ |- _ => inversion H; subst; clear H
         | H : Matches (Group _ _) _ _ _ |- _ => inversion H; subst; clear H
         | H : Matches (Str _) _ _ _ |- _ => inversion H; subst; clear H
         | H : Matches (Star _ _) _ _ _ |- _ => inversion H; subst; clear H
         | H : Matches (Plus _ _) _ _ _ |- _ => inversion H; subst; clear H
         end.

Lemma noneOf_paren (m : js_string) :
  forallb (class_matches (NoneOf [LPAREN])) m = forallb notParen m.
Proof.
  induction m as [|x m IH]; simpl; [reflexivity|].
  now rewrite IH, orb_false_r.
Qed.

Lemma lineMatch_captures (s : js_string) (caps : captures) :
  regexMatch Simplified.lineMatchPattern s = Some caps ->
  exists n f, caps = [(2%nat, f); (1%nat, n)] /\ hasLineClause s n f.
Proof.
  intros H.
  destruct (regexMatch_sound _ _ H) as (pre & t & post & -> & Hm).
  unfold Simplified.lineMatchPattern in Hm. invert_matches.
  rewrite noneOf_colon in *.
  do 2 eexists. split; [reflexivity|].
  split; [exists pre, post; now rewrite <- !app_assoc|].
  repeat split; assumption.
Qed.

Lemma contextMatch_captures (s : js_string) (caps : captures) :
  regexMatchToEnd Simplified.contextMatchPattern s = Some caps ->
  exists c, caps = [(1%nat, c)] /\ hasClosingContext s c.
Proof.
  intros H.
  destruct (regexMatchToEnd_sound _ _ H) as (pre & t & -> & Hm).
  unfold Simplified.contextMatchPattern in Hm. invert_matches.
  rewrite noneOf_colon in *.
  eexists. split; [reflexivity|].
  split; [exists pre; reflexivity|].
  split; assumption.
Qed.

Lemma messageMatch_captures (s : js_string) (caps : captures) :
  regexMatch Simplified.messageMatchPattern s = Some caps ->
  exists m, caps = [(1%nat, m)] /\ hasMessageClause s m.
Proof.
  intros H.
  destruct (regexMatch_sound _ _ H) as (pre & t & post & -> & Hm).
  unfold Simplified.messageMatchPattern in Hm. invert_matches.
  rewrite noneOf_paren in *.
  eexists. split; [reflexivity|].
  split; [exists pre, post; now rewrite <- !app_assoc|].
  split; assumption.
Qed.

Lemma lineClause_matches (s n f : js_string) :
  hasLineClause s n f -> regexMatch Simplified.lineMatchPattern s <> None.
Proof.
  intros ((pre & post & ->) & Hn & Hnd & Hf & Hfc).
  assert (HM : Matches Simplified.lineMatchPattern
                 (lit "at line " ++ n ++ lit " of " ++ f ++ [COLON])
                 [] [(2%nat, f); (1%nat, n)]).
  { unfold Simplified.lineMatchPattern.
    repeat (eapply MSeq || eapply MGroup || eapply MStr).
    - now apply MPlus.
    - apply MPlus; [exact Hf|]. now rewrite noneOf_colon. }
  pose proof (@regexMatch_complete _ pre _ post _ HM) as HR.
  now rewrite <- !app_assoc in HR.
Qed.

Lemma closingContext_matches (s c : js_string) :
  hasClosingContext s c ->
  regexMatchToEnd Simplified.contextMatchPattern s <> None.
Proof.
  intros ((pre & ->) & Hc & Hcc).
  assert (HM : Matches Simplified.contextMatchPattern (lit ": " ++ c)
                 [] [(1%nat, c)]).
  { unfold Simplified.contextMatchPattern.
    repeat (eapply MSeq || eapply MGroup || eapply MStr).
    apply MPlus; [exact Hc|]. now rewrite noneOf_colon. }
  exact (@regexMatchToEnd_complete _ pre _ _ HM).
Qed.

Lemma messageClause_matches (s m : js_string) :
  hasMessageClause s m ->
  regexMatch Simplified.messageMatchPattern s <> None.
Proof.
  intros ((pre & post & ->) & Hm & Hmp).
  assert (HM : Matches Simplified.messageMatchPattern
                 (lit "workspace.dsl: " ++ m) [] [(1%nat, m)]).
  { unfold Simplified.messageMatchPattern.
    repeat (eapply MSeq || eapply MGroup || eapply MStr).
    apply MPlus; [exact Hm|]. now rewrite noneOf_paren. }
  pose proof (@regexMatch_complete _ pre _ post _ HM) as HR.
  now rewrite <- !app_assoc in HR.
Qed.

Lemma closingContext_unique_aux (pre pre' x x' : js_string) :
  pre ++ COLON :: x = pre' ++ COLON :: x' ->
  forallb notColon x = true -> forallb notColon x' = true ->
  x = x'.
Proof.
  assert (Hmid : forall (p y z : js_string),
             forallb notColon y = true -> y = p ++ COLON :: z -> False).
  { intros p y z Hy ->. rewrite forallb_app in Hy.
    apply andb_prop in Hy as [_ Hy]. cbn in Hy. discriminate. }
  revert pre'; induction pre as [|a pre IH]; intros [|b pre'] H Hx Hx'.
  - now injection H.
  - cbn in H. injection H as _ H. exfalso. exact (Hmid _ _ _ Hx H).
  - cbn in H. injection H as _ H. exfalso. symmetry in H.
    exact (Hmid _ _ _ Hx' H).
  - cbn in H. injection H as _ H. now apply (IH pre').
Qed.

(** The closing context of a text is determined by the text. *)
Lemma closingContext_unique (s c c' : js_string) :
  hasClosingContext s c -> hasClosingContext s c' -> c = c'.
Proof.
  intros ((pre & Hs) & _ & Hc) ((pre' & Hs') & _ & Hc').
  rewrite Hs in Hs'. change (lit ": ") with [COLON; 32%N] in Hs'.
  cbn [app] in Hs'.
  assert (H : 32%N :: c = 32%N :: c').
  { apply (@closingContext_unique_aux pre pre' _ _ Hs'); cbn; assumption. }
  now injection H.
Qed.

(** X18.  What the simplified [processDslError] returns comes from
    three independent finds.  Whenever it returns an entry, the text
    holds a line clause, ends in a colon-free context after its last
    [: ], and holds a message clause; the entry's file is the path of
    the line clause as it stands, untrimmed; its context and message
    are the trimmed context and message; its line is [parseInt] of the
    digits; and the log, which held an array, now holds that array
    with the entry at its end. *)
Theorem simplified_processDslError_sound :
  forall (errorText now : js_string) (w w' : world)
         (error : Simplified.DslErrorEntry),
    Simplified.processDslError errorText now w = (Some error, w') ->
    exists n f c m items,
      hasLineClause errorText n f
      /\ hasClosingContext errorText c
      /\ hasMessageClause errorText m
      /\ Simplified.file error = f
      /\ Simplified.line error = roundToDouble (decimalValue n)
      /\ Simplified.context error = trim c
      /\ Simplified.message error = trim m
      /\ Simplified.timestamp error = now
      /\ dslLogFile w = Json (JArr items)
      /\ writable w = true
      /\ dslLogFile w' = Json (JArr (items ++ [Simplified.entryJson error]))
      /\ workspaceDsl w' = workspaceDsl w.
Proof.
  intros errorText now w w' error; unfold Simplified.processDslError.
  destruct (regexMatch Simplified.lineMatchPattern errorText)
    as [lineMatch|] eqn:Hl; [|discriminate].
  destruct (regexMatchToEnd Simplified.contextMatchPattern errorText)
    as [contextMatch|] eqn:Hc; [|discriminate].
  destruct (regexMatch Simplified.messageMatchPattern errorText)
    as [messageMatch|] eqn:Hm; [|discriminate].
  destruct (lineMatch_captures _ Hl) as (n & f & -> & HL).
  destruct (contextMatch_captures _ Hc) as (c & -> & HC).
  destruct (messageMatch_captures _ Hm) as (m & -> & HM).
  cbn [capture Nat.eqb]. unfold readJson, writeFileSync.
  cbn [consoleLog dslLogFile writable workspaceDsl console].
  destruct (dslLogFile w) as [| | |v] eqn:Hlog; try discriminate.
  destruct v as [| | | |items|]; try discriminate.
  destruct (writable w) eqn:Hw; [|discriminate].
  intros [= <- <-].
  exists n, f, c, m, items.
  pose proof HL as (_ & Hn & Hnd & _).
  cbn. rewrite (parseInt10_digits Hn Hnd).
  split; [exact HL|]. split; [exact HC|]. split; [exact HM|].
  repeat split.
Qed.

Lemma simplified_processDslError_sound_witness :
  simplifiedSample
  = (Some (Simplified.mkDslErrorEntry (lit "Unexpected tokens")
             (lit "/usr/local/structurizr/workspace.dsl") (Int 776)
             (lit "dynamic " ++ [QUOTE] ++ lit "ErrorHandlingFlow" ++ [QUOTE]
                ++ lit " {")
             sampleNow),
     snd simplifiedSample)
  /\ exists n f c m items,
      hasLineClause dynamicViewErrorText n f
      /\ hasClosingContext dynamicViewErrorText c
      /\ hasMessageClause dynamicViewErrorText m
      /\ lit "/usr/local/structurizr/workspace.dsl" = f
      /\ Int 776 = roundToDouble (decimalValue n)
      /\ lit "dynamic " ++ [QUOTE] ++ lit "ErrorHandlingFlow" ++ [QUOTE]
           ++ lit " {" = trim c
      /\ lit "Unexpected tokens" = trim m
      /\ sampleNow = sampleNow
      /\ Json (JArr [JStr (lit "earlier")]) = Json (JArr items)
      /\ true = true
      /\ dslLogFile (snd simplifiedSample)
         = Json (JArr (items
                         ++ [Simplified.entryJson
                               (Simplified.mkDslErrorEntry
                                  (lit "Unexpected tokens")
                                  (lit "/usr/local/structurizr/workspace.dsl")
                                  (Int 776)
                                  (lit "dynamic " ++ [QUOTE]
                                     ++ lit "ErrorHandlingFlow" ++ [QUOTE]
                                     ++ lit " {")
                                  sampleNow)]))
      /\ workspaceDsl (snd simplifiedSample) = None.
Proof.
  assert (H : simplifiedSample
              = (Some (Simplified.mkDslErrorEntry (lit "Unexpected tokens")
                         (lit "/usr/local/structurizr/workspace.dsl") (Int 776)
                         (lit "dynamic " ++ [QUOTE] ++ lit "ErrorHandlingFlow"
                            ++ [QUOTE] ++ lit " {")
                         sampleNow),
                 snd simplifiedSample))
    by (vm_compute; reflexivity).
  split; [exact H|].
  exact (@simplified_processDslError_sound dynamicViewErrorText sampleNow
           (mkWorld (Json (JArr [JStr (lit "earlier")])) true None [])
           _ _ H).
Defined.

(** X19.  The three finds are also enough.  On a text that holds a line
    clause, a closing context [c] and a message clause, with a log that
    holds an array and can be written, the simplified
    [processDslError] returns an entry, and its context is the trimmed
    [c]. *)
Theorem simplified_processDslError_complete :
  forall (errorText now n f c m : js_string) (w : world) (items : list json),
    hasLineClause errorText n f ->
    hasClosingContext errorText c ->
    hasMessageClause errorText m ->
    dslLogFile w = Json (JArr items) ->
    writable w = true ->
    exists error w',
      Simplified.processDslError errorText now w = (Some error, w')
      /\ Simplified.context error = trim c
      /\ dslLogFile w' = Json (JArr (items ++ [Simplified.entryJson error])).
Proof.
  intros errorText now n0 f0 c0 m0 w items HL0 HC0 HM0 Hlog Hw.
  unfold Simplified.processDslError.
  destruct (regexMatch Simplified.lineMatchPattern errorText)
    as [lineMatch|] eqn:Hl; [|now apply lineClause_matches in HL0].
  destruct (regexMatchToEnd Simplified.contextMatchPattern errorText)
    as [contextMatch|] eqn:Hc; [|now apply closingContext_matches in HC0].
  destruct (regexMatch Simplified.messageMatchPattern errorText)
    as [messageMatch|] eqn:Hm; [|now apply messageClause_matches in HM0].
  destruct (lineMatch_captures _ Hl) as (n & f & -> & HL).
  destruct (contextMatch_captures _ Hc) as (c & -> & HC).
  destruct (messageMatch_captures _ Hm) as (m & -> & HM).
  rewrite (closingContext_unique HC0 HC).
  cbn [capture Nat.eqb]. unfold readJson, writeFileSync.
  cbn [consoleLog dslLogFile writable workspaceDsl console].
  rewrite Hlog, Hw.
  eexists; eexists. split; [reflexivity|]. split; reflexivity.
Qed.

Lemma simplified_processDslError_complete_witness :
  (hasLineClause lineZeroErrorText (lit "0") (lit "f")
   /\ hasClosingContext (lit "at line 0 of f: workspace.dsl: x") (lit "x")
   /\ hasMessageClause (lit "at line 0 of f: workspace.dsl: x") (lit "x")
   /\ hasLineClause (lit "at line 0 of f: workspace.dsl: x") (lit "0") (lit "f")
   /\ dslLogFile sampleLog
      = Json (JArr (map logEntry [firstError; secondError; thirdError]))
   /\ writable sampleLog = true)
  /\ exists error w',
      Simplified.processDslError (lit "at line 0 of f: workspace.dsl: x")
        sampleNow sampleLog = (Some error, w')
      /\ Simplified.context error = trim (lit "x")
      /\ dslLogFile w'
         = Json (JArr (map logEntry [firstError; secondError; thirdError]
                         ++ [Simplified.entryJson error])).
Proof.
  assert (HL : hasLineClause (lit "at line 0 of f: workspace.dsl: x")
                 (lit "0") (lit "f")).
  { split; [exists [], (lit " workspace.dsl: x"); vm_compute; reflexivity|].
    repeat split; try (vm_compute; reflexivity); vm_compute; discriminate. }
  assert (HC : hasClosingContext (lit "at line 0 of f: workspace.dsl: x")
                 (lit "x")).
  { split; [exists (lit "at line 0 of f: workspace.dsl"); vm_compute; reflexivity|].
    split; [vm_compute; discriminate|vm_compute; reflexivity]. }
  assert (HM : hasMessageClause (lit "at line 0 of f: workspace.dsl: x")
                 (lit "x")).
  { split; [exists (lit "at line 0 of f: "), []; vm_compute; reflexivity|].
    split; [vm_compute; discriminate|vm_compute; reflexivity]. }
  assert (HL0 : hasLineClause lineZeroErrorText (lit "0") (lit "f")).
  { split; [exists (lit "workspace.dsl: x "), (lit "c"); vm_compute; reflexivity|].
    repeat split; try (vm_compute; reflexivity); vm_compute; discriminate. }
  split; [repeat split; try assumption; apply HL0 || apply HC || apply HM
                                        || apply HL|].
  exact (@simplified_processDslError_complete _ sampleNow _ _ _ _ sampleLog _
           HL HC HM eq_refl eq_refl).
Defined.

(** X20.  The simplified [processDslError] never throws.  On a log
    that can be written, a null result always means that nothing was
    written: the log file and workspace.dsl are exactly as before.  It
    returns null, whatever the text, when the log is missing,
    unreadable, not JSON or JSON that is not an array, and then
    without a write, the log file being as before; and it returns null
    when the write fails. *)
Theorem simplified_processDslError_failure :
  forall (errorText now : js_string) (w : world),
    (writable w = true ->
     fst (Simplified.processDslError errorText now w) = None ->
     dslLogFile (snd (Simplified.processDslError errorText now w))
     = dslLogFile w
     /\ workspaceDsl (snd (Simplified.processDslError errorText now w))
        = workspaceDsl w)
    /\ ((forall items, dslLogFile w <> Json (JArr items)) ->
        fst (Simplified.processDslError errorText now w) = None
        /\ dslLogFile (snd (Simplified.processDslError errorText now w))
           = dslLogFile w)
    /\ (writable w = false ->
        fst (Simplified.processDslError errorText now w) = None).
Proof.
  intros errorText now w; unfold Simplified.processDslError.
  assert (Hnull : forall w1 : world,
             dslLogFile w1 = dslLogFile w -> workspaceDsl w1 = workspaceDsl w ->
             (writable w = true ->
              fst (@None Simplified.DslErrorEntry, w1) = None ->
              dslLogFile (snd (@None Simplified.DslErrorEntry, w1))
              = dslLogFile w
              /\ workspaceDsl (snd (@None Simplified.DslErrorEntry, w1))
                 = workspaceDsl w)
             /\ ((forall items, dslLogFile w <> Json (JArr items)) ->
                 fst (@None Simplified.DslErrorEntry, w1) = None
                 /\ dslLogFile (snd (@None Simplified.DslErrorEntry, w1))
                    = dslLogFile w)
             /\ (writable w = false ->
                 fst (@None Simplified.DslErrorEntry, w1) = None)).
  { intros w1 H1 H2. cbn [fst snd].
    split; [intros _ _; split; assumption|].
    split; [intros _; split; [reflexivity|assumption]|reflexivity]. }
  destruct (regexMatch Simplified.lineMatchPattern errorText)
    as [lineMatch|] eqn:Hl; [|now apply Hnull].
  destruct (regexMatchToEnd Simplified.contextMatchPattern errorText)
    as [contextMatch|] eqn:Hc; [|now apply Hnull].
  destruct (regexMatch Simplified.messageMatchPattern errorText)
    as [messageMatch|] eqn:Hm; [|now apply Hnull].
  destruct (lineMatch_captures _ Hl) as (n & f & -> & HL).
  destruct (contextMatch_captures _ Hc) as (c & -> & HC).
  destruct (messageMatch_captures _ Hm) as (m & -> & HM).
  cbn [capture Nat.eqb]. unfold readJson, writeFileSync.
  cbn [consoleLog dslLogFile writable workspaceDsl console].
  destruct (dslLogFile w) as [| | |v] eqn:Hlog; try (now apply Hnull).
  destruct v as [| | | |items|]; try (now apply Hnull).
  destruct (writable w) eqn:Hw; [|now apply Hnull].
  cbn [fst snd]. split; [intros _ H; discriminate|]. split; [|discriminate].
  intros Hno. exfalso. now apply (Hno items).
Qed.

(** ** The log of browser errors *)

Lemma splitAux_nonempty (separator s : js_string) : forall skip current,
  splitAux separator s skip current <> [].
Proof.
  induction s as [|c s IH]; intros skip current; cbn [splitAux];
    [discriminate|].
  destruct skip as [|k]; [|apply IH].
  destruct (startsWith separator (c :: s)); [discriminate|apply IH].
Qed.

Lemma join_cons (p : js_string) (rest : list js_string) (separator : js_string) :
  rest <> [] -> join (p :: rest) separator = p ++ separator ++ join rest separator.
Proof. destruct rest; [congruence|reflexivity]. Qed.

Lemma startsWith_length (p s : js_string) :
  startsWith p s = true -> (List.length p <= List.length s)%nat.
Proof.
  revert s; induction p as [|a p IH]; intros [|b s] H; cbn in *;
    try lia; try discriminate.
  apply andb_prop in H as [_ H]. apply IH in H. lia.
Qed.

(** Joining the pieces of a split gives the text back. *)
Lemma join_splitAux (separator : js_string) (s : js_string) :
  separator <> [] ->
  forall skip current,
    (skip <= List.length s)%nat ->
    join (splitAux separator s skip current) separator
    = current ++ skipn skip s.
Proof.
  intros Hsep; induction s as [|c s IH]; intros skip current Hskip.
  - cbn in Hskip. replace skip with 0%nat by lia. cbn. now rewrite app_nil_r.
  - cbn [splitAux]. destruct skip as [|k].
    + cbn [skipn].
      destruct (startsWith separator (c :: s)) eqn:Hst.
      * rewrite join_cons by apply splitAux_nonempty.
        pose proof (startsWith_length _ _ Hst) as Hlen.
        pose proof (startsWith_split _ _ Hst) as Hsplit.
        destruct separator as [|a separator']; [congruence|].
        cbn [List.length] in *.
        rewrite IH by lia. cbn [app].
        replace (S (List.length separator') - 1)%nat
          with (List.length separator') by lia.
        cbn [skipn app] in Hsplit. f_equal. now symmetry.
      * rewrite IH by lia. cbn [skipn]. now rewrite <- app_assoc.
    + cbn [skipn]. apply IH. cbn in Hskip. lia.
Qed.

Lemma join_split (s separator : js_string) :
  separator <> [] -> join (split s separator) separator = s.
Proof.
  intros Hsep; unfold split.
  rewrite join_splitAux by (try assumption; lia). reflexivity.
Qed.

(** The first piece of a split on newlines holds no newline. *)
Lemma split_lines_first (s : js_string) : forall current first rest,
  forallb notNewline current = true ->
  splitAux [NEWLINE] s 0 current = first :: rest ->
  forallb notNewline first = true.
Proof.
  induction s as [|c s IH]; intros current first rest Hcur H.
  - cbn in H. now injection H as <- _.
  - cbn [splitAux startsWith List.length Nat.sub] in H.
    rewrite andb_true_r in H.
    destruct (NEWLINE =? c)%N eqn:Hc.
    + now injection H as <- _.
    + refine (IH _ _ _ _ H).
      rewrite forallb_app, Hcur. cbn. unfold notNewline.
      now rewrite N.eqb_sym, Hc.
Qed.

Lemma parseEntry_spec (entry : js_string) :
  forallb notNewline (BrowserLog.timestamp (BrowserLog.parseEntry entry)) = true
  /\ ((entry = BrowserLog.timestamp (BrowserLog.parseEntry entry)
       /\ BrowserLog.message (BrowserLog.parseEntry entry) = [])
      \/ entry = BrowserLog.timestamp (BrowserLog.parseEntry entry)
                   ++ [NEWLINE]
                   ++ BrowserLog.message (BrowserLog.parseEntry entry)).
Proof.
  unfold BrowserLog.parseEntry.
  pose proof (@join_split entry [NEWLINE] ltac:(discriminate)) as Hjoin.
  pose proof (@splitAux_nonempty [NEWLINE] entry 0%nat []) as Hne.
  fold (split entry [NEWLINE]) in Hne.
  destruct (split entry [NEWLINE]) as [|first rest] eqn:Hs; [congruence|].
  cbn [BrowserLog.timestamp BrowserLog.message].
  split; [exact (split_lines_first entry [] eq_refl Hs)|].
  destruct rest as [|second rest].
  - left. cbn in Hjoin. split; [now symmetry|reflexivity].
  - right. rewrite join_cons in Hjoin by discriminate. now symmetry.
Qed.

Lemma In_skipn (A : Type) (x : A) (n : nat) (l : list A) :
  In x (skipn n l) -> In x l.
Proof.
  revert l; induction n as [|n IH]; intros [|a l] H; cbn in *; auto.
Qed.

Lemma In_slice (A : Type) (x : A) (start : Z) (l : list A) :
  In x (slice start l) -> In x l.
Proof. unfold slice; apply In_skipn. Qed.

(** X21.  What the streaming [getRecentErrors] returns is read off the
    file and nothing else.  With no file it returns the empty list.
    From a text it returns, for a count of at least 1, at most [count]
    records; each comes from a piece of the text between two empty
    lines that is not blank, its timestamp is the first line of the
    piece and holds no newline, and timestamp and message put together
    with a newline give the piece back. *)
Theorem getRecentErrors_sound :
  forall (count : Z) (content : js_string) (console : list console_line),
    BrowserLog.getRecentErrors count BrowserLog.NoFile console
    = (BrowserLog.Errors [], console)
    /\ exists errors,
        BrowserLog.getRecentErrors count (BrowserLog.Text content) console
        = (BrowserLog.Errors errors, console)
        /\ (1 <= count -> Z.of_nat (List.length errors) <= count)
        /\ forall r, In r errors ->
             forallb notNewline (BrowserLog.timestamp r) = true
             /\ exists entry,
                 In entry (split content [NEWLINE; NEWLINE])
                 /\ BrowserLog.notBlank entry = true
                 /\ ((entry = BrowserLog.timestamp r
                      /\ BrowserLog.message r = [])
                     \/ entry = BrowserLog.timestamp r ++ [NEWLINE]
                                  ++ BrowserLog.message r).
Proof.
  intros count content console. split; [reflexivity|].
  eexists. split; [reflexivity|]. split.
  - intros Hc. rewrite slice_last by lia. rewrite length_skipn. lia.
  - intros r Hr. apply In_slice in Hr.
    apply in_map_iff in Hr as (entry & <- & Hentry).
    apply filter_In in Hentry as [Hin Hnb].
    destruct (parseEntry_spec entry) as [Hts Hrt].
    split; [exact Hts|]. exists entry. repeat split; assumption.
Qed.

Lemma split_chunk (entry : js_string) : forall rest current,
  entryText entry = true ->
  splitAux [NEWLINE; NEWLINE] (entry ++ NEWLINE :: NEWLINE :: rest) 0 current
  = (current ++ entry) :: splitAux [NEWLINE; NEWLINE] rest 0 [].
Proof.
  induction entry as [|c entry IH]; intros rest current H.
  - cbn. now rewrite app_nil_r.
  - cbn [app splitAux].
    assert (Hst : startsWith [NEWLINE; NEWLINE]
                    (c :: entry ++ NEWLINE :: NEWLINE :: rest) = false
                  /\ entryText entry = true).
    { cbn [entryText] in H. cbn [startsWith].
      destruct (c =? NEWLINE)%N eqn:Hc.
      - destruct entry as [|d entry]; [discriminate|].
        apply andb_prop in H as [Hd He]. apply negb_true_iff in Hd.
        cbn [app startsWith]. rewrite (N.eqb_sym NEWLINE d), Hd.
        split; [now rewrite andb_false_r|exact He].
      - rewrite (N.eqb_sym NEWLINE c), Hc. split; [reflexivity|exact H]. }
    destruct Hst as [-> He].
    rewrite IH by exact He. now rewrite <- app_assoc.
Qed.

Lemma split_logText (entries : list js_string) :
  Forall (fun entry => entryText entry = true) entries ->
  split (logText entries) [NEWLINE; NEWLINE] = entries ++ [[]].
Proof.
  unfold split; induction 1 as [|entry entries He _ IH]; [reflexivity|].
  unfold logText in *. cbn [map concat].
  rewrite <- app_assoc. cbn [app].
  rewrite split_chunk by exact He. cbn [app]. now rewrite IH.
Qed.

Lemma split_line_run (h : js_string) : forall rest current,
  forallb notNewline h = true ->
  splitAux [NEWLINE] (h ++ rest) 0 current
  = splitAux [NEWLINE] rest 0 (current ++ h).
Proof.
  induction h as [|c h IH]; intros rest current H.
  - cbn. now rewrite app_nil_r.
  - cbn [forallb] in H. apply andb_prop in H as [Hc Hh].
    unfold notNewline in Hc. apply negb_true_iff in Hc.
    cbn [app splitAux startsWith]. rewrite (N.eqb_sym NEWLINE c), Hc.
    cbn [andb]. rewrite IH by exact Hh. now rewrite <- app_assoc.
Qed.

Lemma parseEntry_entryOf (r : BrowserLog.RecentError) :
  forallb notNewline (BrowserLog.timestamp r) = true ->
  BrowserLog.parseEntry (entryOf r) = r.
Proof.
  destruct r as [ts msg]; cbn [BrowserLog.timestamp]; intros Hts.
  unfold BrowserLog.parseEntry, entryOf, split.
  cbn [BrowserLog.timestamp BrowserLog.message].
  destruct msg as [|c msg].
  - rewrite <- (app_nil_r ts) at 1. rewrite split_line_run by exact Hts.
    reflexivity.
  - rewrite split_line_run by exact Hts.
    change (splitAux [NEWLINE] ([NEWLINE] ++ c :: msg) 0 ([] ++ ts))
      with (ts :: split (c :: msg) [NEWLINE]).
    cbv iota beta. rewrite join_split by discriminate. reflexivity.
Qed.

(** X22.  Reading gives back what was appended.  When the file holds
    entries put one after the other, each followed by an empty line, and
    every entry has a first line without newline, no empty line inside,
    no newline at its end and is not blank, then [getRecentErrors]
    returns exactly the last [count] of them, each with its first line
    as timestamp and its other lines as message. *)
Theorem getRecentErrors_round_trip :
  forall (errors : list BrowserLog.RecentError) (count : Z)
         (console : list console_line),
    Forall (fun r => forallb notNewline (BrowserLog.timestamp r) = true
                     /\ entryText (entryOf r) = true
                     /\ BrowserLog.notBlank (entryOf r) = true) errors ->
    BrowserLog.getRecentErrors count
      (BrowserLog.Text (logText (map entryOf errors))) console
    = (BrowserLog.Errors (slice (- count) errors), console).
Proof.
  intros errors count console Hall.
  unfold BrowserLog.getRecentErrors. do 3 f_equal.
  rewrite split_logText.
  2:{ apply Forall_map. eapply Forall_impl; [|exact Hall].
      now intros r (_ & H & _). }
  rewrite filter_app. cbn [filter].
  replace (BrowserLog.notBlank []) with false by reflexivity.
  rewrite app_nil_r.
  induction Hall as [|r errors (Hts & _ & Hnb) _ IH]; [reflexivity|].
  cbn [map filter]. rewrite Hnb. cbn [map].
  now rewrite (parseEntry_entryOf _ Hts), IH.
Qed.

Lemma getRecentErrors_round_trip_witness :
  Forall (fun r => forallb notNewline (BrowserLog.timestamp r) = true
                   /\ entryText (entryOf r) = true
                   /\ BrowserLog.notBlank (entryOf r) = true)
         sampleBrowserErrors
  /\ BrowserLog.getRecentErrors 1
       (BrowserLog.Text (logText (map entryOf sampleBrowserErrors))) []
     = (BrowserLog.Errors (slice (- (1)) sampleBrowserErrors), []).
Proof.
  assert (H : Forall (fun r => forallb notNewline (BrowserLog.timestamp r) = true
                               /\ entryText (entryOf r) = true
                               /\ BrowserLog.notBlank (entryOf r) = true)
                     sampleBrowserErrors)
    by (repeat constructor; vm_compute; reflexivity).
  split; [exact H|].
  exact (@getRecentErrors_round_trip sampleBrowserErrors 1 [] H).
Defined.

(** ** The script that shows the log *)

Lemma errorKey_fieldTexts (error : json) (key : js_string) :
  ShowErrors.errorKey error = Return key ->
  exists fileText lineText messageText,
    ShowErrors.fieldTexts error = Return (fileText, lineText, messageText)
    /\ key = fileText ++ [COLON] ++ lineText ++ [COLON] ++ messageText.
Proof.
  unfold ShowErrors.errorKey.
  destruct (ShowErrors.fieldTexts error) as [[[f l] m]|e]; cbn;
    [|discriminate].
  intros [= <-]. now exists f, l, m.
Qed.

Lemma firstOccurrences_keys (keyed : list (json * js_string)) :
  forall seen,
    NoDup (map snd (firstOccurrences keyed seen))
    /\ (forall key, In key (map snd (firstOccurrences keyed seen)) ->
          ~ In key seen)
    /\ (forall x, In x (firstOccurrences keyed seen) -> In x keyed).
Proof.
  induction keyed as [|[error key] older IH]; intros seen; cbn.
  - split; [constructor|]. split; intros ? [].
  - destruct (existsb (strictEquals key) seen) eqn:Hseen.
    + destruct (IH seen) as (Hnd & Hnot & Hin).
      split; [exact Hnd|]. split; [exact Hnot|]. intros x Hx; right; auto.
    + destruct (IH (key :: seen)) as (Hnd & Hnot & Hin).
      assert (Hkey : ~ In key seen).
      { intros Hk. apply not_true_iff_false in Hseen. apply Hseen.
        apply existsb_exists. exists key. split; [exact Hk|].
        now apply strictEquals_eq. }
      cbn. split; [|split].
      * constructor; [|exact Hnd].
        intros Hk. apply (Hnot _ Hk). now left.
      * intros k [<- | Hk]; [exact Hkey|].
        intros Hs. apply (Hnot _ Hk). now right.
      * intros x [<- | Hx]; [now left|right; auto].
Qed.

Lemma visit_finishes (keyed : list (json * js_string)) :
  Forall showable keyed ->
  forall uniqueErrors seenLines printed,
    (List.length uniqueErrors <= 3)%nat ->
    exists printed',
      ShowErrors.visit (map fst keyed) uniqueErrors seenLines printed
      = ShowErrors.Finished
          (uniqueErrors
             ++ map fst (firstn (3 - List.length uniqueErrors)
                           (firstOccurrences keyed seenLines)))
          printed'.
Proof.
  induction 1 as [|[error key] older [Hkey [context Hctx]] _ IH];
    intros unique seen printed Hlen.
  - cbn. exists printed. now rewrite firstn_nil, app_nil_r.
  - cbn [map fst snd ShowErrors.visit firstOccurrences] in *.
    destruct (List.length unique <? 3)%nat eqn:Hlt.
    + apply Nat.ltb_lt in Hlt.
      destruct (errorKey_fieldTexts _ Hkey) as (f & l & m & -> & ->).
      destruct (existsb _ seen) eqn:Hseen.
      * now apply IH.
      * rewrite Hctx.
        edestruct (IH (unique ++ [error])) as (printed' & ->).
        { rewrite length_app. cbn. lia. }
        exists printed'. f_equal.
        rewrite length_app. cbn [List.length].
        replace (3 - List.length unique)%nat
          with (S (3 - (List.length unique + 1)))%nat by lia.
        cbn [firstn map fst]. now rewrite <- app_assoc.
    + apply Nat.ltb_ge in Hlt.
      replace (3 - List.length unique)%nat with 0%nat by lia.
      exists printed. cbn. now rewrite app_nil_r.
Qed.

(** X23.  The list of recent unique errors is what its name says.  On
    a log that holds an array whose latest error the script can print
    and whose errors can all be put into text, with an output file
    that can be written, the script reaches its end: it saves the
    latest error and keeps, newest first, the first three errors that
    differ in their key from every newer error: never more than three,
    no two with the same key, all of them errors of the log, and the
    latest error of the log always first.  The numbers of the log are
    taken to be integers up to 2^53, which print as their digits. *)
Theorem recentUniqueErrors_spec :
  forall (keyed older : list (json * js_string)) (latest : json * js_string),
    keyed = older ++ [latest] ->
    Forall showable keyed ->
    presentable (fst latest) ->
    Forall (fun keyedError => safeNumbers (fst keyedError) = true) keyed ->
    exists printed,
      ShowErrors.script (map fst keyed) true
      = ShowErrors.Listed printed (fst latest)
          (map fst (firstn 3 (firstOccurrences (rev keyed) [])))
      /\ (List.length (firstn 3 (firstOccurrences (rev keyed) [])) <= 3)%nat
      /\ NoDup (map snd (firstn 3 (firstOccurrences (rev keyed) [])))
      /\ (forall x, In x (firstn 3 (firstOccurrences (rev keyed) [])) ->
            In x keyed)
      /\ hd_error (firstn 3 (firstOccurrences (rev keyed) [])) = Some latest.
Proof.
  intros keyed older latest Hkeyed Hall Hpres _.
  assert (Hrev : rev (map fst keyed) = fst latest :: rev (map fst older)).
  { subst keyed. rewrite map_app, rev_app_distr. reflexivity. }
  assert (Hvisit : forall printed0,
             exists printed,
               ShowErrors.visit (rev (map fst keyed)) [] [] printed0
               = ShowErrors.Finished
                   (map fst (firstn 3 (firstOccurrences (rev keyed) [])))
                   printed).
  { intros printed0. rewrite <- map_rev.
    assert (Hr : Forall showable (rev keyed)) by now apply Forall_rev.
    destruct (visit_finishes Hr [] [] printed0 ltac:(cbn; lia))
      as (printed & ->).
    exists printed. reflexivity. }
  unfold ShowErrors.script, presentable in *.
  destruct (ShowErrors.printAll (ShowErrors.latestTemplates (fst latest)))
    as [lines failure] eqn:Hprint.
  cbn [snd] in Hpres. subst failure.
  destruct (Hvisit
              ((([NEWLINE] ++ lit "=== Latest Structurizr DSL Error ===")
                  :: lines)
                 ++ [[NEWLINE] ++ lit "Error details saved to /tmp/dsl-error.json for easy access";
                     lit "To copy to clipboard: cat /tmp/dsl-error.json | xclip -selection clipboard";
                     [NEWLINE] ++ lit "=== Recent Unique Errors ==="]))
    as (printed & Hv).
  exists printed.
  destruct (firstOccurrences_keys (rev keyed) []) as (Hnd & _ & Hin).
  split.
  { rewrite Hrev in *. rewrite Hprint, Hv. reflexivity. }
  split; [apply firstn_le_length|].
  split.
  - rewrite <- (firstn_skipn 3 (firstOccurrences (rev keyed) [])) in Hnd.
    rewrite map_app in Hnd. now apply NoDup_app_remove_r in Hnd.
  - split.
    + intros x Hx. apply in_rev, Hin.
      rewrite <- (firstn_skipn 3 (firstOccurrences (rev keyed) [])).
      apply in_or_app; now left.
    + subst keyed. rewrite rev_app_distr. destruct latest as [e k].
      reflexivity.
Qed.

Lemma recentUniqueErrors_spec_witness :
  (Forall showable
     (map (fun d => (logEntry d,
                     filename d ++ [COLON] ++ lineKeyText (line d)
                       ++ [COLON] ++ message d))
          [firstError; secondError; firstError])
   /\ presentable (logEntry firstError)
   /\ Forall (fun keyedError => safeNumbers (fst keyedError) = true)
        (map (fun d => (logEntry d,
                        filename d ++ [COLON] ++ lineKeyText (line d)
                          ++ [COLON] ++ message d))
             [firstError; secondError; firstError]))
  /\ exists printed,
      ShowErrors.script
        (map fst
           (map (fun d => (logEntry d,
                           filename d ++ [COLON] ++ lineKeyText (line d)
                             ++ [COLON] ++ message d))
                [firstError; secondError; firstError]))
        true
      = ShowErrors.Listed printed (logEntry firstError)
          [logEntry firstError; logEntry secondError].
Proof.
  assert (H : Forall showable
                (map (fun d => (logEntry d,
                                filename d ++ [COLON] ++ lineKeyText (line d)
                                  ++ [COLON] ++ message d))
                     [firstError; secondError; firstError])).
  { repeat constructor; try (vm_compute; reflexivity);
      eexists; vm_compute; reflexivity. }
  assert (Hp : presentable (logEntry firstError))
    by (vm_compute; reflexivity).
  assert (Hs : Forall (fun keyedError => safeNumbers (fst keyedError) = true)
                 (map (fun d => (logEntry d,
                                 filename d ++ [COLON] ++ lineKeyText (line d)
                                   ++ [COLON] ++ message d))
                      [firstError; secondError; firstError]))
    by (repeat constructor; vm_compute; reflexivity).
  split; [split; [exact H|split; [exact Hp|exact Hs]]|].
  destruct (@recentUniqueErrors_spec
              (map (fun d => (logEntry d,
                              filename d ++ [COLON] ++ lineKeyText (line d)
                                ++ [COLON] ++ message d))
                   [firstError; secondError; firstError])
              (map (fun d => (logEntry d,
                              filename d ++ [COLON] ++ lineKeyText (line d)
                                ++ [COLON] ++ message d))
                   [firstError; secondError])
              (logEntry firstError,
               filename firstError ++ [COLON] ++ lineKeyText (line firstError)
                 ++ [COLON] ++ message firstError)
              eq_refl H Hp Hs) as (printed & Heq & _).
  exists printed. exact Heq.
Defined.

Lemma errorKey_logEntry (d : DslError) :
  ShowErrors.errorKey (logEntry d)
  = Return (filename d ++ [COLON] ++ lineKeyText (line d) ++ [COLON]
              ++ message d).
Proof.
  destruct d as [ts ty msg file ln col ctx sug].
  destruct ln as [z|negative|]; reflexivity.
Qed.

Lemma colon_prefix_unique (x x' r r' : js_string) :
  x ++ COLON :: r = x' ++ COLON :: r' ->
  forallb notColon x = true -> forallb notColon x' = true ->
  x = x' /\ r = r'.
Proof.
  revert x'; induction x as [|a x IH]; intros [|b x'] H Hx Hx'; cbn in *.
  - injection H as ->. now split.
  - injection H as <- _. apply andb_prop in Hx' as [Hb _].
    unfold notColon in Hb. now rewrite N.eqb_refl in Hb.
  - injection H as -> _. apply andb_prop in Hx as [Ha _].
    unfold notColon in Ha. now rewrite N.eqb_refl in Ha.
  - injection H as -> H.
    apply andb_prop in Hx as [_ Hx]. apply andb_prop in Hx' as [_ Hx'].
    destruct (IH _ H Hx Hx') as [-> ->]. now split.
Qed.

Lemma digits_without_colon (s : js_string) :
  forallb isDigit s = true -> forallb notColon s = true.
Proof.
  induction s as [|c s IH]; cbn; [reflexivity|].
  intros H; apply andb_prop in H as [Hc Hs]. rewrite (IH Hs), andb_true_r.
  unfold isDigit in Hc. apply andb_prop in Hc as [_ Hhi].
  apply N.leb_le in Hhi. unfold notColon, COLON.
  apply negb_true_iff, N.eqb_neq. lia.
Qed.

(** The line of a returned record, as it stands in a key. *)
Lemma lineKeyText_of_record (errorText now : js_string) (w w' : world)
      (d : DslError) :
  processDslError errorText now w = (Return (Some d), w') ->
  (exists v, 0 <= v /\ line d = Int v /\ lineKeyText (line d) = numberToString v)
  \/ (line d = Infinity false /\ lineKeyText (line d) = lit "null").
Proof.
  intros H.
  destruct (processDslError_some _ _ _ H)
    as (m & n & f & c & (_ & _ & Hn & Hnd & _) & -> & _ & _).
  cbn [parsedError line]. rewrite (parseInt10_digits Hn Hnd).
  destruct (roundToDouble_bound (decimalValue_nonneg n))
    as [(v & -> & Hv & _) | (-> & _)].
  - left. exists v. repeat split. exact Hv.
  - right. split; reflexivity.
Qed.

(** X24.  The key of the list of unique errors tells the errors of this
    program apart.  Two entries that [processDslError] wrote have the
    same key only when they agree in file, line and message: the file
    and the line hold no colon, so the key can be read back. *)
Theorem errorKey_separates_records :
  forall (text1 now1 text2 now2 : js_string) (w1 w1' w2 w2' : world)
         (d1 d2 : DslError),
    processDslError text1 now1 w1 = (Return (Some d1), w1') ->
    processDslError text2 now2 w2 = (Return (Some d2), w2') ->
    ShowErrors.errorKey (logEntry d1) = ShowErrors.errorKey (logEntry d2) ->
    filename d1 = filename d2
    /\ numberJson (line d1) = numberJson (line d2)
    /\ message d1 = message d2.
Proof.
  intros text1 now1 text2 now2 w1 w1' w2 w2' d1 d2 H1 H2 Hkey.
  rewrite !errorKey_logEntry in Hkey. injection Hkey as Hkey.
  assert (Hfile : forall text now w w' d,
             processDslError text now w = (Return (Some d), w') ->
             forallb notColon (filename d) = true).
  { intros text now w w' d H.
    destruct (processDslError_some _ _ _ H)
      as (m & n & f & c & (_ & _ & _ & _ & _ & Hf & _) & -> & _ & _).
    cbn [parsedError filename]. now apply trim_forallb. }
  assert (Hline : forall text now w w' d,
             processDslError text now w = (Return (Some d), w') ->
             forallb notColon (lineKeyText (line d)) = true).
  { intros text now w w' d H.
    destruct (lineKeyText_of_record _ _ _ H)
      as [(v & Hv & _ & ->) | (_ & ->)]; [|reflexivity].
    apply digits_without_colon. now apply numberToString_value. }
  cbn [app] in Hkey.
  destruct (colon_prefix_unique _ _ _ _ Hkey (Hfile _ _ _ _ _ H1)
              (Hfile _ _ _ _ _ H2)) as [Hf Hrest].
  destruct (colon_prefix_unique _ _ _ _ Hrest (Hline _ _ _ _ _ H1)
              (Hline _ _ _ _ _ H2)) as [Hl Hm].
  split; [exact Hf|]. split; [|exact Hm].
  destruct (lineKeyText_of_record _ _ _ H1)
    as [(v1 & Hv1 & Hd1 & Ht1) | (Hd1 & Ht1)];
    destruct (lineKeyText_of_record _ _ _ H2)
      as [(v2 & Hv2 & Hd2 & Ht2) | (Hd2 & Ht2)];
    rewrite Hd1, Hd2; rewrite Ht1, Ht2 in Hl; cbn [numberJson].
  - destruct (numberToString_value Hv1) as (_ & _ & Hval1).
    destruct (numberToString_value Hv2) as (_ & _ & Hval2).
    rewrite Hl in Hval1. congruence.
  - destruct (numberToString_value Hv1) as (Hdig & _ & _).
    rewrite Hl in Hdig. discriminate.
  - destruct (numberToString_value Hv2) as (Hdig & _ & _).
    rewrite <- Hl in Hdig. discriminate.
  - reflexivity.
Qed.

Lemma errorKey_separates_records_witness :
  (afterFirst = (Return (Some firstError), snd afterFirst)
   /\ processDslError (lit "DSL Error: " ++ dynamicViewErrorText) sampleNow
        sampleLog
      = (Return (Some firstError),
         snd (processDslError (lit "DSL Error: " ++ dynamicViewErrorText)
                sampleNow sampleLog))
   /\ ShowErrors.errorKey (logEntry firstError)
      = ShowErrors.errorKey (logEntry firstError))
  /\ filename firstError = filename firstError
  /\ numberJson (line firstError) = numberJson (line firstError)
  /\ message firstError = message firstError.
Proof.
  assert (H1 : afterFirst = (Return (Some firstError), snd afterFirst))
    by (vm_compute; reflexivity).
  assert (H2 : processDslError (lit "DSL Error: " ++ dynamicViewErrorText)
                 sampleNow sampleLog
               = (Return (Some firstError),
                  snd (processDslError
                         (lit "DSL Error: " ++ dynamicViewErrorText)
                         sampleNow sampleLog)))
    by (vm_compute; reflexivity).
  split; [repeat split; assumption|].
  exact (@errorKey_separates_records _ _ _ _ _ _ _ _ _ _ H1 H2 eq_refl).
Defined.

(** ** Writing and reading the log of browser errors *)

Lemma entryText_prefix (p s : js_string) :
  forallb notNewline p = true -> entryText s = true ->
  entryText (p ++ s) = true.
Proof.
  induction p as [|x p IH]; cbn [app forallb entryText]; [now intros|].
  intros H Hs; apply andb_prop in H as [Hx Hp].
  unfold notNewline in Hx. apply negb_true_iff in Hx. rewrite Hx.
  now apply IH.
Qed.

Lemma entryText_app (a b : js_string) :
  entryText a = true -> linesText b = true ->
  entryText (a ++ NEWLINE :: b) = true.
Proof.
  intros Ha Hb.
  assert (Hnl : entryText (NEWLINE :: b) = true).
  { destruct b as [|c b]; [discriminate|]. exact Hb. }
  induction a as [|x a IH]; [exact Hnl|].
  cbn [app entryText] in *.
  destruct (x =? NEWLINE)%N; [|now apply IH].
  destruct a as [|d a]; [discriminate|].
  apply andb_prop in Ha as [Hd Ha]. cbn [app]. rewrite Hd.
  now apply IH.
Qed.

Lemma linesText_entryText (s : js_string) :
  linesText s = true -> entryText s = true.
Proof.
  destruct s as [|c s]; [discriminate|]. unfold linesText.
  intros H; now apply andb_prop in H as [_ H].
Qed.

Lemma linesText_app (a b : js_string) :
  linesText a = true -> linesText b = true ->
  linesText (a ++ NEWLINE :: b) = true.
Proof.
  intros Ha Hb. pose proof (linesText_entryText _ Ha) as Hea.
  destruct a as [|c a]; [discriminate|].
  unfold linesText in *. apply andb_prop in Ha as [Hc _].
  cbn [app]. rewrite Hc.
  now apply (entryText_app (c :: a)).
Qed.

Lemma linesText_prefix (p s : js_string) :
  p <> [] -> forallb notNewline p = true -> entryText s = true ->
  linesText (p ++ s) = true.
Proof.
  intros Hne Hp Hs. pose proof (entryText_prefix _ _ Hp Hs) as He.
  destruct p as [|c p]; [contradiction|].
  cbn [forallb] in Hp. apply andb_prop in Hp as [Hc _].
  unfold linesText. cbn [app] in *. unfold notNewline in Hc.
  now rewrite Hc.
Qed.

Lemma linesText_join (ls : list js_string) :
  ls <> [] -> Forall (fun l => linesText l = true) ls ->
  linesText (join ls [NEWLINE]) = true.
Proof.
  intros Hne H; induction H as [|l ls Hl Hls IH]; [contradiction|].
  destruct ls as [|l' ls]; [exact Hl|].
  change (join (l :: l' :: ls) [NEWLINE])
    with (l ++ NEWLINE :: join (l' :: ls) [NEWLINE]).
  apply linesText_app; [exact Hl|]. now apply IH.
Qed.

Lemma concat_lines (ls : list js_string) :
  ls <> [] ->
  concat (map (fun l => l ++ [NEWLINE]) ls) = join ls [NEWLINE] ++ [NEWLINE].
Proof.
  induction ls as [|l ls IH]; [contradiction|]; intros _.
  destruct ls as [|l' ls]; [cbn; now rewrite app_nil_r|].
  change (join (l :: l' :: ls) [NEWLINE])
    with (l ++ [NEWLINE] ++ join (l' :: ls) [NEWLINE]).
  cbn [map concat] in *. rewrite IH by discriminate.
  now rewrite <- !app_assoc.
Qed.

Lemma numberToString_line (z : Z) :
  forallb notNewline (numberToString z) = true.
Proof.
  assert (Hd : forall s, forallb isDigit s = true ->
                         forallb notNewline s = true).
  { induction s as [|c s IH]; cbn [forallb]; [reflexivity|].
    intros H; apply andb_prop in H as [Hc Hs]. rewrite (IH Hs), andb_true_r.
    unfold isDigit in Hc. apply andb_prop in Hc as [Hlo _].
    apply N.leb_le in Hlo. unfold notNewline, NEWLINE.
    apply negb_true_iff, N.eqb_neq. lia. }
  destruct z as [|p|p].
  - reflexivity.
  - now apply Hd, (numberToString_value (z := Z.pos p)).
  - unfold numberToString.
    cbn [Z.to_int DecimalString.NilZero.string_of_int].
    change (forallb notNewline
              (45%N :: lit (DecimalString.NilZero.string_of_uint (Pos.to_uint p)))
            = true).
    cbn [forallb]. apply andb_true_intro; split; [reflexivity|].
    pose proof (numberToString_value (z := Z.pos p)) as H.
    unfold numberToString in H.
    cbn [Z.to_int DecimalString.NilZero.string_of_int] in H.
    now apply Hd, H.
Qed.

(** *** What UTF-8 leaves as it is *)

Lemma wellFormed_app_length (n : nat) :
  forall a b : js_string,
    (List.length a <= n)%nat ->
    wellFormed a = true -> wellFormed b = true -> wellFormed (a ++ b) = true.
Proof.
  induction n as [|n IH]; intros a b Hn Ha Hb.
  - destruct a; [exact Hb|cbn in Hn; lia].
  - destruct a as [|c a]; [exact Hb|].
    cbn [app wellFormed] in *. destruct (isHighSurrogate c).
    + destruct a as [|d a]; [discriminate|]. cbn [app].
      apply andb_prop in Ha as [Hd Ha]. rewrite Hd. cbn [andb].
      apply IH; [cbn in Hn; lia|exact Ha|exact Hb].
    + apply andb_prop in Ha as [Hc Ha]. rewrite Hc. cbn [andb].
      apply IH; [cbn in Hn; lia|exact Ha|exact Hb].
Qed.

Lemma wellFormed_app (a b : js_string) :
  wellFormed a = true -> wellFormed b = true -> wellFormed (a ++ b) = true.
Proof. now apply (@wellFormed_app_length (List.length a)). Qed.

Lemma toWellFormed_length (n : nat) :
  forall s : js_string,
    (List.length s <= n)%nat -> wellFormed s = true -> toWellFormed s = s.
Proof.
  induction n as [|n IH]; intros s Hn Hs.
  - destruct s; [reflexivity|cbn in Hn; lia].
  - destruct s as [|c s]; [reflexivity|].
    cbn [wellFormed toWellFormed] in *. destruct (isHighSurrogate c).
    + destruct s as [|d s]; [discriminate|].
      apply andb_prop in Hs as [Hd Hs]. rewrite Hd.
      rewrite IH; [reflexivity|cbn in Hn; lia|exact Hs].
    + apply andb_prop in Hs as [Hc Hs]. apply negb_true_iff in Hc.
      rewrite Hc. rewrite IH; [reflexivity|cbn in Hn; lia|exact Hs].
Qed.

Lemma toWellFormed_wellFormed (s : js_string) :
  wellFormed s = true -> toWellFormed s = s.
Proof. now apply (@toWellFormed_length (List.length s)). Qed.

Lemma wellFormed_digits (s : js_string) :
  forallb isDigit s = true -> wellFormed s = true.
Proof.
  induction s as [|c s IH]; cbn [forallb wellFormed]; [reflexivity|].
  intros H; apply andb_prop in H as [Hc Hs].
  unfold isDigit in Hc. apply andb_prop in Hc as [_ Hhi].
  apply N.leb_le in Hhi.
  replace (isHighSurrogate c) with false
    by (symmetry; unfold isHighSurrogate; apply andb_false_iff; left;
        apply N.leb_gt; lia).
  replace (isLowSurrogate c) with false
    by (symmetry; unfold isLowSurrogate; apply andb_false_iff; left;
        apply N.leb_gt; lia).
  now apply IH.
Qed.

Lemma numberToString_wellFormed (z : Z) :
  wellFormed (numberToString z) = true.
Proof.
  destruct z as [|p|p].
  - reflexivity.
  - now apply wellFormed_digits, (numberToString_value (z := Z.pos p)).
  - unfold numberToString.
    cbn [Z.to_int DecimalString.NilZero.string_of_int].
    change (wellFormed
              (45%N :: lit (DecimalString.NilZero.string_of_uint (Pos.to_uint p)))
            = true).
    cbn [wellFormed].
    change (isHighSurrogate 45%N) with false.
    change (isLowSurrogate 45%N) with false. cbn [negb andb].
    pose proof (numberToString_value (z := Z.pos p)) as H.
    unfold numberToString in H.
    cbn [Z.to_int DecimalString.NilZero.string_of_int] in H.
    now apply wellFormed_digits, H.
Qed.

Lemma numberText_wellFormed (v : option Z) :
  wellFormed (Capture.numberText v) = true.
Proof. destruct v; [apply numberToString_wellFormed|reflexivity]. Qed.

Ltac well_formed :=
  match goal with
  | |- wellFormed (_ ++ _) = true => apply wellFormed_app; well_formed
  | |- wellFormed (Capture.numberText _) = true => apply numberText_wellFormed
  | |- wellFormed (Capture.toUpperCase (Capture.typeText ?t)) = true =>
      now destruct t
  | _ => first [assumption | reflexivity]
  end.

Lemma formatError_wellFormed (now connectionUrl : js_string)
      (error : Capture.BrowserError) :
  wellFormed now = true -> wellFormed connectionUrl = true ->
  wellFormed (Capture.text (Capture.message error)) = true ->
  wellFormed (Capture.text (Capture.url error)) = true ->
  wellFormed (Capture.text (Capture.stack error)) = true ->
  wellFormed (Capture.formatError now connectionUrl error ++ [NEWLINE]) = true.
Proof.
  intros Hn Hu Hm Hl Hs. unfold Capture.formatError.
  destruct (Capture.truthy (Capture.message error)),
           (Capture.truthy (Capture.url error)),
           (Capture.nonZero (Capture.line error)),
           (Capture.truthy (Capture.stack error));
    well_formed.
Qed.

(** *** The entry written and read *)

Lemma numberText_line (v : option Z) :
  forallb notNewline (Capture.numberText v) = true.
Proof. destruct v; [apply numberToString_line|reflexivity]. Qed.

Lemma fieldText_line (label : js_string) (v : option js_string) :
  label <> [] -> forallb notNewline label = true ->
  fieldText v = true -> Capture.truthy v = true ->
  linesText (label ++ Capture.text v) = true.
Proof.
  intros Hne Hl Hv Ht. destruct v as [[|c s]|]; try discriminate.
  apply linesText_prefix; [exact Hne|exact Hl|].
  now apply linesText_entryText.
Qed.

Lemma bodyLines_text (error : Capture.BrowserError) :
  fieldText (Capture.message error) = true ->
  fieldText (Capture.url error) = true ->
  fieldText (Capture.stack error) = true ->
  Forall (fun l => linesText l = true) (bodyLines error).
Proof.
  intros Hm Hu Hs. unfold bodyLines.
  apply Forall_app; split; [|apply Forall_app; split;
                              [|apply Forall_app; split]].
  - destruct (Capture.truthy (Capture.message error)) eqn:Ht; constructor;
      [|constructor].
    now apply fieldText_line.
  - destruct (Capture.truthy (Capture.url error)) eqn:Ht; constructor;
      [|constructor].
    now apply fieldText_line.
  - destruct (Capture.nonZero (Capture.line error)); constructor;
      [|constructor].
    rewrite <- (app_nil_r (_ ++ _)).
    apply linesText_prefix; [discriminate| |reflexivity].
    rewrite !forallb_app, !numberText_line. reflexivity.
  - destruct (Capture.truthy (Capture.stack error)) eqn:Ht; constructor;
      [|constructor].
    apply (@linesText_app (lit "Stack Trace:")); [reflexivity|].
    destruct (Capture.stack error) as [[|c s]|]; try discriminate.
    exact Hs.
Qed.

Lemma formatError_lines (now connectionUrl : js_string)
      (error : Capture.BrowserError) :
  Capture.formatError now connectionUrl error
  = headerLine now (Capture.type error) connectionUrl ++ [NEWLINE]
      ++ concat (map (fun l => l ++ [NEWLINE]) (bodyLines error)).
Proof.
  unfold Capture.formatError, bodyLines, headerLine.
  destruct (Capture.truthy (Capture.message error)),
           (Capture.truthy (Capture.url error)),
           (Capture.nonZero (Capture.line error)),
           (Capture.truthy (Capture.stack error));
    cbn [app map concat]; rewrite <- ?app_assoc; cbn [app];
    rewrite ?app_nil_r; reflexivity.
Qed.

Lemma formatError_entry (now connectionUrl : js_string)
      (error : Capture.BrowserError) :
  Forall (fun l => linesText l = true) (bodyLines error) ->
  Capture.formatError now connectionUrl error ++ [NEWLINE]
  = entryOf (capturedError now connectionUrl error) ++ [NEWLINE; NEWLINE].
Proof.
  intros Hb. rewrite formatError_lines. unfold entryOf, capturedError.
  cbn [BrowserLog.timestamp BrowserLog.message].
  destruct (bodyLines error) as [|l ls] eqn:Hl.
  - cbn. now rewrite <- app_assoc.
  - assert (Hj : linesText (join (l :: ls) [NEWLINE]) = true)
      by (apply linesText_join; [discriminate|exact Hb]).
    rewrite concat_lines by discriminate.
    destruct (join (l :: ls) [NEWLINE]) as [|c body]; [discriminate|].
    rewrite <- !app_assoc. reflexivity.
Qed.

Lemma notBlank_head (c : code_unit) (s : js_string) :
  isWhiteSpace c = false -> BrowserLog.notBlank (c :: s) = true.
Proof.
  intros Hc. unfold BrowserLog.notBlank, trim, trimEnd.
  cbn [trimStart]. rewrite Hc. cbn [rev].
  rewrite (@trimStart_snoc (rev s) c Hc), rev_app_distr. reflexivity.
Qed.

Lemma headerLine_line (now connectionUrl : js_string) (t : Capture.ErrorType) :
  forallb notNewline now = true ->
  forallb notNewline connectionUrl = true ->
  forallb notNewline (headerLine now t connectionUrl) = true.
Proof.
  intros Hn Hu. unfold headerLine.
  rewrite !forallb_app, Hn, Hu. now destruct t.
Qed.

Lemma capturedError_readable (now connectionUrl : js_string)
      (error : Capture.BrowserError) :
  forallb notNewline now = true ->
  forallb notNewline connectionUrl = true ->
  Forall (fun l => linesText l = true) (bodyLines error) ->
  readable (capturedError now connectionUrl error).
Proof.
  intros Hn Hu Hb.
  pose proof (@headerLine_line now connectionUrl (Capture.type error) Hn Hu) as Hh.
  split; [exact Hh|]. unfold entryOf, capturedError.
  cbn [BrowserLog.timestamp BrowserLog.message].
  assert (Hnb : forall rest,
             BrowserLog.notBlank
               (headerLine now (Capture.type error) connectionUrl ++ rest)
             = true)
    by (intros rest; now apply notBlank_head).
  destruct (bodyLines error) as [|l ls] eqn:Hl.
  - cbn [join]. split; [now apply entryText_prefix with (s := [])
                          in Hh; [rewrite app_nil_r in Hh|]|].
    rewrite <- (app_nil_r (headerLine _ _ _)). apply Hnb.
  - assert (Hj : linesText (join (l :: ls) [NEWLINE]) = true)
      by (apply linesText_join; [discriminate|exact Hb]).
    destruct (join (l :: ls) [NEWLINE]) as [|c body]; [discriminate|].
    split; [|apply Hnb].
    apply entryText_app; [|exact Hj].
    rewrite <- (app_nil_r (headerLine _ _ _)).
    now apply entryText_prefix.
Qed.

Lemma parse_logText (errors : list BrowserLog.RecentError) :
  Forall readable errors ->
  map BrowserLog.parseEntry
    (filter BrowserLog.notBlank
       (split (logText (map entryOf errors)) [NEWLINE; NEWLINE]))
  = errors.
Proof.
  intros Hall. rewrite split_logText.
  2:{ apply Forall_map. eapply Forall_impl; [|exact Hall].
      now intros r (_ & H & _). }
  rewrite filter_app. cbn [filter].
  replace (BrowserLog.notBlank []) with false by reflexivity.
  rewrite app_nil_r.
  induction Hall as [|r errors (Hts & _ & Hnb) _ IH]; [reflexivity|].
  cbn [map filter]. rewrite Hnb. cbn [map].
  now rewrite (parseEntry_entryOf _ Hts), IH.
Qed.

Lemma logText_snoc (entries : list js_string) (entry : js_string) :
  logText (entries ++ [entry])
  = logText entries ++ entry ++ [NEWLINE; NEWLINE].
Proof.
  unfold logText. rewrite map_app, concat_app. cbn [map concat].
  now rewrite app_nil_r.
Qed.

Lemma logError_file (connectionId now : js_string)
      (error : Capture.BrowserError) (s : Capture.state)
      (previous : list BrowserLog.RecentError) :
  Capture.globalErrorStreamingEnabled s = true ->
  Capture.canWrite s = true ->
  Capture.logFile s = BrowserLog.Text (logText (map entryOf previous))
  \/ (Capture.logFile s = BrowserLog.NoFile /\ previous = []) ->
  Forall (fun l => linesText l = true) (bodyLines error) ->
  wellFormed
    (Capture.formatError now
       (Capture.urlOf (Capture.connections s) connectionId) error
       ++ [NEWLINE]) = true ->
  Capture.logFile (Capture.logError connectionId error now s)
  = BrowserLog.Text
      (logText
         (map entryOf
            (previous
               ++ [capturedError now
                     (Capture.urlOf (Capture.connections s) connectionId)
                     error]))).
Proof.
  intros He Hw Hfile Hb Hwf.
  unfold Capture.logError, Capture.appendFileSync.
  rewrite He, Hw. cbn [negb Capture.logFile].
  rewrite (toWellFormed_wellFormed _ Hwf).
  rewrite map_app. cbn [map]. rewrite logText_snoc.
  rewrite (@formatError_entry now _ error Hb).
  destruct Hfile as [-> | [-> ->]]; reflexivity.
Qed.

(** What [logError] leaves in the file, from the conditions on its
    arguments. *)
Lemma logError_appends (connectionId now : js_string)
      (error : Capture.BrowserError) (s : Capture.state)
      (previous : list BrowserLog.RecentError) :
  Capture.globalErrorStreamingEnabled s = true ->
  Capture.canWrite s = true ->
  Capture.logFile s = BrowserLog.Text (logText (map entryOf previous))
  \/ (Capture.logFile s = BrowserLog.NoFile /\ previous = []) ->
  Forall readable previous ->
  headerText now ->
  headerText (Capture.urlOf (Capture.connections s) connectionId) ->
  loggable error ->
  Capture.logFile (Capture.logError connectionId error now s)
  = BrowserLog.Text
      (logText
         (map entryOf
            (previous
               ++ [capturedError now
                     (Capture.urlOf (Capture.connections s) connectionId)
                     error])))
  /\ Forall readable
       (previous
          ++ [capturedError now
                (Capture.urlOf (Capture.connections s) connectionId) error]).
Proof.
  intros He Hw Hfile Hprev (Hnow & Hnowwf) (Hurl & Hurlwf)
         (Hm & Hu & Hs & Hmwf & Huwf & Hswf & _ & _).
  pose proof (bodyLines_text _ Hm Hu Hs) as Hb.
  split.
  - apply logError_file; try assumption.
    now apply formatError_wellFormed.
  - apply Forall_app; split; [exact Hprev|].
    constructor; [|constructor]. now apply capturedError_readable.
Qed.

(** X25.  What [logError] writes, [getRecentErrors] reads back.  With
    streaming enabled and a log that can be written, holding readable
    entries or missing, an error is returned as the newest record: its
    timestamp is the whole header line, with the time, the type in
    upper case and the url of the connection, and its message is the
    lines of the fields that hold; a line number of 0 is one that does
    not hold.  This is for a time and a url without newline, for a
    message, url and stack that hold no empty line and neither start
    nor end with a newline, all of them left as they are by UTF-8, and
    for a line and a column up to 2^53. *)
Theorem logError_round_trip :
  forall (connectionId now : js_string) (error : Capture.BrowserError)
         (s : Capture.state) (previous : list BrowserLog.RecentError)
         (count : Z) (console : list console_line),
    Capture.globalErrorStreamingEnabled s = true ->
    Capture.canWrite s = true ->
    Capture.logFile s = BrowserLog.Text (logText (map entryOf previous))
    \/ (Capture.logFile s = BrowserLog.NoFile /\ previous = []) ->
    Forall readable previous ->
    headerText now ->
    headerText (Capture.urlOf (Capture.connections s) connectionId) ->
    loggable error ->
    BrowserLog.getRecentErrors count
      (Capture.logFile (Capture.logError connectionId error now s)) console
    = (BrowserLog.Errors
         (slice (- count)
            (previous
               ++ [capturedError now
                     (Capture.urlOf (Capture.connections s) connectionId)
                     error])),
       console).
Proof.
  intros connectionId now error s previous count console
         He Hw Hfile Hprev Hnow Hurl Herror.
  destruct (@logError_appends connectionId now error s previous
              He Hw Hfile Hprev Hnow Hurl Herror) as (-> & Hall).
  unfold BrowserLog.getRecentErrors. now rewrite parse_logText.
Qed.

Lemma logError_round_trip_witness :
  (headerText sampleNow
   /\ headerText (Capture.urlOf (Capture.connections sampleCapture)
                    (lit "1735689600000"))
   /\ loggable sampleException)
  /\ BrowserLog.getRecentErrors 1
       (Capture.logFile
          (Capture.logError (lit "1735689600000") sampleException sampleNow
             sampleCapture))
       []
     = (BrowserLog.Errors
          (slice (- (1))
             (sampleBrowserErrors
                ++ [capturedError sampleNow
                      (Capture.urlOf (Capture.connections sampleCapture)
                         (lit "1735689600000"))
                      sampleException])),
        []).
Proof.
  assert (Hnow : headerText sampleNow) by (split; vm_compute; reflexivity).
  assert (Hurl : headerText (Capture.urlOf (Capture.connections sampleCapture)
                               (lit "1735689600000")))
    by (split; vm_compute; reflexivity).
  assert (Herror : loggable sampleException)
    by (repeat split; vm_compute; reflexivity).
  split; [split; [exact Hnow|split; [exact Hurl|exact Herror]]|].
  apply (@logError_round_trip (lit "1735689600000") sampleNow sampleException
           sampleCapture sampleBrowserErrors 1 []);
    try assumption; try reflexivity.
  - left; reflexivity.
  - repeat constructor; vm_compute; reflexivity.
Defined.

(** X26.  Clearing the log of browser errors forgets everything and
    leaves a log that works.  When the log can be written and read,
    [clearErrors] reports success whatever the file held;
    [getRecentErrors] then returns the empty list for every count; and
    an error logged after that, under the conditions of the round
    trip, is the one record returned. *)
Theorem clearErrors_then_logError :
  forall (s : Capture.state) (connectionId now : js_string)
         (error : Capture.BrowserError) (count : Z)
         (console : list console_line),
    Capture.canWrite s = true ->
    Capture.globalErrorStreamingEnabled s = true ->
    Capture.logFile s <> BrowserLog.NoRead ->
    headerText now ->
    headerText (Capture.urlOf (Capture.connections s) connectionId) ->
    loggable error ->
    fst (Capture.clearErrors s) = Capture.Cleared
    /\ BrowserLog.getRecentErrors count
         (Capture.logFile (snd (Capture.clearErrors s))) console
       = (BrowserLog.Errors [], console)
    /\ BrowserLog.getRecentErrors count
         (Capture.logFile
            (Capture.logError connectionId error now
               (snd (Capture.clearErrors s))))
         console
       = (BrowserLog.Errors
            (slice (- count)
               [capturedError now
                  (Capture.urlOf (Capture.connections s) connectionId)
                  error]),
          console).
Proof.
  intros s connectionId now error count console Hw He Hread Hnow Hurl Herror.
  assert (Hc : exists cleared,
             Capture.clearErrors s = (Capture.Cleared, cleared)
             /\ Capture.globalErrorStreamingEnabled cleared = true
             /\ Capture.canWrite cleared = true
             /\ Capture.connections cleared = Capture.connections s
             /\ (Capture.logFile cleared = BrowserLog.Text []
                 \/ Capture.logFile cleared = BrowserLog.NoFile)).
  { unfold Capture.clearErrors, Capture.writeFileSync. rewrite Hw.
    destruct (Capture.logFile s) eqn:Hf; [| now contradiction Hread |];
      eexists; (split; [reflexivity|]); cbn; auto. }
  destruct Hc as (cleared & -> & He' & Hw' & Hcon & Hfile).
  cbn [fst snd]. split; [reflexivity|]. split.
  - unfold BrowserLog.getRecentErrors, slice.
    destruct Hfile as [-> | ->]; [|reflexivity].
    cbn. now rewrite skipn_nil.
  - rewrite <- Hcon in Hurl.
    destruct (@logError_appends connectionId now error cleared []
                He' Hw') as (-> & Hall); try assumption.
    + destruct Hfile as [-> | ->]; [left; reflexivity|right; now split].
    + constructor.
    + rewrite Hcon. unfold BrowserLog.getRecentErrors.
      rewrite parse_logText; [reflexivity|].
      now rewrite <- Hcon.
Qed.

Lemma clearErrors_then_logError_witness :
  (Capture.logFile sampleCapture <> BrowserLog.NoRead
   /\ headerText sampleNow
   /\ headerText (Capture.urlOf (Capture.connections sampleCapture)
                    (lit "1735689600000"))
   /\ loggable sampleException)
  /\ fst (Capture.clearErrors sampleCapture) = Capture.Cleared
  /\ BrowserLog.getRecentErrors 5
       (Capture.logFile (snd (Capture.clearErrors sampleCapture))) []
     = (BrowserLog.Errors [], [])
  /\ BrowserLog.getRecentErrors 5
       (Capture.logFile
          (Capture.logError (lit "1735689600000") sampleException sampleNow
             (snd (Capture.clearErrors sampleCapture))))
       []
     = (BrowserLog.Errors
          (slice (- (5))
             [capturedError sampleNow
                (Capture.urlOf (Capture.connections sampleCapture)
                   (lit "1735689600000"))
                sampleException]),
        []).
Proof.
  assert (Hread : Capture.logFile sampleCapture <> BrowserLog.NoRead)
    by discriminate.
  assert (Hnow : headerText sampleNow) by (split; vm_compute; reflexivity).
  assert (Hurl : headerText (Capture.urlOf (Capture.connections sampleCapture)
                               (lit "1735689600000")))
    by (split; vm_compute; reflexivity).
  assert (Herror : loggable sampleException)
    by (repeat split; vm_compute; reflexivity).
  split; [repeat split; assumption|].
  exact (@clearErrors_then_logError sampleCapture (lit "1735689600000")
           sampleNow sampleException 5 [] eq_refl eq_refl Hread Hnow Hurl
           Herror).
Defined.

(** X27.  The extractor of the streaming server and the extractor of
    the main server do the same to the log.  On every text and every
    state they leave the same log file; their console lines differ in
    the first one only; one throws when the other does, with the same
    error, and one returns null when the other does; and the records
    they return agree field by field, the streaming one carrying the
    full text where the other carries the suggestion, which is the one
    computed from the streaming record's message and context. *)
Theorem streaming_processDslError_agrees :
  forall (errorText now : js_string) (w : world),
    dslLogFile (snd (StreamingDsl.processDslError errorText now w))
    = dslLogFile (snd (processDslError errorText now w))
    /\ (exists rest,
           console (snd (processDslError errorText now w))
           = console w
               ++ Log (lit "Processing DSL error:") (Some errorText) :: rest
           /\ console (snd (StreamingDsl.processDslError errorText now w))
              = console w
                  ++ Log (lit "Processing Structurizr DSL error:")
                       (Some errorText) :: rest)
    /\ match fst (processDslError errorText now w),
             fst (StreamingDsl.processDslError errorText now w) with
       | Return None, Return None => True
       | Throw e, Throw e' => e = e'
       | Return (Some d), Return (Some d') =>
           timestamp d = StreamingDsl.timestamp d'
           /\ type d = StreamingDsl.type d'
           /\ message d = StreamingDsl.message d'
           /\ filename d = StreamingDsl.filename d'
           /\ line d = StreamingDsl.line d'
           /\ column d = StreamingDsl.column d'
           /\ context d = StreamingDsl.context d'
           /\ StreamingDsl.fullError d' = errorText
           /\ suggestion d
              = getSuggestionForError (StreamingDsl.message d')
                  (StreamingDsl.context d')
           /\ logEntry d = StreamingDsl.logEntry d'
       | _, _ => False
       end.
Proof.
  intros errorText now w.
  unfold processDslError, StreamingDsl.processDslError.
  destruct (regexMatch dslErrorPattern errorText) as [caps|].
  2:{ cbn. split; [reflexivity|]. split; [|exact I].
      eexists; split; rewrite <- app_assoc; reflexivity. }
  destruct (capture 1 caps) as [errorMessage|],
           (capture 2 caps) as [lineNumber|],
           (capture 3 caps) as [filePath|],
           (capture 4 caps) as [errorContext|];
    try (cbn; split; [reflexivity|]; split; [|reflexivity];
         eexists; split; reflexivity).
  unfold existingErrors, existsSync, readJson, writeFileSync, consoleLog,
    consoleError.
  destruct w as [[| | |v] [|] dsl con limit]; cbn;
    try (destruct (spread limit v); cbn);
    (split; [reflexivity|]);
    (split; [eexists; split; rewrite <- ?app_assoc; reflexivity|]);
    try reflexivity; repeat split.
Qed.

Lemma streaming_processDslError_matched (errorText now m n f c : js_string)
      (w : world) :
  regexMatch dslErrorPattern errorText = Some (dslCaptures m n f c) ->
  writable w = true ->
  exists d w',
    StreamingDsl.processDslError errorText now w = (Return (Some d), w')
    /\ exists items,
        dslLogFile w'
        = Json (JArr (items ++ [logEntry (parsedError now m n f c)])).
Proof.
  intros Hr Hw. unfold StreamingDsl.processDslError. rewrite Hr.
  simpl capture. cbv iota zeta beta.
  set (w0 := consoleLog _ _ w).
  pose proof (existingErrors_frame w0) as (_ & Hw' & _).
  destruct (existingErrors w0) as [items w1]. cbn [snd] in Hw'.
  unfold writeFileSync. rewrite Hw'. subst w0. cbn [consoleLog writable].
  rewrite Hw. eexists. eexists. split; [reflexivity|].
  exists items. reflexivity.
Qed.

(** X28.  A DSL error seen on the browser console reaches both logs.
    When the listener for [Console.messageAdded] gets a message of
    level error whose text has the expected shape, with both logs
    writable, a DSL log that was not unreadable and streaming enabled,
    it completes normally; afterwards the streaming [getDslErrors]
    with count 1 returns the entry of the parsed error, and
    [getRecentErrors] with count 1 returns the text itself as a
    console error of the connection, under the conditions of the
    round trip. *)
Theorem onMessageAdded_both_logs :
  forall (connectionId errorText : js_string) (messageUrl : option js_string)
         (messageLine messageColumn : option Z) (nowDsl nowLog : js_string)
         (w : world) (s : Capture.state) (m0 n0 f0 c0 : js_string)
         (previous : list BrowserLog.RecentError),
    hasShape errorText m0 n0 f0 c0 ->
    writable w = true ->
    dslLogFile w <> Unreadable ->
    Capture.globalErrorStreamingEnabled s = true ->
    Capture.canWrite s = true ->
    Capture.logFile s = BrowserLog.Text (logText (map entryOf previous))
    \/ (Capture.logFile s = BrowserLog.NoFile /\ previous = []) ->
    Forall readable previous ->
    headerText nowLog ->
    headerText (Capture.urlOf (Capture.connections s) connectionId) ->
    loggable (Capture.mkBrowserError Capture.ConsoleType (Some errorText)
                messageUrl messageLine messageColumn None) ->
    exists m n f c w' s',
      hasShape errorText m n f c
      /\ onMessageAdded connectionId (lit "error") errorText messageUrl
           messageLine messageColumn nowDsl nowLog w s
         = (Return tt, w', s')
      /\ Streaming.getDslErrors 1 w'
         = (Streaming.Errors (JArr [logEntry (parsedError nowDsl m n f c)]),
            w')
      /\ forall console,
          BrowserLog.getRecentErrors 1 (Capture.logFile s') console
          = (BrowserLog.Errors
               [capturedError nowLog
                  (Capture.urlOf (Capture.connections s) connectionId)
                  (Capture.mkBrowserError Capture.ConsoleType (Some errorText)
                     messageUrl messageLine messageColumn None)],
             console).
Proof.
  intros connectionId errorText messageUrl messageLine messageColumn
         nowDsl nowLog w s m0 n0 f0 c0 previous
         Hshape Hw _ He Hcw Hfile Hprev Hnow Hurl Herror.
  destruct (regexMatch dslErrorPattern errorText) as [caps|] eqn:Hr;
    [|now apply shape_regexMatch in Hshape].
  destruct (regexMatch_shape _ Hr) as (m & n & f & c & -> & Hs).
  destruct (@streaming_processDslError_matched errorText nowDsl m n f c w Hr Hw)
    as (d & w' & Hp & items & Hlog).
  exists m, n, f, c, w'. eexists.
  split; [exact Hs|]. split; [|split].
  - unfold onMessageAdded.
    rewrite (shape_mentions_workspace Hshape).
    assert (Ht : Capture.truthy (Some errorText) = true).
    { destruct errorText; [|reflexivity].
      now pose proof (shape_mentions_workspace Hshape). }
    rewrite Ht, Hp. reflexivity.
  - unfold Streaming.getDslErrors, existsSync, readJson. rewrite Hlog.
    cbn [negb]. rewrite slice_last by lia.
    rewrite length_app; cbn [List.length].
    replace (List.length items + 1 - Z.to_nat 1)%nat with (List.length items)
      by lia.
    now rewrite skipn_length_app.
  - intros console.
    destruct (@logError_appends connectionId nowLog _ s previous
                He Hcw Hfile Hprev Hnow Hurl Herror) as (-> & Hall).
    unfold BrowserLog.getRecentErrors. rewrite parse_logText by exact Hall.
    rewrite slice_last by lia.
    rewrite length_app; cbn [List.length].
    replace (List.length previous + 1 - Z.to_nat 1)%nat
      with (List.length previous) by lia.
    now rewrite skipn_length_app.
Qed.

Lemma onMessageAdded_both_logs_witness :
  (dslLogFile freshWorld <> Unreadable
   /\ headerText sampleNow
   /\ headerText (Capture.urlOf (Capture.connections sampleCapture)
                    (lit "1735689600000"))
   /\ loggable (Capture.mkBrowserError Capture.ConsoleType
                  (Some dynamicViewErrorText)
                  (Some (lit "http://localhost:8080/workspace"))
                  (Some 0) (Some 0) None))
  /\ exists m n f c w' s',
    hasShape dynamicViewErrorText m n f c
    /\ onMessageAdded (lit "1735689600000") (lit "error") dynamicViewErrorText
         (Some (lit "http://localhost:8080/workspace")) (Some 0) (Some 0)
         sampleNow sampleNow freshWorld sampleCapture
       = (Return tt, w', s')
    /\ Streaming.getDslErrors 1 w'
       = (Streaming.Errors (JArr [logEntry (parsedError sampleNow m n f c)]),
          w')
    /\ forall console,
        BrowserLog.getRecentErrors 1 (Capture.logFile s') console
        = (BrowserLog.Errors
             [capturedError sampleNow
                (Capture.urlOf (Capture.connections sampleCapture)
                   (lit "1735689600000"))
                (Capture.mkBrowserError Capture.ConsoleType
                   (Some dynamicViewErrorText)
                   (Some (lit "http://localhost:8080/workspace"))
                   (Some 0) (Some 0) None)],
           console).
Proof.
  assert (Hshape : hasShape dynamicViewErrorText
                     (lit "Unexpected tokens (expected: include, exclude, autolayout, default, animation, title, description, properties)")
                     (lit "776") (lit "/usr/local/structurizr/workspace.dsl")
                     (lit " dynamic " ++ [QUOTE] ++ lit "ErrorHandlingFlow"
                        ++ [QUOTE] ++ lit " {")).
  { shape_by_computation. }
  assert (Hread : dslLogFile freshWorld <> Unreadable) by discriminate.
  assert (Hnow : headerText sampleNow) by (split; vm_compute; reflexivity).
  assert (Hurl : headerText (Capture.urlOf (Capture.connections sampleCapture)
                               (lit "1735689600000")))
    by (split; vm_compute; reflexivity).
  assert (Herror : loggable (Capture.mkBrowserError Capture.ConsoleType
                               (Some dynamicViewErrorText)
                               (Some (lit "http://localhost:8080/workspace"))
                               (Some 0) (Some 0) None))
    by (repeat split; vm_compute; reflexivity).
  split; [repeat split; assumption|].
  apply (@onMessageAdded_both_logs (lit "1735689600000") dynamicViewErrorText
           (Some (lit "http://localhost:8080/workspace")) (Some 0) (Some 0)
           sampleNow sampleNow freshWorld sampleCapture _ _ _ _
           sampleBrowserErrors Hshape);
    try assumption; try reflexivity.
  - left; reflexivity.
  - repeat constructor; vm_compute; reflexivity.
Defined.
